(** * The chunk engine of Hub: a shallow embedding of [hub/core/chunk_engine.py]

    The engine packs serialized samples into chunks, keeps the tensor meta and
    the chunk id encoder in step with them, and reads samples back through the
    encoders.  Python objects held by the cache are mutable and shared; the
    model keeps them in one store and threads that store through every
    method, together with the exception a method may raise.

    Byte counts are Python integers, here [Z].  The two places where the
    source goes through floating point ([ceil(size / max)] and the warning
    thresholds [max * 1.2], [min * 0.8]) are computed on rationals: Python's
    integer true division is correctly rounded and the products are within
    half a unit in the last place of the exact value for operands below
    [2^50], so on every byte count a chunk can have the comparisons agree
    with the exact ones. *)

From Stdlib Require Import ZArith QArith Qround Lia.
From Stdlib Require Import Strings.Byte Strings.Ascii.
From stdpp Require Import gmap strings list.

Local Open Scope Z_scope.

(** ** Python exceptions and the state-and-exception monad *)

Inductive exception : Type :=
  | ReadOnly                 (* cache.check_readonly() *)
  | CorruptedMetaError
  | DynamicTensorNumpyError
  | UpdateSampleError
  | NotImplementedError
  | ValueError
  | KeyError
  | IndexError
  | FullChunkError           (* Chunk.append_sample beyond the byte budget *)
  | InvalidShape             (* TensorMeta.update_shape_interval *)
  | TypeError.               (* len() of an unsized object *)

#[global] Instance exception_eq_dec : EqDecision exception.
Proof. solve_decision. Defined.

Inductive outcome (A : Type) : Type :=
  | Ok (a : A)
  | Raise (e : exception).
Arguments Ok {A} a.
Arguments Raise {A} e.

#[global] Instance byte_eq_dec : EqDecision byte := Byte.byte_eq_dec.

Definition memoryview : Type := list byte.
Definition shape_t : Type := list Z.

(** [len(buffer)] *)
Definition len {A : Type} (l : list A) : Z := Z.of_nat (length l).

(** [buffer[sb:eb]] for non-negative bounds. *)
Definition slice {A : Type} (l : list A) (sb eb : nat) : list A :=
  take (eb - sb)%nat (drop sb l).

(** ** numpy, as far as the engine uses it *)

Module np.

Inductive dtype : Type :=
  | bool_ | uint8 | uint16 | uint32 | uint64
  | int8 | int16 | int32 | int64 | float32 | float64.

#[global] Instance dtype_eq_dec : EqDecision dtype.
Proof. solve_decision. Defined.

Definition itemsize (d : dtype) : Z :=
  match d with
  | bool_ | uint8 | int8 => 1
  | uint16 | int16 => 2
  | uint32 | int32 | float32 => 4
  | uint64 | int64 | float64 => 8
  end.

(** An array is its shape, its dtype and its raw bytes.  Numpy scalars are
    the arrays of shape [()]. *)
Record ndarray : Type := mk_ndarray {
  shape : shape_t;
  dtype_of : dtype;
  tobytes : memoryview
}.

#[global] Instance ndarray_eq_dec : EqDecision ndarray.
Proof. solve_decision. Defined.

(** Number of elements of an array of the given shape. *)
Definition size_of_shape (s : shape_t) : Z := foldr Z.mul 1 s.

(** [dtype=None] means [float64] to numpy. *)
Definition dtype_or_default (d : option dtype) : dtype := default float64 d.

(** [np.zeros(shape, dtype=dtype)] *)
Definition zeros (s : shape_t) (d : option dtype) : ndarray :=
  let d := dtype_or_default d in
  mk_ndarray s d (repeat x00 (Z.to_nat (size_of_shape s * itemsize d))).

(** [np.frombuffer(buffer, dtype=dtype).reshape(shape)]: numpy raises
    [ValueError] unless the buffer holds exactly the elements of [shape]. *)
Definition frombuffer_reshape (buffer : memoryview) (d : option dtype)
    (s : shape_t) : outcome ndarray :=
  let d := dtype_or_default d in
  if len buffer =? size_of_shape s * itemsize d
  then Ok (mk_ndarray s d buffer)
  else Raise ValueError.

(** [np.isscalar(a)] after indexing: the 0-dimensional results. *)
Definition isscalar (a : ndarray) : bool := bool_decide (shape a = []).

(** [np.array(samples)] on a list of equally shaped arrays: stacking. *)
Definition array (samples : list ndarray) : ndarray :=
  match samples with
  | [] => mk_ndarray [0] float64 []
  | a :: _ =>
      mk_ndarray (len samples :: shape a) (dtype_of a)
                 (concat (tobytes <$> samples))
  end.

End np.

(** ** What the engine takes from outside the repository's core

    The random source behind [generate_chunk_id], the decompression codec,
    numpy's [astype], and the size of a chunk's header (version and the two
    encoder blobs of the stored layout). *)

Class Externals : Type := {
  (** the [i]-th identifier drawn from the random source *)
  uuid4 : nat → N;
  (** [decompress_array(buffer, shape)] of [hub.core.compression] *)
  decompress_array : memoryview → shape_t → np.ndarray;
  (** [sample.astype(dtype)] *)
  astype : np.ndarray → option np.dtype → np.ndarray;
  (** bytes of [version | shape_encoder_blob | byte_positions_encoder_blob] *)
  header_nbytes : list shape_t → list (nat * nat) → Z
}.

(** A serialized sample: what the codec ([serialize_input_samples]) hands to
    the engine for one user value. *)
Abbreviation serialized := (memoryview * shape_t)%type (only parsing).

(** ** Chunk *)

Module Chunk.

(** Modelled from the spec: the [Chunk] class ([hub/core/chunk.py]) is not
    among the sources.  A chunk owns a byte buffer, a [shapes_encoder]
    mapping local index to shape and a [byte_positions_encoder] mapping
    local index to [(start_byte, end_byte)]; the two encoders are kept as
    the mappings they denote, one entry per local sample. *)
Record t : Type := mk {
  data : memoryview;
  shapes_encoder : list shape_t;
  byte_positions_encoder : list (nat * nat)
}.

(** [Chunk()] *)
Definition new : t := mk [] [] [].

Definition memoryview_data (c : t) : memoryview := data c.

Definition num_data_bytes (c : t) : Z := len (data c).

Definition num_samples (c : t) : nat := length (shapes_encoder c).

(** Modelled from the spec: the stored layout is
    [version | shape_encoder_blob | byte_positions_encoder_blob | data_bytes]. *)
Definition nbytes `{Externals} (c : t) : Z :=
  header_nbytes (shapes_encoder c) (byte_positions_encoder c) + num_data_bytes c.

(** Modelled from the spec: [is_under_min_space(min)] is
    [num_data_bytes < min]. *)
Definition is_under_min_space (c : t) (min_data_bytes_target : Z) : bool :=
  num_data_bytes c <? min_data_bytes_target.

(** Modelled from the spec: [append_sample(buffer, max_chunk_size, shape)]
    rejects a buffer that would take the chunk beyond [max_chunk_size];
    otherwise the buffer goes to the end of the data and the sample is
    registered in both encoders. *)
Definition append_sample (c : t) (buffer : memoryview) (max_data_bytes : Z)
    (shape : shape_t) : outcome t :=
  if max_data_bytes <? num_data_bytes c + len buffer then Raise FullChunkError
  else
    let sb := length (data c) in
    Ok (mk (data c ++ buffer)
           (shapes_encoder c ++ [shape])
           (byte_positions_encoder c ++ [(sb, (sb + length buffer)%nat)])).

(** Modelled from the spec: [update_sample(local_index, buffer, shape)]
    splices the old [[start, end)] out of the data and the new buffer in,
    shifts the byte positions from [local_index] onwards by
    [len(buffer) - (end - start)] (the end of the updated sample, both
    bounds of the later ones, so that the ranges stay contiguous), and
    replaces the shape at [local_index]. *)
Definition update_sample (c : t) (local_sample_index : nat)
    (buffer : memoryview) (shape : shape_t) : outcome t :=
  match byte_positions_encoder c !! local_sample_index with
  | None => Raise IndexError
  | Some (sb, eb) =>
      let shift (p : nat) : nat := (p + length buffer - (eb - sb))%nat in
      Ok (mk (take sb (data c) ++ buffer ++ drop eb (data c))
             (<[local_sample_index := shape]> (shapes_encoder c))
             (take local_sample_index (byte_positions_encoder c)
              ++ [(sb, shift eb)]
              ++ ((λ p : nat * nat, (shift p.1, shift p.2))
                    <$> drop (S local_sample_index) (byte_positions_encoder c))))
  end.

End Chunk.

(** ** TensorMeta *)

Module TensorMeta.

(** Modelled from the spec: the [TensorMeta] class
    ([hub/core/meta/tensor_meta.py]) is not among the sources; it carries
    [dtype, length, min_shape, max_shape, max_chunk_size,
    sample_compression]. *)
Record t : Type := mk {
  dtype : option np.dtype;
  length : nat;
  min_shape : shape_t;
  max_shape : shape_t;
  max_chunk_size : option Z;
  sample_compression : option string
}.

Definition set_dtype (m : t) (d : np.dtype) : t :=
  mk (Some d) (length m) (min_shape m) (max_shape m) (max_chunk_size m)
     (sample_compression m).

(** [tensor_meta.length += 1] *)
Definition incr_length (m : t) : t :=
  mk (dtype m) (S (length m)) (min_shape m) (max_shape m) (max_chunk_size m)
     (sample_compression m).

Definition set_shape_interval (m : t) (lo hi : shape_t) : t :=
  mk (dtype m) (length m) lo hi (max_chunk_size m) (sample_compression m).

(** Modelled from the spec: [update_shape_interval(shape)] widens
    [min_shape] and [max_shape] element-wise; after the first sample the
    number of dimensions must match, else [InvalidShape].  The first
    sample is the one that arrives while [length] is still 0 ([extend]
    widens the interval before it counts the sample). *)
Definition update_shape_interval (m : t) (shape : shape_t) : outcome t :=
  if bool_decide (length m = 0%nat) then Ok (set_shape_interval m shape shape)
  else if bool_decide (List.length shape = List.length (min_shape m)) then
    Ok (set_shape_interval m (zip_with Z.min (min_shape m) shape)
                             (zip_with Z.max (max_shape m) shape))
  else Raise InvalidShape.

End TensorMeta.

(** ** ChunkIdEncoder *)

Module ChunkIdEncoder.

(** Modelled from the spec: the [ChunkIdEncoder] class
    ([hub/core/meta/encode/chunk_id.py]) is not among the sources.  It is
    a table of [(chunk_id, last_global_sample_index_in_that_chunk)] rows
    sorted by the second column; [latest] is the id made by
    [generate_chunk_id] for a chunk whose row [register_samples] has yet
    to add. *)
Record t : Type := mk {
  rows : list (N * nat);
  latest : option N
}.

(** [ChunkIdEncoder()] *)
Definition blank : t := mk [] None.

Definition num_chunks (e : t) : nat := length (rows e).

Definition num_samples (e : t) : nat :=
  match last (rows e) with
  | Some (_, last_index) => S last_index
  | None => 0%nat
  end.

(** [generate_chunk_id()] with the random draw [id] made by the caller. *)
Definition generate_chunk_id (e : t) (id : N) : t := mk (rows e) (Some id).

(** Modelled from the spec: [register_samples(n)] extends the last row's
    last index by [n], or, when a new chunk has just been created, appends
    a new row with the latest chunk id. *)
Definition register_samples (e : t) (n : nat) : outcome t :=
  match latest e with
  | Some id => Ok (mk (rows e ++ [(id, (num_samples e + n - 1)%nat)]) None)
  | None =>
      match last (rows e) with
      | Some (id, last_index) =>
          Ok (mk (<[pred (length (rows e)) := (id, (last_index + n)%nat)]> (rows e))
                 None)
      | None => Raise IndexError
      end
  end.

Definition hex_digit (n : N) : Ascii.ascii :=
  nth (N.to_nat n)
      ["0"; "1"; "2"; "3"; "4"; "5"; "6"; "7";
       "8"; "9"; "a"; "b"; "c"; "d"; "e"; "f"]%char "0"%char.

Fixpoint hex_digits (width : nat) (n : N) : string :=
  match width with
  | O => ""
  | S w => hex_digits w (n / 16)%N +:+ String (hex_digit (n mod 16)%N) ""
  end.

(** Modelled from the spec: [name_from_id(id)] is the lowercase hex of the
    64-bit id, zero-padded. *)
Definition name_from_id (id : N) : string := hex_digits 16 id.

(** [rows[:, 0][i]] with Python's negative indices. *)
Definition get_name_for_chunk (e : t) (chunk_index : Z) : outcome string :=
  let n := len (rows e) in
  let i := if chunk_index <? 0 then n + chunk_index else chunk_index in
  if (i <? 0) || (n <=? i) then Raise IndexError
  else
    match rows e !! Z.to_nat i with
    | Some (id, _) => Ok (name_from_id id)
    | None => Raise IndexError
    end.

(** Index of the smallest row whose last index is at least [g] (what the
    binary search over the sorted table returns), counted from
    [row_index]. *)
Fixpoint search (rs : list (N * nat)) (g : nat) (row_index : nat)
    : option (nat * N) :=
  match rs with
  | [] => None
  | (id, last_index) :: rs' =>
      if (g <=? last_index)%nat then Some (row_index, id)
      else search rs' g (S row_index)
  end.

(** [enc[g]] *)
Definition getitem (e : t) (global_sample_index : nat) : outcome N :=
  match search (rows e) global_sample_index 0 with
  | Some (_, id) => Ok id
  | None => Raise IndexError
  end.

(** Modelled from the spec: the local index within the owning chunk is
    [g - last_index_of_previous_row - 1], or [g] when it is the first
    row. *)
Definition translate_index_relative_to_chunks (e : t)
    (global_sample_index : nat) : outcome nat :=
  match search (rows e) global_sample_index 0 with
  | Some (O, _) => Ok global_sample_index
  | Some (S i, _) =>
      match rows e !! i with
      | Some (_, previous_last) =>
          Ok (global_sample_index - previous_last - 1)%nat
      | None => Raise IndexError
      end
  | None => Raise IndexError
  end.

End ChunkIdEncoder.

(** ** Index *)

Module Index.

(** Modelled from the spec: the [Index] class ([hub/core/index/index.py])
    is not among the sources.  The engine uses the global sample indices
    its first entry addresses in a tensor of a given length, whether only
    the primary axis is addressed, whether the first entry is a slice or a
    list (subscriptable) rather than one integer, and the sub-index the
    remaining entries apply to each sample. *)
Record t : Type := mk {
  indices : nat → list nat;
  is_single_dim_effective : bool;
  subscriptable : bool;
  apply_entry : np.ndarray → np.ndarray
}.

(** [index.length(parent_length)] *)
Definition length (i : t) (parent_length : nat) : nat :=
  List.length (indices i parent_length).

(** [index.apply(samples)] *)
Definition apply (i : t) (samples : list np.ndarray) : list np.ndarray :=
  apply_entry i <$> samples.

End Index.

(** ** The cache, as the engine sees it *)

(** Modelled from the spec: the LRU cache ([hub/core/storage/lru_cache.py])
    is not among the sources; it is a keyed store with read-only signalling.
    Under the tensor key [T] it holds the tensor meta ([T/tensor_meta.json]),
    the chunk id encoder ([T/chunks_index]) and one chunk per chunk key
    ([T/chunks/<name>]).  The store also carries what else a method can
    affect: how many ids the random source has handed out and the warnings
    emitted so far. *)
Record store : Type := mk_store {
  read_only : bool;
  meta_blob : option TensorMeta.t;
  chunks_index : option ChunkIdEncoder.t;
  chunks : gmap string Chunk.t;
  uuid_calls : nat;
  warnings : list string
}.

Definition with_meta (s : store) (m : TensorMeta.t) : store :=
  mk_store (read_only s) (Some m) (chunks_index s) (chunks s) (uuid_calls s)
           (warnings s).

Definition with_index (s : store) (e : ChunkIdEncoder.t) : store :=
  mk_store (read_only s) (meta_blob s) (Some e) (chunks s) (uuid_calls s)
           (warnings s).

Definition with_chunk (s : store) (chunk_key : string) (c : Chunk.t) : store :=
  mk_store (read_only s) (meta_blob s) (chunks_index s)
           (<[chunk_key := c]> (chunks s)) (uuid_calls s) (warnings s).

Definition with_uuid_call (s : store) : store :=
  mk_store (read_only s) (meta_blob s) (chunks_index s) (chunks s)
           (S (uuid_calls s)) (warnings s).

Definition with_warning (s : store) (message : string) : store :=
  mk_store (read_only s) (meta_blob s) (chunks_index s) (chunks s)
           (uuid_calls s) (warnings s ++ [message]).

(** A method: it runs on a store and leaves a store, with a value or a
    raised exception.  What was written before an exception stays written. *)
Definition M (A : Type) : Type := store → outcome A * store.

#[global] Instance M_ret : MRet M := λ A a s, (Ok a, s).

#[global] Instance M_bind : MBind M := λ A B f m s,
  match m s with
  | (Ok a, s') => f a s'
  | (Raise e, s') => (Raise e, s')
  end.

Definition raise {A : Type} (e : exception) : M A := λ s, (Raise e, s).

Definition lift {A : Type} (o : outcome A) : M A := λ s, (o, s).

Definition get_store : M store := λ s, (Ok s, s).

Definition modify (f : store → store) : M unit := λ s, (Ok tt, f s).

(** [for x in xs: body(x)] *)
Fixpoint for_each {A : Type} (xs : list A) (body : A → M unit) : M unit :=
  match xs with
  | [] => mret tt
  | x :: xs' => body x ;; for_each xs' body
  end.

(** A loop that carries local variables of type [S] from one iteration to
    the next. *)
Fixpoint for_fold {A S : Type} (xs : list A) (locals : S)
    (body : S → A → M S) : M S :=
  match xs with
  | [] => mret locals
  | x :: xs' => locals' ← body locals x; for_fold xs' locals' body
  end.

(** ** Constants and keys *)

Definition MB : Z := 1024 * 1024.

(** Modelled from the spec: [hub.constants] is not among the sources; the
    scenarios run with a maximum chunk size of 32 MiB. *)
Definition DEFAULT_MAX_CHUNK_SIZE : Z := 32 * MB.

(** Modelled from the spec: [hub.util.keys] is not among the sources; a
    chunk lives under [T/chunks/<name>]. *)
Definition get_chunk_key (key chunk_name : string) : string :=
  key +:+ "/chunks/" +:+ chunk_name.

Definition get_tensor_meta_key (key : string) : string :=
  key +:+ "/tensor_meta.json".

Definition get_chunk_id_encoder_key (key : string) : string :=
  key +:+ "/chunks_index".

(** used for warning the user if updating a tensor caused suboptimal chunks *)
Definition CHUNK_UPDATE_WARN_PORTION : Q := 2 # 10.

Definition SUBOPTIMAL_CHUNKS_WARNING : string :=
  "After update, some chunks were suboptimal. Be careful when doing lots of updates that modify the sizes of samples by a large amount, these can heavily impact read performance!".

Definition Qlt_bool (x y : Q) : bool := negb (Qle_bool y x).

(** ** Module-level functions of [chunk_engine.py] *)

(** Calculates the minimum number of chunks in which data of given size can
    be fit: [ceil(size / chunk_max_data_bytes)]. *)
Definition _min_chunk_ct_for_data_size (chunk_max_data_bytes size : Z) : Z :=
  Qceiling (inject_Z size / inject_Z chunk_max_data_bytes).

Fixpoint _warn_loop (chunks_nbytes_after_updates : list Z)
    (lower_warn_threshold upper_warn_threshold : Q) : M unit :=
  match chunks_nbytes_after_updates with
  | [] => mret tt
  | nbytes :: rest =>
      if Qlt_bool upper_warn_threshold (inject_Z nbytes)
         || Qlt_bool (inject_Z nbytes) lower_warn_threshold
      then modify (λ s, with_warning s SUBOPTIMAL_CHUNKS_WARNING)   (* break *)
      else _warn_loop rest lower_warn_threshold upper_warn_threshold
  end.

Definition _warn_if_suboptimal_chunks (chunks_nbytes_after_updates : list Z)
    (min_chunk_size max_chunk_size : Z) : M unit :=
  let upper_warn_threshold :=
    (inject_Z max_chunk_size * (1 + CHUNK_UPDATE_WARN_PORTION))%Q in
  let lower_warn_threshold :=
    (inject_Z min_chunk_size * (1 - CHUNK_UPDATE_WARN_PORTION))%Q in
  _warn_loop chunks_nbytes_after_updates lower_warn_threshold
             upper_warn_threshold.

(** The [samples] argument of [update], seen through the codec: a value
    with a [__len__] (list, tuple, array) serializes item by item, and any
    value serializes as one sample when it is wrapped as [[samples]];
    [shape_attr] is its [shape] attribute when it has one.  A numpy array
    of no dimension ([Unsized]) has a [__len__] and the shape [()], but
    [len()] of it raises [TypeError]. *)
Inductive samples_arg : Type :=
  | Sequence (shape_attr : option shape_t) (whole : serialized)
             (items : list serialized)
  | Single (shape_attr : option shape_t) (whole : serialized)
  | Unsized (whole : serialized).

(** Make [samples] a sequence with as many items as the index addresses. *)
Definition _make_sequence (samples : samples_arg) (index_length : nat)
    : outcome (list serialized) :=
  let wrap :=
    if bool_decide (index_length = 1%nat) then
      match samples with
      | Sequence _ _ items => bool_decide (length items ≠ 1%nat)
      | Single (Some shape) _ =>
          (0 <? len shape) && bool_decide (hd 0 shape ≠ 1)
      | Single None _ => true
      | Unsized _ => false
      end
    else false in
  match samples, wrap with
  | Unsized _, _ =>
      (* [len(samples)], in the first test that is reached *)
      Raise TypeError
  | Sequence _ whole _, true | Single _ whole, true =>
      (* [samples = [samples]], a list of length 1 *)
      if bool_decide (index_length ≠ 1%nat) then Raise ValueError
      else Ok [whole]
  | Sequence _ _ items, false =>
      if bool_decide (index_length ≠ length items) then Raise ValueError
      else Ok items
  | Single _ whole, false => Ok [whole]
  end.

(** The value [numpy] returns: a list (of arrays or scalars) or one array. *)
Inductive numpy_result : Type :=
  | AsList (samples : list np.ndarray)
  | AsArray (a : np.ndarray).

(** Prepares samples being read from the chunk engine in the format the user
    expects. *)
Definition _format_read_samples (samples : list np.ndarray) (index : Index.t)
    (aslist : bool) : outcome numpy_result :=
  let samples := Index.apply index samples in
  (* [arr.item()] turns a numpy scalar into a Python one: same value *)
  let samples :=
    if aslist && forallb np.isscalar samples then samples else samples in
  (* [index.apply_squeeze(samples)] *)
  if Index.subscriptable index then
    Ok (if aslist then AsList samples else AsArray (np.array samples))
  else
    match samples with
    | first :: _ => Ok (AsArray first)
    | [] => Raise IndexError
    end.

(** ** ChunkEngine *)

(** A chunk object is referred to by the key it is cached under; reading one
    of its attributes goes to the store, so every alias sees an in-place
    change. *)
Abbreviation chunk_ref := string (only parsing).

Section ChunkEngine.

Context `{Externals}.

(** [self.key]: the tensor key.  [self.meta_cache] is [self.cache], as for
    the engine a [Tensor] builds. *)
Variable key : string.


Definition check_readonly : M unit := λ s,
  if read_only s then (Raise ReadOnly, s) else (Ok tt, s).

(** The cache's flush policy is its own; the engine only asks. *)
Definition maybe_flush : M unit := mret tt.

(** [self.cache.get_cachable(chunk_key, Chunk)] *)
Definition get_cachable_chunk (chunk_key : string) : M chunk_ref :=
  s ← get_store;
  match chunks s !! chunk_key with
  | Some _ => mret chunk_key
  | None => raise KeyError
  end.

(** The chunk object behind a reference. *)
Definition deref (chunk : chunk_ref) : M Chunk.t :=
  s ← get_store;
  match chunks s !! chunk with
  | Some c => mret c
  | None => raise KeyError
  end.

(** [self.cache[chunk_key] = chunk] *)
Definition set_chunk (chunk_key : string) (c : Chunk.t) : M unit :=
  modify (λ s, with_chunk s chunk_key c).

Definition tensor_meta : M TensorMeta.t :=
  s ← get_store;
  match meta_blob s with
  | Some m => mret m
  | None => raise KeyError
  end.

Definition set_tensor_meta (m : TensorMeta.t) : M unit :=
  modify (λ s, with_meta s m).

Definition set_chunk_id_encoder (e : ChunkIdEncoder.t) : M unit :=
  modify (λ s, with_index s e).

Definition max_chunk_size : M Z :=
  (* no chunks may exceed this *)
  m ← tensor_meta;
  mret (match TensorMeta.max_chunk_size m with
        | Some size => if size =? 0 then DEFAULT_MAX_CHUNK_SIZE else size
        | None => DEFAULT_MAX_CHUNK_SIZE
        end).

Definition min_chunk_size : M Z :=
  (* only the last chunk may be less than this *)
  size ← max_chunk_size;
  mret (size `div` 2).

Definition chunk_id_encoder_exists : M bool :=
  s ← get_store;
  mret (match chunks_index s with Some _ => true | None => false end).

(** Gets the chunk id encoder from cache, if one is not found it creates a
    blank encoder. *)
Definition chunk_id_encoder : M ChunkIdEncoder.t :=
  found ← chunk_id_encoder_exists;
  if negb found then
    m ← tensor_meta;
    (* 1 because we always update the meta information before writing the
       samples *)
    if bool_decide (1 < TensorMeta.length m)%nat then raise CorruptedMetaError
    else
      let enc := ChunkIdEncoder.blank in
      set_chunk_id_encoder enc ;;
      mret enc
  else
    s ← get_store;
    match chunks_index s with
    | Some enc => mret enc
    | None => raise KeyError
    end.

Definition num_chunks : M nat :=
  found ← chunk_id_encoder_exists;
  if negb found then mret 0%nat
  else enc ← chunk_id_encoder; mret (ChunkIdEncoder.num_chunks enc).

Definition num_samples : M nat :=
  found ← chunk_id_encoder_exists;
  if negb found then mret 0%nat
  else enc ← chunk_id_encoder; mret (ChunkIdEncoder.num_samples enc).

Definition get_chunk (chunk_key : string) : M chunk_ref :=
  get_cachable_chunk chunk_key.

Definition last_chunk_key : M string :=
  enc ← chunk_id_encoder;
  last_chunk_name ← lift (ChunkIdEncoder.get_name_for_chunk enc (-1));
  mret (get_chunk_key key last_chunk_name).

Definition last_chunk : M (option chunk_ref) :=
  n ← num_chunks;
  if bool_decide (n = 0%nat) then mret None
  else
    chunk_key ← last_chunk_key;
    chunk ← get_chunk chunk_key;
    mret (Some chunk).

(** [chunk.append_sample(buffer, max_data_bytes, shape)] on the object
    behind [chunk]. *)
Definition chunk_append_sample (chunk : chunk_ref) (buffer : memoryview)
    (max_data_bytes : Z) (shape : shape_t) : M unit :=
  c ← deref chunk;
  c' ← lift (Chunk.append_sample c buffer max_data_bytes shape);
  set_chunk chunk c'.

(** [chunk.update_sample(local_sample_index, buffer, shape)] on the object
    behind [chunk]. *)
Definition chunk_update_sample (chunk : chunk_ref) (local_sample_index : nat)
    (buffer : memoryview) (shape : shape_t) : M unit :=
  c ← deref chunk;
  c' ← lift (Chunk.update_sample c local_sample_index buffer shape);
  set_chunk chunk c'.

(** Synchronizes cachables with the cache. *)
Definition _synchronize_cache (chunk_keys : option (list string)) : M unit :=
  (* synchronize chunks *)
  chunk_keys ← match chunk_keys with
               | None => k ← last_chunk_key; mret [k]
               | Some ks => mret ks
               end;
  for_each chunk_keys (λ chunk_key,
    chunk ← get_chunk chunk_key;
    c ← deref chunk;
    (* [update_used_cache_for_path(chunk_key, chunk.nbytes)]: the cache's
       own accounting *)
    mret tt) ;;
  (* synchronize tensor meta *)
  m ← tensor_meta;
  set_tensor_meta m ;;
  (* synchronize chunk ID encoder *)
  enc ← chunk_id_encoder;
  set_chunk_id_encoder enc.

(** Creates and returns a new [Chunk].  Automatically creates an ID for it
    and puts a reference in the cache. *)
Definition _create_new_chunk : M chunk_ref :=
  enc ← chunk_id_encoder;
  s ← get_store;
  let chunk_id := uuid4 (uuid_calls s) in
  modify with_uuid_call ;;
  set_chunk_id_encoder (ChunkIdEncoder.generate_chunk_id enc chunk_id) ;;
  let chunk := Chunk.new in
  let chunk_name := ChunkIdEncoder.name_from_id chunk_id in
  let chunk_key := get_chunk_key key chunk_name in
  set_chunk chunk_key chunk ;;
  mret chunk_key.

(** Will store [buffer] inside of the last chunk if it can.  Returns
    [true] if [buffer] was written to the last chunk, otherwise [false]. *)
Definition _try_appending_to_last_chunk (buffer : memoryview)
    (shape : shape_t) : M bool :=
  last_chunk ← last_chunk;
  match last_chunk with
  | None => mret false
  | Some last_chunk =>
      let incoming_num_bytes := len buffer in
      min_size ← min_chunk_size;
      c ← deref last_chunk;
      if Chunk.is_under_min_space c min_size then
        let last_chunk_size := Chunk.num_data_bytes c in
        max_size ← max_chunk_size;
        let chunk_ct_content :=
          _min_chunk_ct_for_data_size max_size incoming_num_bytes in
        max_size' ← max_chunk_size;
        let extra_bytes :=
          Z.min incoming_num_bytes (max_size' - last_chunk_size) in
        max_size'' ← max_chunk_size;
        let combined_chunk_ct :=
          _min_chunk_ct_for_data_size max_size''
            (incoming_num_bytes + last_chunk_size) in
        (* combine if count is same *)
        if combined_chunk_ct =? chunk_ct_content then
          max_size''' ← max_chunk_size;
          chunk_append_sample last_chunk
            (slice buffer 0 (Z.to_nat extra_bytes)) max_size''' shape ;;
          mret true
        else mret false
      else mret false
  end.

(** Will create a new chunk and store [buffer] inside of it. *)
Definition _append_to_new_chunk (buffer : memoryview) (shape : shape_t)
    : M unit :=
  new_chunk ← _create_new_chunk;
  max_size ← max_chunk_size;
  chunk_append_sample new_chunk buffer max_size shape.

(** [self.chunk_id_encoder.register_samples(num_samples)] *)
Definition chunk_id_encoder_register_samples (n : nat) : M unit :=
  enc ← chunk_id_encoder;
  enc' ← lift (ChunkIdEncoder.register_samples enc n);
  set_chunk_id_encoder enc'.

(** Treat [buffer] as a single sample and place it into a chunk. *)
Definition _append_bytes (buffer : memoryview) (shape : shape_t) : M unit :=
  (* num samples is always 1 when appending *)
  let num_samples := 1%nat in
  buffer_consumed ← _try_appending_to_last_chunk buffer shape;
  (if negb buffer_consumed then _append_to_new_chunk buffer shape
   else mret tt) ;;
  chunk_id_encoder_register_samples num_samples ;;
  _synchronize_cache None.

(** Modelled from the spec: [ffw_chunk_id_encoder]
    ([hub/core/fast_forwarding.py]) is not among the sources; an encoder
    of the current version needs no forwarding. *)
Definition ffw_chunk_id_encoder (enc : ChunkIdEncoder.t) : M unit := mret tt.

(** The body of [extend]'s loop, for one serialized sample. *)
Definition extend_body (sample : serialized) : M unit :=
  let '(buffer, shape) := sample in
  (* update tensor meta length first because erroneous meta information
     is better than un-accounted for data. *)
  m ← tensor_meta;
  m' ← lift (TensorMeta.update_shape_interval m shape);
  set_tensor_meta m' ;;
  m ← tensor_meta;
  set_tensor_meta (TensorMeta.incr_length m) ;;
  _append_bytes buffer shape.

(** Feeds a batch of samples into [_append_bytes].  [samples_dtype] is
    [get_dtype(samples)] and [samples] is what [serialize_input_samples]
    yields for the batch.  [get_dtype] ([hub/util/casting.py], not among
    the sources) is only called while the tensor has no dtype; it raises
    on a batch it finds no dtype for, such as an empty list, and on such a
    call [extend] raises with it: the model is of the calls on which
    [get_dtype] has a value or is not called. *)
Definition extend (samples_dtype : np.dtype) (samples : list serialized)
    : M unit :=
  check_readonly ;;
  enc ← chunk_id_encoder;
  ffw_chunk_id_encoder enc ;;
  m ← tensor_meta;
  (if TensorMeta.dtype m is None
   then set_tensor_meta (TensorMeta.set_dtype m samples_dtype)
   else mret tt) ;;
  _ ← min_chunk_size;
  for_each samples extend_body ;;
  maybe_flush.

(** Feeds a single sample into [_append_bytes]. *)
Definition append (sample_dtype : np.dtype) (sample : serialized) : M unit :=
  extend sample_dtype [sample].

(** Retrieves the [Chunk] object corresponding to [global_sample_index]. *)
Definition get_chunk_for_sample (global_sample_index : nat)
    (enc : ChunkIdEncoder.t) : M chunk_ref :=
  chunk_id ← lift (ChunkIdEncoder.getitem enc global_sample_index);
  let chunk_name := ChunkIdEncoder.name_from_id chunk_id in
  let chunk_key := get_chunk_key key chunk_name in
  chunk ← get_cachable_chunk chunk_key;
  (* [chunk.key = chunk_key]: the reference is that key *)
  mret chunk.

(** The local variables [_update_sample] carries through its loop. *)
Record update_locals : Type := mk_update_locals {
  updated_chunks : gset chunk_ref;
  chunks_nbytes_after_updates : list Z
}.

(** The body of [_update_sample]'s loop, for the [i]-th serialized
    sample. *)
Definition _update_sample_body (global_sample_indices : list nat)
    (enc : ChunkIdEncoder.t) (locals : update_locals)
    (item : nat * serialized) : M update_locals :=
  let '(i, (buffer, shape)) := item in
  match global_sample_indices !! i with
  | None => raise IndexError
  | Some global_sample_index =>
      chunk ← get_chunk_for_sample global_sample_index enc;
      local_sample_index ←
        lift (ChunkIdEncoder.translate_index_relative_to_chunks enc
                global_sample_index);
      m ← tensor_meta;
      m' ← lift (TensorMeta.update_shape_interval m shape);
      set_tensor_meta m' ;;
      chunk_update_sample chunk local_sample_index buffer shape ;;
      let updated := {[chunk]} ∪ updated_chunks locals in
      (* only care about deltas if it isn't the last chunk *)
      last_key ← last_chunk_key;
      if bool_decide (chunk ≠ last_key) then
        c ← deref chunk;
        mret (mk_update_locals updated
                (chunks_nbytes_after_updates locals ++ [Chunk.nbytes c]))
      else
        mret (mk_update_locals updated (chunks_nbytes_after_updates locals))
  end.

Definition _update_sample (index : Index.t) (samples : samples_arg)
    : M unit :=
  m ← tensor_meta;
  enc ← chunk_id_encoder;
  n ← num_samples;
  let index_length := Index.length index n in
  samples ← lift (_make_sequence samples index_length);
  _ ← min_chunk_size;
  let serialized_input_samples := samples in
  n ← num_samples;
  let global_sample_indices := Index.indices index n in
  locals ← for_fold (imap (λ i x, (i, x)) serialized_input_samples)
    (mk_update_locals ∅ [])
    (_update_sample_body global_sample_indices enc);
  for_each (elements (updated_chunks locals)) (λ chunk,
    c ← deref chunk;
    set_chunk chunk c) ;;
  _synchronize_cache (Some []) ;;
  maybe_flush ;;
  min_size ← min_chunk_size;
  max_size ← max_chunk_size;
  _warn_if_suboptimal_chunks (chunks_nbytes_after_updates locals)
                             min_size max_size.

(** [has_shape] is [hasattr(samples, "shape")]. *)
Definition _update_sample_subslice (index : Index.t) (samples : samples_arg)
    : M unit :=
  let has_shape :=
    match samples with
    | Sequence (Some _) _ _ | Single (Some _) _ | Unsized _ => true
    | _ => false
    end in
  if negb has_shape then raise UpdateSampleError
  else raise NotImplementedError.

(** Update data at [index] with [samples]. *)
Definition update (index : Index.t) (samples : samples_arg) : M unit :=
  check_readonly ;;
  enc ← chunk_id_encoder;
  ffw_chunk_id_encoder enc ;;
  if Index.is_single_dim_effective index then _update_sample index samples
  else _update_sample_subslice index samples.

(** Read a sample from a chunk, converts the global index into a local
    index.  Handles decompressing if applicable. *)
Definition read_sample_from_chunk (global_sample_index : nat)
    (chunk : chunk_ref) (cast : bool) : M np.ndarray :=
  m ← tensor_meta;
  let expect_compressed :=
    match TensorMeta.sample_compression m with
    | Some _ => true
    | None => false
    end in
  m ← tensor_meta;
  let dtype := TensorMeta.dtype m in
  enc ← chunk_id_encoder;
  c ← deref chunk;
  let buffer := Chunk.memoryview_data c in
  local_sample_index ←
    lift (ChunkIdEncoder.translate_index_relative_to_chunks enc
            global_sample_index);
  shape ← match Chunk.shapes_encoder c !! local_sample_index with
          | Some shape => mret shape
          | None => raise IndexError
          end;
  '(sb, eb) ← match Chunk.byte_positions_encoder c !! local_sample_index with
              | Some range => mret range
              | None => raise IndexError
              end;
  let buffer := slice buffer sb eb in
  if len buffer =? 0 then mret (np.zeros shape dtype)
  else if expect_compressed then
    let sample := decompress_array buffer shape in
    m ← tensor_meta;
    if cast && bool_decide (Some (np.dtype_of sample) ≠ TensorMeta.dtype m)
    then
      m ← tensor_meta;
      mret (astype sample (TensorMeta.dtype m))
    else mret sample
  else lift (np.frombuffer_reshape buffer dtype shape).

(** The local variables [numpy] carries through its loop. *)
Record numpy_locals : Type := mk_numpy_locals {
  last_shape : option shape_t;
  samples_read : list np.ndarray
}.

(** The body of [numpy]'s loop, for one global sample index. *)
Definition numpy_body (enc : ChunkIdEncoder.t) (aslist : bool)
    (locals : numpy_locals) (global_sample_index : nat) : M numpy_locals :=
  chunk ← get_chunk_for_sample global_sample_index enc;
  sample ← read_sample_from_chunk global_sample_index chunk true;
  let shape := np.shape sample in
  if negb aslist
     && match last_shape locals with
        | Some last => bool_decide (shape ≠ last)
        | None => false
        end
  then raise DynamicTensorNumpyError
  else mret (mk_numpy_locals (Some shape) (samples_read locals ++ [sample])).

(** Reads samples from chunks and returns as a numpy array.  If
    [aslist], returns a sequence of numpy arrays. *)
Definition numpy (index : Index.t) (aslist : bool) : M numpy_result :=
  length ← num_samples;
  enc ← chunk_id_encoder;
  locals ← for_fold (Index.indices index length) (mk_numpy_locals None [])
    (numpy_body enc aslist);
  lift (_format_read_samples (samples_read locals) index aslist).

(** The [while] loop of [get_chunk_names]; [fuel] bounds the number of
    iterations. *)
Fixpoint get_chunk_names_loop (fuel : nat) (chunk_names : gset string)
    (sample_index last_index target_chunk_count : nat) : M (gset string) :=
  match fuel with
  | O => mret chunk_names
  | S fuel' =>
      if bool_decide (size chunk_names < target_chunk_count)%nat
         && bool_decide (sample_index < last_index)%nat
      then
        enc ← chunk_id_encoder;
        chunk_id ← lift (ChunkIdEncoder.getitem enc sample_index);
        _ ← chunk_id_encoder;
        let chunk := ChunkIdEncoder.name_from_id chunk_id in
        get_chunk_names_loop fuel' ({[chunk]} ∪ chunk_names)
          (S sample_index) last_index target_chunk_count
      else mret chunk_names
  end.

(** Fetches a set of chunk names in which data starting from
    [sample_index] is contained.  Every iteration moves [sample_index]
    one step towards [last_index], so [last_index - sample_index]
    iterations are enough. *)
Definition get_chunk_names (sample_index last_index target_chunk_count : nat)
    : M (gset string) :=
  get_chunk_names_loop (last_index - sample_index) ∅
    sample_index last_index target_chunk_count.

(** Check if tensor meta length and chunk ID encoder are representing the
    same number of samples. *)
Definition validate_num_samples_is_synchronized : M unit :=
  m ← tensor_meta;
  let tensor_meta_length := TensorMeta.length m in
  (* compare chunk ID encoder and tensor meta *)
  found ← chunk_id_encoder_exists;
  chunk_id_num_samples ←
    (if found : bool
     then enc ← chunk_id_encoder; mret (ChunkIdEncoder.num_samples enc)
     else mret 0%nat) : M nat;
  if bool_decide (tensor_meta_length ≠ chunk_id_num_samples)
  then raise CorruptedMetaError
  else mret tt.

End ChunkEngine.

(** ** The tensor ([hub/api/tensor.py]) *)

Module Tensor.

(** A view of the tensor [key] through [index]; [_sample] is set on the
    tensors an iteration yields. *)
Record t : Type := mk {
  key : string;
  index : Index.t;
  _sample : option (N * nat)
}.

Section Methods.

Context `{Externals}.

(** Extends the end of the tensor by appending multiple elements from a
    sequence. *)
Definition extend (self : t) (samples_dtype : np.dtype)
    (samples : list serialized) : M t :=
  extend (key self) samples_dtype samples ;;
  mret (mk (key self) (index self) None).

(** Appends a single sample to the end of the tensor. *)
Definition append (self : t) (sample_dtype : np.dtype) (sample : serialized)
    : M t :=
  extend self sample_dtype [sample].

(** Returns the length of the primary axis of the tensor.  Accounts for
    indexing into the tensor object. *)
Definition __len__ (self : t) : M nat :=
  n ← num_samples;
  mret (Index.length (index self) n).

End Methods.

End Tensor.

(** ** [is_uniform_sequence] *)

(** A sample value as [is_uniform_sequence] looks at it: the name of its
    type, whether it is a numpy array, whether it is a [Sample] object,
    and its [shape] attribute. *)
Record sample_value : Type := mk_sample_value {
  type_of : string;
  is_ndarray : bool;
  is_Sample : bool;
  shape_of : shape_t
}.

(** Determines if a sequence of samples has uniform type and shape,
    allowing it to be vectorized by [ChunkEngine.extend]. *)
Definition is_uniform_sequence (samples : list sample_value) : bool :=
  if bool_decide
       (size (list_to_set (type_of <$> samples) : gset string) ≠ 1%nat)
  then
    (* Cannot vectorize sequence with inconsistent types *)
    false
  else if existsb is_ndarray samples then
    (* Numpy arrays will only be vectorized if they have the same shape *)
    bool_decide
      (size (list_to_set (shape_of <$> samples) : gset shape_t) = 1%nat)
  else if existsb is_Sample samples then
    (* Sample objects will not be vectorized *)
    false
  else
    (* Scalar samples can be vectorized *)
    true.

(** ** The PyTorch integration ([hub/integrations/pytorch/pytorch.py]) *)

Module pytorch.

(** [s.replace(old, new)] for a non-empty [old]: the occurrences of [old]
    are replaced from left to right, without overlap; [skip] counts the
    characters of an occurrence still to pass over. *)
Fixpoint replace_from (old new : string) (skip : nat) (s : string) : string :=
  match s with
  | EmptyString => EmptyString
  | String c rest =>
      match skip with
      | S skip' => replace_from old new skip' rest
      | O =>
          if String.prefix old s
          then new +:+ replace_from old new (String.length old - 1) rest
          else String c (replace_from old new 0 rest)
      end
  end.

Definition replace (s old new : string) : string := replace_from old new 0 s.

Section LocalStorage.

(** [LOCAL_CACHE_PREFIX] of [hub/constants.py], which is not among the
    sources. *)
Variable LOCAL_CACHE_PREFIX : string.

(** The root of the [LocalProvider] that [get_pytorch_local_storage]
    returns for the dataset at [dataset_path]. *)
Definition get_pytorch_local_storage (dataset_path : string) : string :=
  let local_cache_name := dataset_path +:+ "_pytorch" in
  let local_cache_name := replace local_cache_name "://" "_" in
  let local_cache_name := replace local_cache_name "/" "_" in
  let local_cache_name := replace local_cache_name "\" "_" in
  let local_cache_path := LOCAL_CACHE_PREFIX +:+ "/" +:+ local_cache_name in
  local_cache_path.

End LocalStorage.

End pytorch.

(** * The tensor a store represents

    The definitions below are the specification side: the list of samples a
    store stands for, chunk by chunk, and the contents a sequence of
    [extend] and [update] calls is expected to leave. *)

Section Abstraction.

Context `{Externals}.
Variable key : string.

Definition chunk_key_of (id : N) : string :=
  get_chunk_key key (ChunkIdEncoder.name_from_id id).

(** The value of the [max_chunk_size] property for a given tensor meta. *)
Definition max_size_of (m : TensorMeta.t) : Z :=
  match TensorMeta.max_chunk_size m with
  | Some size => if size =? 0 then DEFAULT_MAX_CHUNK_SIZE else size
  | None => DEFAULT_MAX_CHUNK_SIZE
  end.

(** Byte ranges of samples laid end to end from [start]. *)
Fixpoint byte_positions_from (samples : list serialized) (start : nat)
    : list (nat * nat) :=
  match samples with
  | [] => []
  | x :: rest =>
      (start, (start + length x.1)%nat)
        :: byte_positions_from rest (start + length x.1)
  end.

Definition data_of (samples : list serialized) : memoryview :=
  concat (fst <$> samples).

(** The chunk that holds exactly [samples], in order. *)
Definition chunk_of (samples : list serialized) : Chunk.t :=
  Chunk.mk (data_of samples) (snd <$> samples) (byte_positions_from samples 0).

(** The encoder table for chunks [groups], the first of which got the
    [u]-th random id and starts at global index [first]. *)
Fixpoint table_from (u : nat) (groups : list (list serialized)) (first : nat)
    : list (N * nat) :=
  match groups with
  | [] => []
  | g :: rest =>
      (uuid4 u, (first + length g - 1)%nat)
        :: table_from (S u) rest (first + length g)
  end.

(** [Rep s u0 groups]: the store [s] holds the chunks [groups], created
    with the random ids from the [u0]-th on. *)
Record Rep (s : store) (u0 : nat) (groups : list (list serialized)) : Prop :=
  mk_Rep {
    rep_index :
      match chunks_index s with
      | Some enc => enc = ChunkIdEncoder.mk (table_from u0 groups 0) None
      | None => groups = []
      end;
    rep_chunks : ∀ i g,
      groups !! i = Some g →
      chunks s !! chunk_key_of (uuid4 (u0 + i)) = Some (chunk_of g);
    rep_uuid : uuid_calls s = (u0 + length groups)%nat;
    rep_nonempty : Forall (λ g, g ≠ []) groups
  }.

(** The chunk keys of the [n] random ids from the [u0]-th on are pairwise
    distinct. *)
Definition distinct_keys (u0 n : nat) : Prop :=
  NoDup ((λ i, chunk_key_of (uuid4 i)) <$> seq u0 n).

(** Whether the placement rule merges a buffer into the last chunk. *)
Definition merges (max_size : Z) (groups : list (list serialized))
    (buffer : memoryview) : bool :=
  match last groups with
  | Some g =>
      let s := len (data_of g) in
      let b := len buffer in
      (s <? max_size `div` 2)
      && (_min_chunk_ct_for_data_size max_size (b + s)
          =? _min_chunk_ct_for_data_size max_size b)
  | None => false
  end.

(** The part of a buffer that a merge writes: [buffer[:extra_bytes]]. *)
Definition merged_part (max_size : Z) (g : list serialized)
    (buffer : memoryview) : memoryview :=
  slice buffer 0 (Z.to_nat (Z.min (len buffer) (max_size - len (data_of g)))).

(** Where the placement rule puts one more sample. *)
Definition place (max_size : Z) (groups : list (list serialized))
    (x : serialized) : list (list serialized) :=
  match last groups with
  | Some g =>
      if merges max_size groups x.1
      then <[pred (length groups) := g ++ [(merged_part max_size g x.1, x.2)]]>
             groups
      else groups ++ [[x]]
  | None => groups ++ [[x]]
  end.

(** What a method leaves alone. *)
Record Frame (s s' : store) : Prop := mk_Frame {
  frame_read_only : read_only s' = read_only s;
  frame_meta : meta_blob s' = meta_blob s;
  frame_warnings : warnings s' = warnings s
}.

(** The tensor meta once [extend] has settled the dtype. *)
Definition meta_with_dtype (m : TensorMeta.t) (samples_dtype : np.dtype)
    : TensorMeta.t :=
  if TensorMeta.dtype m is None then TensorMeta.set_dtype m samples_dtype
  else m.

(** The tensor meta after a batch has gone through [extend]'s loop. *)
Fixpoint meta_after (m : TensorMeta.t) (samples : list serialized)
    : outcome TensorMeta.t :=
  match samples with
  | [] => Ok m
  | x :: rest =>
      match TensorMeta.update_shape_interval m x.2 with
      | Ok m' => meta_after (TensorMeta.incr_length m') rest
      | Raise e => Raise e
      end
  end.

(** The chunk and the local index of global sample [g]. *)
Fixpoint locate (groups : list (list serialized)) (g : nat)
    : option (nat * nat) :=
  match groups with
  | [] => None
  | l :: rest =>
      if bool_decide (g < length l)%nat then Some (0%nat, g)
      else (λ p : nat * nat, (S p.1, p.2)) <$> locate rest (g - length l)
  end.

(** Replace global sample [g], keeping the chunk boundaries. *)
Definition replace_sample (groups : list (list serialized)) (g : nat)
    (x : serialized) : list (list serialized) :=
  match locate groups g with
  | Some (i, j) =>
      match groups !! i with
      | Some l => <[i := <[j := x]> l]> groups
      | None => groups
      end
  | None => groups
  end.

(** The chunk sizes an update batch looks at: after each sample is
    rewritten, the size of its chunk at that moment, unless that chunk is
    the last one. *)
Fixpoint nbytes_trace (groups : list (list serialized))
    (updates : list (nat * serialized)) : list Z :=
  match updates with
  | [] => []
  | (g, x) :: rest =>
      let groups' := replace_sample groups g x in
      match locate groups g with
      | Some (i, _) =>
          if bool_decide (i ≠ pred (length groups)) then
            match groups' !! i with
            | Some l => [Chunk.nbytes (chunk_of l)]
            | None => []
            end
          else []
      | None => []
      end ++ nbytes_trace groups' rest
  end.

(** A chunk size outside
    [[min_chunk_size * (1 - 0.2), max_chunk_size * (1 + 0.2)]]. *)
Definition suboptimal (min_size max_size nbytes : Z) : bool :=
  Qlt_bool (inject_Z max_size * (1 + CHUNK_UPDATE_WARN_PORTION))%Q
           (inject_Z nbytes)
  || Qlt_bool (inject_Z nbytes)
              (inject_Z min_size * (1 - CHUNK_UPDATE_WARN_PORTION))%Q.

(** Two tensor metas that differ at most in the shape interval. *)
Definition same_tensor (m m' : TensorMeta.t) : Prop :=
  TensorMeta.dtype m' = TensorMeta.dtype m
  ∧ TensorMeta.sample_compression m' = TensorMeta.sample_compression m
  ∧ TensorMeta.max_chunk_size m' = TensorMeta.max_chunk_size m
  ∧ TensorMeta.length m' = TensorMeta.length m.

(** The samples an update batch rewrites, in order. *)
Definition replace_samples (groups : list (list serialized))
    (updates : list (nat * serialized)) : list (list serialized) :=
  foldl (λ gs p, replace_sample gs p.1 p.2) groups updates.

(** The mutating calls of the engine. *)
Inductive op : Type :=
  | Extend (samples_dtype : np.dtype) (samples : list serialized)
  | Update (index : Index.t) (samples : samples_arg).

Definition run_op (o : op) : M unit :=
  match o with
  | Extend samples_dtype samples => extend key samples_dtype samples
  | Update index samples => update key index samples
  end.

Definition run_ops (ops : list op) : M unit := for_each ops run_op.

(** The tensor dtype: the first [extend] settles it unless the tensor was
    created with one, and nothing changes it afterwards. *)
Definition dtype_step (d : option np.dtype) (o : op) : option np.dtype :=
  match d, o with
  | None, Extend samples_dtype _ => Some samples_dtype
  | _, _ => d
  end.

Definition dtype_after (d : option np.dtype) (ops : list op)
    : option np.dtype :=
  foldl dtype_step d ops.

(** What the tensor is expected to hold after one call: [extend] adds its
    samples at the end, [update] overwrites the addressed positions, in
    order, and leaves every other position alone. *)
Definition contents_step (contents : list serialized) (o : op)
    : list serialized :=
  match o with
  | Extend _ samples => contents ++ samples
  | Update index samples =>
      let n := length contents in
      match _make_sequence samples (Index.length index n) with
      | Ok new =>
          foldl (λ c gx, <[gx.1 := gx.2]> c) contents
                (zip (Index.indices index n) new)
      | Raise _ => contents
      end
  end.

Definition contents_after (ops : list op) : list serialized :=
  foldl contents_step [] ops.

(** The samples an [extend] call may carry: no buffer longer than the
    maximum chunk size (the codec rejects those). *)
Definition buffers_fit (max_size : Z) (o : op) : bool :=
  match o with
  | Extend _ samples => forallb (λ x : serialized, len x.1 <=? max_size) samples
  | Update _ _ => true
  end.

(** Number of chunks a sequence of calls can create at most. *)
Definition appended (ops : list op) : nat :=
  sum_list ((λ o, match o with
                  | Extend _ samples => length samples
                  | Update _ _ => 0%nat
                  end) <$> ops).

(** The array [read_sample_from_chunk] makes of the bytes and the shape
    recorded for one sample. *)
Definition array_of_sample (m : TensorMeta.t) (cast : bool) (x : serialized)
    : outcome np.ndarray :=
  if len x.1 =? 0 then Ok (np.zeros x.2 (TensorMeta.dtype m))
  else
    match TensorMeta.sample_compression m with
    | Some _ =>
        let sample := decompress_array x.1 x.2 in
        Ok (if cast && bool_decide (Some (np.dtype_of sample) ≠ TensorMeta.dtype m)
            then astype sample (TensorMeta.dtype m)
            else sample)
    | None => np.frombuffer_reshape x.1 (TensorMeta.dtype m) x.2
    end.

(** Whether consecutive shapes agree, starting from the shape seen last:
    the test [numpy] makes sample by sample. *)
Fixpoint uniform_from (last : option shape_t) (shapes : list shape_t) : bool :=
  match shapes with
  | [] => true
  | shape :: rest =>
      match last with
      | Some l => bool_decide (shape = l)
      | None => true
      end && uniform_from (Some shape) rest
  end.

(** The samples do not all share one shape. *)
Definition dynamic (shapes : list shape_t) : Prop :=
  ∃ i j x y, shapes !! i = Some x ∧ shapes !! j = Some y ∧ x ≠ y.

(** The name of the chunk that holds global sample [g]. *)
Definition chunk_name_at (enc : ChunkIdEncoder.t) (g : nat) : string :=
  match ChunkIdEncoder.getitem enc g with
  | Ok id => ChunkIdEncoder.name_from_id id
  | Raise _ => ""
  end.

(** The names of the chunks that hold the [k] samples from [start] on. *)
Definition chunk_names_of (enc : ChunkIdEncoder.t) (start k : nat)
    : gset string :=
  list_to_set (chunk_name_at enc <$> seq start k).

(** The samples a chunk holds, as its two encoders and its data give
    them. *)
Definition samples_of_chunk (c : Chunk.t) : list serialized :=
  zip_with (λ (range : nat * nat) (shape : shape_t),
              (slice (Chunk.data c) range.1 range.2, shape))
           (Chunk.byte_positions_encoder c) (Chunk.shapes_encoder c).

(** The chunks of a store, in the order of the encoder's rows, each as the
    list of samples it holds. *)
Definition groups_of (s : store) : list (list serialized) :=
  match chunks_index s with
  | Some enc =>
      omap (λ row : N * nat,
              samples_of_chunk <$> chunks s !! chunk_key_of row.1)
           (ChunkIdEncoder.rows enc)
  | None => []
  end.

(** Per chunk: how many samples it holds and how many data bytes. *)
Definition layout (s : store) : list (nat * Z) :=
  (λ g, (length g, len (data_of g))) <$> groups_of s.

(** The array a serialized sample stands for: without compression the
    buffer holds the elements; with compression the codec decodes them and
    the array is cast to the dtype of the tensor. *)
Definition original_array (compression : option string)
    (d : option np.dtype) (x : serialized) : np.ndarray :=
  match compression with
  | None => np.mk_ndarray x.2 (np.dtype_or_default d) x.1
  | Some _ =>
      if bool_decide (x.1 = []) then np.zeros x.2 d
      else
        let a := decompress_array x.1 x.2 in
        if bool_decide (Some (np.dtype_of a) ≠ d) then astype a d else a
  end.

(** What the codec promises of a sample it serializes without
    compression: the buffer holds exactly the elements of the shape. *)
Definition well_formed (compression : option string) (d : option np.dtype)
    (x : serialized) : Prop :=
  compression = None →
  len x.1 = np.size_of_shape x.2 * np.itemsize (np.dtype_or_default d).

(** Global sample index, chunk reference and read in one step: what
    reading sample [g] amounts to. *)
Definition read (g : nat) : M np.ndarray :=
  enc ← chunk_id_encoder;
  chunk ← get_chunk_for_sample key g enc;
  read_sample_from_chunk g chunk true.

(** [History s0 m0 ops s]: the store [s] is what the calls [ops], all
    successful, have made of the new tensor [s0] with meta [m0], whose
    encoder has yet to be created.  The codec has kept every appended
    buffer within the maximum chunk size and the random source has given
    every new chunk a key of its own. *)
Record History (s0 : store) (m0 : TensorMeta.t) (ops : list op) (s : store)
    : Prop := mk_History {
  history_new : chunks_index s0 = None;
  history_meta : meta_blob s0 = Some m0;
  history_keys : distinct_keys (uuid_calls s0) (appended ops);
  history_fit : forallb (buffers_fit (max_size_of m0)) ops = true;
  history_run : run_ops ops s0 = (Ok tt, s)
}.

End Abstraction.

(** * The scenarios *)

(** The number of runs of equal consecutive entries. *)
Fixpoint runs {A : Type} `{EqDecision A} (l : list A) : nat :=
  match l with
  | [] => 0
  | x :: rest =>
      match rest with
      | [] => 1
      | y :: _ => (if decide (x = y) then 0 else 1) + runs rest
      end
  end.

(** The header of a stored chunk in the layout of version 2.0: the version
    (1 + 5 bytes), the dimensions of the two encoder tables (8 + 4 bytes)
    and the tables, 4 bytes an entry: the shape table has a row of the
    shape and a last index for every run of samples of one shape, the byte
    positions table a row of three entries for every run of samples of one
    size. *)
Definition stored_header_nbytes (shapes : list shape_t)
    (byte_positions : list (nat * nat)) : Z :=
  13 + 5
  + 4 * (Z.of_nat (runs shapes) * (len (hd [] shapes) + 1))
  + 4 * (Z.of_nat (runs ((λ p : nat * nat, (p.2 - p.1)%nat)
                           <$> byte_positions)) * 3).

(** A reference environment: the random source hands out 0, 1, 2, ...; the
    codec stores arrays of [uint8] as they are; a chunk's header is the
    stored one. *)
Definition reference : Externals := {|
  uuid4 := N.of_nat;
  decompress_array := λ buffer shape, np.mk_ndarray shape np.uint8 buffer;
  astype := λ a d, np.mk_ndarray (np.shape a) (np.dtype_or_default d) (np.tobytes a);
  header_nbytes := stored_header_nbytes
|}.

(** A tensor that has just been created: its meta is in the cache, nothing
    else. *)
Definition new_tensor (max_chunk_size : option Z) : store :=
  mk_store false (Some (TensorMeta.mk None 0 [] [] max_chunk_size None))
           None ∅ 0 [].

(** The cache after the chunk id encoder blob has been deleted from it. *)
Definition without_chunks_index (s : store) : store :=
  mk_store (read_only s) (meta_blob s) None (chunks s) (uuid_calls s)
           (warnings s).

(** An array of [n] bytes of [uint8], every element [value]. *)
Definition sample_of (value : byte) (n : Z) : memoryview * shape_t :=
  (repeat value (Z.to_nat n), [n]).

(** A sample of [n] MiB. *)
Definition MiB_sample (n : Z) : memoryview * shape_t := sample_of x00 (n * MB).

(** The scenario of the docstring of [ChunkEngine.__init__]. *)
Definition S1_first : list (memoryview * shape_t) :=
  [MiB_sample 1; MiB_sample 1; MiB_sample 14; MiB_sample 15; MiB_sample 15].

Definition S1_second : list (memoryview * shape_t) :=
  [MiB_sample 15; MiB_sample 1].

(** An index over the whole primary axis, [tensor[:]]. *)
Definition index_all : Index.t :=
  Index.mk (λ n, seq 0 n) true true (λ a, a).

(** An index that addresses the listed samples, [tensor[[i, j, ...]]]. *)
Definition index_list (indices : list nat) : Index.t :=
  Index.mk (λ _, indices) true true (λ a, a).

(** An index that addresses one sample, [tensor[i]]. *)
Definition index_int (i : nat) : Index.t :=
  Index.mk (λ _, [i]) true false (λ a, a).


(** A tensor of small chunks, for running the engine on: at most 32 bytes
    to a chunk, so [min_chunk_size] is 16. *)
Definition tensor32 : store := new_tensor (Some 32).

Definition meta32 : TensorMeta.t := TensorMeta.mk None 0 [] [] (Some 32) None.

(** Three samples of 8, 8 and 4 bytes: the first two fill a chunk up to
    [min_chunk_size], the third opens the next chunk. *)
Definition small_batch : list (memoryview * shape_t) :=
  [sample_of x01 8; sample_of x02 8; sample_of x03 4].

Definition small_history : list op := [Extend np.uint8 small_batch].

Definition small_store : store :=
  (run_ops (H := reference) "T" small_history tensor32).2.

(** A tensor of chunks of at most 4000 bytes, so [min_chunk_size] is 2000,
    and three samples of 1000, 1000 and 500 bytes: the first two fill a
    chunk up to [min_chunk_size], the third opens the next chunk. *)
Definition tensor4000 : store := new_tensor (Some 4000).

Definition meta4000 : TensorMeta.t :=
  TensorMeta.mk None 0 [] [] (Some 4000) None.

Definition thousand_batch : list (memoryview * shape_t) :=
  [sample_of x01 1000; sample_of x02 1000; sample_of x03 500].

Definition thousand_history : list op := [Extend np.uint8 thousand_batch].

Definition thousand_store : store :=
  (run_ops (H := reference) "T" thousand_history tensor4000).2.

(** An update of samples 0 and 1, both in the first chunk and neither
    longer than [min_chunk_size]: sample 0 shrinks to 100 bytes, then
    sample 1 grows to 1900 bytes. *)
Definition shrink_then_grow : samples_arg :=
  Sequence None (sample_of x04 2000) [sample_of x04 100; sample_of x05 1900].

(** A tensor of chunks of at most 2 bytes, and three samples of 1 byte:
    each sample gets a chunk of its own. *)
Definition tensor2 : store := new_tensor (Some 2).

Definition meta2 : TensorMeta.t := TensorMeta.mk None 0 [] [] (Some 2) None.

Definition one_per_chunk : list op :=
  [Extend np.uint8 [sample_of x01 1; sample_of x02 1; sample_of x03 1]].

Definition one_per_chunk_store : store :=
  (run_ops (H := reference) "T" one_per_chunk tensor2).2.

Definition one_per_chunk_encoder : ChunkIdEncoder.t :=
  default ChunkIdEncoder.blank (chunks_index one_per_chunk_store).

(** Scenario S2: two [float32] arrays of shapes [(10, 10)] and [(10, 15)]. *)
Definition dynamic_batch : list (memoryview * shape_t) :=
  [(repeat x00 400, [10; 10]); (repeat x00 600, [10; 15])].

Definition dynamic_history : list op := [Extend np.float32 dynamic_batch].

Definition default_tensor : store := new_tensor None.

Definition default_meta : TensorMeta.t := TensorMeta.mk None 0 [] [] None None.

Definition dynamic_store : store :=
  (run_ops (H := reference) "T" dynamic_history default_tensor).2.

(** Scenario S6: a tensor of five samples. *)
Definition five_samples : list op :=
  [Extend np.uint8 (small_batch ++ [sample_of x04 4; sample_of x05 4])].

Definition five_store : store :=
  (run_ops (H := reference) "T" five_samples tensor32).2.

Definition five_meta : TensorMeta.t := default meta32 (meta_blob five_store).

(** A new tensor on read-only storage. *)
Definition read_only_tensor : store :=
  mk_store true (Some meta32) None ∅ 0 [].

(** A method that only reads: on a cache that holds the chunk id encoder
    it leaves the cache as it is, whatever it returns or raises. *)
Definition reads_only {A : Type} (m : M A) : Prop :=
  ∀ s, is_Some (chunks_index s) → (m s).2 = s.

(** * Lemmas *)

(** Equalities between terms that differ in arithmetic subterms. *)
Ltac eq_lia := repeat first [done | lia | f_equal].

(** ** Running the monad *)

Lemma bind_ok {A B : Type} (m : M A) (f : A → M B) (s s' : store) (a : A) :
  m s = (Ok a, s') → (m ≫= f) s = f a s'.
Proof. intros E. unfold mbind, M_bind. by rewrite E. Qed.

Lemma bind_raise {A B : Type} (m : M A) (f : A → M B) (s s' : store) e :
  m s = (Raise e, s') → (m ≫= f) s = (Raise e, s').
Proof. intros E. unfold mbind, M_bind. by rewrite E. Qed.

Lemma bind_inv_ok {A B : Type} (m : M A) (f : A → M B) (s s'' : store) (b : B) :
  (m ≫= f) s = (Ok b, s'') →
  ∃ a s', m s = (Ok a, s') ∧ f a s' = (Ok b, s'').
Proof.
  unfold mbind, M_bind. destruct (m s) as [[a|e] s'] eqn:E; [eauto | discriminate].
Qed.

Lemma run_lift {A : Type} (o : outcome A) (s : store) : lift o s = (o, s).
Proof. done. Qed.

Lemma bind_lift_ok {A B : Type} (o : outcome A) (f : A → M B) (s : store) (a : A) :
  o = Ok a → (lift o ≫= f) s = f a s.
Proof. intros ->. done. Qed.

Lemma bind_lift_raise {A B : Type} (o : outcome A) (f : A → M B) (s : store) e :
  o = Raise e → (lift o ≫= f) s = (Raise e, s).
Proof. intros ->. done. Qed.

(** ** Byte counts *)

Lemma len_app {A : Type} (l k : list A) : len (l ++ k) = len l + len k.
Proof. unfold len. rewrite length_app. lia. Qed.

Lemma len_nonneg {A : Type} (l : list A) : 0 ≤ len l.
Proof. unfold len. lia. Qed.

Lemma slice_all {A : Type} (l : list A) (n : nat) :
  (length l ≤ n)%nat → slice l 0 n = l.
Proof.
  intros Hn. unfold slice. rewrite drop_0, Nat.sub_0_r. by apply take_ge.
Qed.

(** ** Chunks that hold a list of samples *)

Section ChunkOf.

Lemma data_of_app (l k : list serialized) :
  data_of (l ++ k) = data_of l ++ data_of k.
Proof. unfold data_of. by rewrite fmap_app, concat_app. Qed.

Lemma byte_positions_from_length (l : list serialized) (start : nat) :
  length (byte_positions_from l start) = length l.
Proof.
  revert start. induction l as [|x l IH]; intros start; simpl; [done|].
  by rewrite IH.
Qed.

Lemma byte_positions_from_app (l k : list serialized) (start : nat) :
  byte_positions_from (l ++ k) start
  = byte_positions_from l start
    ++ byte_positions_from k (start + length (data_of l)).
Proof.
  revert start. induction l as [|x l IH]; intros start; simpl.
  - by rewrite Nat.add_0_r.
  - rewrite IH. unfold data_of. simpl. rewrite length_app.
    by rewrite Nat.add_assoc.
Qed.

(** Appending to the chunk of [l] gives the chunk of [l] with one more
    sample, as long as the buffer fits. *)
Lemma append_sample_chunk_of (l : list serialized) (buffer : memoryview)
    (max_size : Z) (shape : shape_t) :
  len (data_of l) + len buffer ≤ max_size →
  Chunk.append_sample (chunk_of l) buffer max_size shape
  = Ok (chunk_of (l ++ [(buffer, shape)])).
Proof.
  intros Hfit. unfold Chunk.append_sample, Chunk.num_data_bytes. simpl.
  destruct (Z.ltb_spec max_size (len (data_of l) + len buffer)); [lia|].
  unfold chunk_of. f_equal. f_equal.
  - rewrite data_of_app. unfold data_of at 3. simpl. by rewrite app_nil_r.
  - by rewrite fmap_app.
  - rewrite byte_positions_from_app. simpl. done.
Qed.

Lemma append_sample_too_big (c : Chunk.t) (buffer : memoryview)
    (max_size : Z) (shape : shape_t) :
  max_size < Chunk.num_data_bytes c + len buffer →
  Chunk.append_sample c buffer max_size shape = Raise FullChunkError.
Proof.
  intros Hbig. unfold Chunk.append_sample.
  destruct (Z.ltb_spec max_size (Chunk.num_data_bytes c + len buffer)); [done|lia].
Qed.

(** The recorded byte range of sample [j] and what lies there. *)
Lemma byte_positions_from_lookup (l : list serialized) (start j : nat)
    (x : serialized) :
  l !! j = Some x →
  byte_positions_from l start !! j
  = Some ((start + length (data_of (take j l)))%nat,
          (start + length (data_of (take j l)) + length x.1)%nat).
Proof.
  revert start j. induction l as [|y l IH]; intros start j Hj; [done|].
  destruct j as [|j]; simpl in *.
  - injection Hj as ->. unfold data_of. simpl. by rewrite Nat.add_0_r.
  - rewrite (IH _ _ Hj). unfold data_of. simpl. rewrite length_app.
    by rewrite !Nat.add_assoc.
Qed.

Lemma data_of_split (l : list serialized) (j : nat) (x : serialized) :
  l !! j = Some x →
  data_of l = data_of (take j l) ++ x.1 ++ data_of (drop (S j) l).
Proof.
  intros Hj. rewrite <- (take_drop_middle l j x Hj) at 1.
  rewrite data_of_app. unfold data_of at 2. simpl. done.
Qed.

Lemma slice_data_of (l : list serialized) (j : nat) (x : serialized) :
  l !! j = Some x →
  slice (data_of l) (length (data_of (take j l)))
        (length (data_of (take j l)) + length x.1) = x.1.
Proof.
  intros Hj. unfold slice. rewrite (data_of_split l j x Hj).
  rewrite drop_app_length.
  replace (length (data_of (take j l)) + length x.1
           - length (data_of (take j l)))%nat with (length x.1) by lia.
  by rewrite take_app_length.
Qed.

Lemma shift_positions (l : list serialized) (start old new : nat) :
  (old ≤ start)%nat →
  (λ p : nat * nat, ((p.1 + new - old)%nat, (p.2 + new - old)%nat))
    <$> byte_positions_from l start
  = byte_positions_from l (start + new - old).
Proof.
  revert start. induction l as [|x l IH]; intros start Hle; simpl; [done|].
  f_equal.
  - f_equal. lia.
  - rewrite IH by lia. f_equal. lia.
Qed.

(** Updating sample [j] of the chunk of [l] gives the chunk of [l] with
    that sample replaced. *)
Lemma update_sample_chunk_of (l : list serialized) (j : nat)
    (buffer : memoryview) (shape : shape_t) :
  (j < length l)%nat →
  Chunk.update_sample (chunk_of l) j buffer shape
  = Ok (chunk_of (<[j := (buffer, shape)]> l)).
Proof.
  intros Hj. destruct (lookup_lt_is_Some_2 l j Hj) as [x Hx].
  unfold Chunk.update_sample. simpl.
  rewrite (byte_positions_from_lookup l 0 j x Hx). simpl.
  set (sb := length (data_of (take j l))).
  replace (sb + length x.1 - sb)%nat with (length x.1) by lia.
  unfold chunk_of. f_equal.
  assert (Hins : <[j := (buffer, shape)]> l
                 = take j l ++ (buffer, shape) :: drop (S j) l).
  { by rewrite insert_take_drop. }
  f_equal.
  - rewrite Hins, data_of_app. unfold data_of at 4. simpl.
    fold (data_of (drop (S j) l)).
    rewrite (data_of_split l j x Hx) at 1 2. subst sb.
    rewrite take_app_length.
    rewrite (app_assoc (data_of (take j l)) x.1).
    replace (length (data_of (take j l)) + length x.1)%nat
      with (length (data_of (take j l) ++ x.1))
      by (rewrite length_app; done).
    by rewrite drop_app_length.
  - by rewrite list_fmap_insert.
  - assert (Hbp : byte_positions_from l 0
                  = byte_positions_from (take j l) 0
                    ++ (sb, (sb + length x.1)%nat)
                       :: byte_positions_from (drop (S j) l) (sb + length x.1)).
    { rewrite <- (take_drop_middle l j x Hx) at 1.
      by rewrite byte_positions_from_app. }
    assert (Hlen : length (byte_positions_from (take j l) 0) = j).
    { rewrite byte_positions_from_length, length_take. lia. }
    rewrite Hins, byte_positions_from_app. simpl. fold sb.
    rewrite Hbp.
    rewrite take_app_length' by done.
    f_equal. f_equal; [f_equal; lia|].
    rewrite cons_middle, app_assoc.
    rewrite drop_app_length' by (rewrite length_app; simpl; lia).
    rewrite shift_positions by lia. f_equal. lia.
Qed.

End ChunkOf.

(** ** The encoder table of a list of chunks *)

Section Table.

Context `{Externals}.

Lemma table_from_length (u : nat) (groups : list (list serialized)) (first : nat) :
  length (table_from u groups first) = length groups.
Proof.
  revert u first. induction groups as [|l groups IH]; intros u first; simpl; [done|].
  by rewrite IH.
Qed.

Lemma table_from_app (u : nat) (groups more : list (list serialized)) (first : nat) :
  table_from u (groups ++ more) first
  = table_from u groups first
    ++ table_from (u + length groups) more (first + length (concat groups)).
Proof.
  revert u first. induction groups as [|l groups IH]; intros u first; simpl.
  - by rewrite !Nat.add_0_r.
  - rewrite IH. rewrite length_app. eq_lia.
Qed.

(** The table only depends on how many samples each chunk holds. *)
Lemma table_from_lengths (u : nat) (groups groups' : list (list serialized))
    (first : nat) :
  length <$> groups = length <$> groups' →
  table_from u groups first = table_from u groups' first.
Proof.
  revert u first groups'.
  induction groups as [|l groups IH]; intros u first [|l' groups'] E;
    simpl in *; try done.
  injection E as E1 E2. rewrite E1. f_equal. by apply IH.
Qed.

Lemma table_from_lookup (u : nat) (groups : list (list serialized))
    (first i : nat) (l : list serialized) :
  groups !! i = Some l →
  table_from u groups first !! i
  = Some (uuid4 (u + i),
          (first + length (concat (take i groups)) + length l - 1)%nat).
Proof.
  revert u first i. induction groups as [|l0 groups IH]; intros u first i Hi; [done|].
  destruct i as [|i]; simpl in *.
  - injection Hi as ->. eq_lia.
  - rewrite (IH _ _ _ Hi). rewrite length_app. eq_lia.
Qed.

Lemma table_from_last (u : nat) (groups : list (list serialized)) (first : nat)
    (l : list serialized) :
  last groups = Some l →
  last (table_from u groups first)
  = Some (uuid4 (u + pred (length groups)),
          (first + length (concat groups) - 1)%nat).
Proof.
  intros Hl. destruct (last_Some groups l) as [[front ->] _]; [done|].
  rewrite table_from_app. simpl. rewrite last_snoc.
  rewrite length_app, concat_app, length_app. simpl. rewrite app_nil_r.
  eq_lia.
Qed.

Lemma nonempty_length (groups : list (list serialized)) (i : nat)
    (l : list serialized) :
  Forall (λ g, g ≠ []) groups → groups !! i = Some l → (0 < length l)%nat.
Proof.
  intros Hne Hl. eapply Forall_lookup_1 in Hne; [|exact Hl].
  destruct l; [done|simpl; lia].
Qed.

Lemma nonempty_last (groups : list (list serialized)) (l : list serialized) :
  Forall (λ g, g ≠ []) groups → last groups = Some l → (0 < length l)%nat.
Proof. rewrite last_lookup. apply nonempty_length. Qed.

Lemma num_samples_table (u : nat) (groups : list (list serialized)) latest :
  Forall (λ g, g ≠ []) groups →
  ChunkIdEncoder.num_samples (ChunkIdEncoder.mk (table_from u groups 0) latest)
  = length (concat groups).
Proof.
  intros Hne. unfold ChunkIdEncoder.num_samples. simpl.
  destruct (last groups) as [l|] eqn:Hl.
  - rewrite (table_from_last _ _ _ _ Hl). simpl.
    pose proof (nonempty_last _ _ Hne Hl).
    destruct (last_Some groups l) as [[front ->] _]; [done|].
    rewrite concat_app, length_app. simpl. rewrite app_nil_r. lia.
  - apply last_None in Hl. by subst.
Qed.

Lemma num_chunks_table (u : nat) (groups : list (list serialized)) latest :
  ChunkIdEncoder.num_chunks (ChunkIdEncoder.mk (table_from u groups 0) latest)
  = length groups.
Proof. unfold ChunkIdEncoder.num_chunks. simpl. apply table_from_length. Qed.

(** A sample that opens a new chunk is registered as a new row. *)
Lemma register_new_chunk (u : nat) (groups : list (list serialized))
    (x : serialized) :
  Forall (λ g, g ≠ []) groups →
  ChunkIdEncoder.register_samples
    (ChunkIdEncoder.mk (table_from u groups 0)
                       (Some (uuid4 (u + length groups)))) 1
  = Ok (ChunkIdEncoder.mk (table_from u (groups ++ [[x]]) 0) None).
Proof.
  intros Hne. unfold ChunkIdEncoder.register_samples. simpl.
  rewrite num_samples_table by done.
  rewrite table_from_app. simpl. eq_lia.
Qed.

(** A sample merged into the last chunk extends the last row. *)
Lemma register_last_chunk (u : nat) (groups : list (list serialized))
    (l : list serialized) (x : serialized) :
  Forall (λ g, g ≠ []) groups →
  last groups = Some l →
  ChunkIdEncoder.register_samples
    (ChunkIdEncoder.mk (table_from u groups 0) None) 1
  = Ok (ChunkIdEncoder.mk
          (table_from u (<[pred (length groups) := l ++ [x]]> groups) 0) None).
Proof.
  intros Hne Hl. unfold ChunkIdEncoder.register_samples. simpl.
  rewrite (table_from_last _ _ _ _ Hl).
  pose proof (nonempty_last _ _ Hne Hl).
  destruct (last_Some groups l) as [[front ->] _]; [done|].
  rewrite table_from_length, length_app. simpl.
  replace (pred (length front + 1)) with (length front) by lia.
  rewrite table_from_app.
  rewrite !insert_app_r_alt by (rewrite ?table_from_length; lia).
  rewrite table_from_length, Nat.sub_diag. simpl.
  rewrite table_from_app. simpl.
  rewrite concat_app, !length_app. simpl. rewrite app_nil_r.
  eq_lia.
Qed.

Lemma get_name_for_last_chunk (u : nat) (groups : list (list serialized))
    (l : list serialized) latest :
  last groups = Some l →
  ChunkIdEncoder.get_name_for_chunk
    (ChunkIdEncoder.mk (table_from u groups 0) latest) (-1)
  = Ok (ChunkIdEncoder.name_from_id (uuid4 (u + pred (length groups)))).
Proof.
  intros Hl. unfold ChunkIdEncoder.get_name_for_chunk. simpl.
  unfold len. rewrite table_from_length.
  destruct (last_Some groups l) as [[front ->] _]; [done|].
  rewrite length_app. simpl.
  destruct (Z.ltb_spec (Z.of_nat (length front + 1) + -1) 0); [lia|].
  destruct (Z.leb_spec (Z.of_nat (length front + 1))
                       (Z.of_nat (length front + 1) + -1)); [lia|].
  simpl.
  replace (Z.to_nat (Z.of_nat (length front + 1) + -1)) with (length front) by lia.
  rewrite (table_from_lookup _ _ _ _ l).
  - eq_lia.
  - by rewrite lookup_app_r, Nat.sub_diag.
Qed.

End Table.

(** ** Finding a sample *)

Section Locate.

Context `{Externals}.

Lemma locate_Some (groups : list (list serialized)) (g i j : nat) :
  locate groups g = Some (i, j) →
  ∃ l, groups !! i = Some l ∧ (j < length l)%nat
       ∧ g = (length (concat (take i groups)) + j)%nat
       ∧ concat groups !! g = l !! j.
Proof.
  revert g i. induction groups as [|l groups IH]; intros g i Hloc; [done|].
  simpl in Hloc. case_bool_decide as Hlt.
  - injection Hloc as <- <-. exists l. simpl.
    split_and!; [done|done|done|]. by rewrite lookup_app_l.
  - destruct (locate groups (g - length l)) as [[i' j']|] eqn:Hrec; [|done].
    injection Hloc as <- <-. simpl in *.
    destruct (IH _ _ Hrec) as (l' & Hl' & Hj & Hg & Hlook).
    exists l'. rewrite length_app.
    split_and!; [done|done|lia|].
    rewrite lookup_app_r by lia. done.
Qed.

Lemma locate_None (groups : list (list serialized)) (g : nat) :
  locate groups g = None → (length (concat groups) ≤ g)%nat.
Proof.
  revert g. induction groups as [|l groups IH]; intros g Hloc; simpl; [lia|].
  simpl in Hloc. case_bool_decide as Hlt; [done|].
  destruct (locate groups (g - length l)) eqn:Hrec; [done|].
  apply IH in Hrec. rewrite length_app. lia.
Qed.

Lemma locate_is_Some (groups : list (list serialized)) (g : nat) :
  (g < length (concat groups))%nat → is_Some (locate groups g).
Proof.
  intros Hg. destruct (locate groups g) eqn:E; [eauto|].
  apply locate_None in E. lia.
Qed.

Lemma search_table (u : nat) (groups : list (list serialized))
    (first g k : nat) :
  Forall (λ l, l ≠ []) groups →
  ChunkIdEncoder.search (table_from u groups first) (first + g) k
  = (λ p : nat * nat, ((k + p.1)%nat, uuid4 (u + p.1))) <$> locate groups g.
Proof.
  revert u first g k. induction groups as [|l groups IH];
    intros u first g k Hne; [done|].
  apply Forall_cons in Hne as [Hl Hne]. simpl.
  assert (0 < length l)%nat by (destruct l; [done|simpl; lia]).
  case_bool_decide as Hlt.
  - destruct (Nat.leb_spec (first + g) (first + length l - 1)); [|lia].
    simpl. eq_lia.
  - destruct (Nat.leb_spec (first + g) (first + length l - 1)); [lia|].
    replace (first + g)%nat with ((first + length l) + (g - length l))%nat by lia.
    rewrite IH by done.
    destruct (locate groups (g - length l)) as [[i j]|]; simpl; [|done].
    eq_lia.
Qed.

Lemma getitem_table (u : nat) (groups : list (list serialized)) latest
    (g i j : nat) :
  Forall (λ l, l ≠ []) groups →
  locate groups g = Some (i, j) →
  ChunkIdEncoder.getitem (ChunkIdEncoder.mk (table_from u groups 0) latest) g
  = Ok (uuid4 (u + i)).
Proof.
  intros Hne Hloc. unfold ChunkIdEncoder.getitem. simpl.
  rewrite <- (Nat.add_0_l g) at 1. rewrite search_table by done.
  by rewrite Hloc.
Qed.

Lemma getitem_table_out_of_range (u : nat) (groups : list (list serialized))
    latest (g : nat) :
  Forall (λ l, l ≠ []) groups →
  locate groups g = None →
  ChunkIdEncoder.getitem (ChunkIdEncoder.mk (table_from u groups 0) latest) g
  = Raise IndexError.
Proof.
  intros Hne Hloc. unfold ChunkIdEncoder.getitem. simpl.
  rewrite <- (Nat.add_0_l g) at 1. rewrite search_table by done.
  by rewrite Hloc.
Qed.

Lemma translate_table (u : nat) (groups : list (list serialized)) latest
    (g i j : nat) :
  Forall (λ l, l ≠ []) groups →
  locate groups g = Some (i, j) →
  ChunkIdEncoder.translate_index_relative_to_chunks
    (ChunkIdEncoder.mk (table_from u groups 0) latest) g
  = Ok j.
Proof.
  intros Hne Hloc. unfold ChunkIdEncoder.translate_index_relative_to_chunks.
  simpl. rewrite <- (Nat.add_0_l g) at 1. rewrite search_table by done.
  rewrite Hloc. simpl.
  destruct (locate_Some _ _ _ _ Hloc) as (l & Hl & Hj & Hg & _).
  destruct i as [|i]; simpl in *.
  - f_equal. lia.
  - destruct (lookup_lt_is_Some_2 groups i) as [l' Hl'].
    { apply lookup_lt_Some in Hl. lia. }
    rewrite (table_from_lookup _ _ _ _ _ Hl'). f_equal.
    pose proof (nonempty_length _ _ _ Hne Hl').
    rewrite (take_S_r _ _ _ Hl') in Hg.
    rewrite concat_app, length_app in Hg. simpl in Hg.
    rewrite length_app in Hg. simpl in Hg. lia.
Qed.

(** Replacing a sample in place replaces it in the contents. *)
Lemma concat_insert_located (groups : list (list serialized)) (g i j : nat)
    (l : list serialized) (x : serialized) :
  locate groups g = Some (i, j) →
  groups !! i = Some l →
  concat (<[i := <[j := x]> l]> groups) = <[g := x]> (concat groups).
Proof.
  revert g i. induction groups as [|l0 groups IH]; intros g i Hloc Hl; [done|].
  simpl in Hloc. case_bool_decide as Hlt.
  - injection Hloc as <- <-. simpl in *. injection Hl as ->.
    by rewrite insert_app_l.
  - destruct (locate groups (g - length l0)) as [[i' j']|] eqn:Hrec; [|done].
    injection Hloc as <- <-. simpl in *.
    rewrite (IH _ _ Hrec Hl).
    replace g with (length l0 + (g - length l0))%nat at 2 by lia.
    by rewrite insert_app_r.
Qed.

Lemma locate_lengths (groups groups' : list (list serialized)) (g : nat) :
  length <$> groups = length <$> groups' →
  locate groups g = locate groups' g.
Proof.
  revert g groups'. induction groups as [|l groups IH];
    intros g [|l' groups'] E; simpl in *; try done.
  injection E as E1 E2. rewrite E1, (IH _ _ E2). done.
Qed.

End Locate.

(** ** Properties and accessors of the engine on a store *)

Section Accessors.

Context `{Externals}.
Variable key : string.

Lemma with_meta_id (s : store) (m : TensorMeta.t) :
  meta_blob s = Some m → with_meta s m = s.
Proof. destruct s; simpl; intros ->; done. Qed.

Lemma with_index_id (s : store) (enc : ChunkIdEncoder.t) :
  chunks_index s = Some enc → with_index s enc = s.
Proof. destruct s; simpl; intros ->; done. Qed.

Lemma with_chunk_id (s : store) (k : string) (c : Chunk.t) :
  chunks s !! k = Some c → with_chunk s k c = s.
Proof.
  destruct s; simpl; intros E. unfold with_chunk. simpl.
  by rewrite insert_id.
Qed.

Lemma run_tensor_meta (s : store) (m : TensorMeta.t) :
  meta_blob s = Some m → tensor_meta s = (Ok m, s).
Proof. intros E. unfold tensor_meta, mbind, M_bind, get_store. by rewrite E. Qed.

Lemma run_max_chunk_size (s : store) (m : TensorMeta.t) :
  meta_blob s = Some m → max_chunk_size s = (Ok (max_size_of m), s).
Proof.
  intros E. unfold max_chunk_size.
  by rewrite (bind_ok _ _ _ _ _ (run_tensor_meta _ _ E)).
Qed.

Lemma run_min_chunk_size (s : store) (m : TensorMeta.t) :
  meta_blob s = Some m → min_chunk_size s = (Ok (max_size_of m `div` 2), s).
Proof.
  intros E. unfold min_chunk_size.
  by rewrite (bind_ok _ _ _ _ _ (run_max_chunk_size _ _ E)).
Qed.

Lemma run_chunk_id_encoder_exists (s : store) :
  chunk_id_encoder_exists s
  = (Ok (match chunks_index s with Some _ => true | None => false end), s).
Proof. done. Qed.

Lemma run_chunk_id_encoder (s : store) (enc : ChunkIdEncoder.t) :
  chunks_index s = Some enc → chunk_id_encoder s = (Ok enc, s).
Proof.
  intros E. unfold chunk_id_encoder.
  rewrite (bind_ok _ _ _ _ _ (run_chunk_id_encoder_exists s)). rewrite E. simpl.
  unfold mbind, M_bind, get_store. by rewrite E.
Qed.

(** The first access to the encoder of a tensor without one. *)
Lemma run_chunk_id_encoder_blank (s : store) (m : TensorMeta.t) :
  chunks_index s = None → meta_blob s = Some m →
  chunk_id_encoder s
  = if bool_decide (1 < TensorMeta.length m)%nat
    then (Raise CorruptedMetaError, s)
    else (Ok ChunkIdEncoder.blank, with_index s ChunkIdEncoder.blank).
Proof.
  intros E Em. unfold chunk_id_encoder.
  rewrite (bind_ok _ _ _ _ _ (run_chunk_id_encoder_exists s)). rewrite E. simpl.
  rewrite (bind_ok _ _ _ _ _ (run_tensor_meta _ _ Em)).
  by case_bool_decide.
Qed.

Lemma run_num_chunks (s : store) (enc : ChunkIdEncoder.t) :
  chunks_index s = Some enc →
  num_chunks s = (Ok (ChunkIdEncoder.num_chunks enc), s).
Proof.
  intros E. unfold num_chunks.
  rewrite (bind_ok _ _ _ _ _ (run_chunk_id_encoder_exists s)). rewrite E. simpl.
  by rewrite (bind_ok _ _ _ _ _ (run_chunk_id_encoder _ _ E)).
Qed.

Lemma run_num_samples (s : store) (enc : ChunkIdEncoder.t) :
  chunks_index s = Some enc →
  num_samples s = (Ok (ChunkIdEncoder.num_samples enc), s).
Proof.
  intros E. unfold num_samples.
  rewrite (bind_ok _ _ _ _ _ (run_chunk_id_encoder_exists s)). rewrite E. simpl.
  by rewrite (bind_ok _ _ _ _ _ (run_chunk_id_encoder _ _ E)).
Qed.

Lemma run_deref (s : store) (k : string) (c : Chunk.t) :
  chunks s !! k = Some c → deref k s = (Ok c, s).
Proof. intros E. unfold deref, mbind, M_bind, get_store. by rewrite E. Qed.

Lemma run_get_chunk (s : store) (k : string) (c : Chunk.t) :
  chunks s !! k = Some c → get_chunk k s = (Ok k, s).
Proof.
  intros E. unfold get_chunk, get_cachable_chunk, mbind, M_bind, get_store.
  by rewrite E.
Qed.

Lemma run_last_chunk_key (s : store) (enc : ChunkIdEncoder.t) (name : string) :
  chunks_index s = Some enc →
  ChunkIdEncoder.get_name_for_chunk enc (-1) = Ok name →
  last_chunk_key key s = (Ok (get_chunk_key key name), s).
Proof.
  intros E En. unfold last_chunk_key.
  rewrite (bind_ok _ _ _ _ _ (run_chunk_id_encoder _ _ E)).
  unfold lift, mbind, M_bind. by rewrite En.
Qed.

(** [_synchronize_cache] writes back what is there. *)
Lemma run_synchronize_cache (s : store) (m : TensorMeta.t)
    (enc : ChunkIdEncoder.t) (name : string) (c : Chunk.t) :
  meta_blob s = Some m → chunks_index s = Some enc →
  ChunkIdEncoder.get_name_for_chunk enc (-1) = Ok name →
  chunks s !! get_chunk_key key name = Some c →
  _synchronize_cache key None s = (Ok tt, s).
Proof.
  intros Em Ee En Ec. unfold _synchronize_cache.
  rewrite (bind_ok _ _ _ s
             [get_chunk_key key name]).
  2:{ by rewrite (bind_ok _ _ _ _ _ (run_last_chunk_key _ _ _ Ee En)). }
  simpl.
  rewrite (bind_ok _ _ _ s tt).
  2:{ rewrite (bind_ok _ _ _ s tt); [done|].
      rewrite (bind_ok _ _ _ _ _ (run_get_chunk _ _ _ Ec)).
      by rewrite (bind_ok _ _ _ _ _ (run_deref _ _ _ Ec)). }
  rewrite (bind_ok _ _ _ _ _ (run_tensor_meta _ _ Em)).
  unfold set_tensor_meta, modify. unfold mbind at 1, M_bind at 1.
  rewrite (with_meta_id _ _ Em).
  rewrite (bind_ok _ _ _ _ _ (run_chunk_id_encoder _ _ Ee)).
  unfold set_chunk_id_encoder, modify. by rewrite (with_index_id _ _ Ee).
Qed.

Lemma run_synchronize_cache_no_chunks (s : store) (m : TensorMeta.t)
    (enc : ChunkIdEncoder.t) :
  meta_blob s = Some m → chunks_index s = Some enc →
  _synchronize_cache key (Some []) s = (Ok tt, s).
Proof.
  intros Em Ee. unfold _synchronize_cache.
  rewrite (bind_ok _ _ _ s []) by done. simpl.
  rewrite (bind_ok _ _ _ s tt) by done.
  rewrite (bind_ok _ _ _ _ _ (run_tensor_meta _ _ Em)).
  unfold set_tensor_meta, modify. unfold mbind at 1, M_bind at 1.
  rewrite (with_meta_id _ _ Em).
  rewrite (bind_ok _ _ _ _ _ (run_chunk_id_encoder _ _ Ee)).
  unfold set_chunk_id_encoder, modify. by rewrite (with_index_id _ _ Ee).
Qed.

End Accessors.

(** ** Appending on a store that represents a list of chunks *)

Section Append.

Context `{Externals}.
Variable key : string.

Local Abbreviation key_of i := (chunk_key_of key (uuid4 i)).

Lemma Frame_refl (s : store) : Frame s s.
Proof. done. Qed.

Lemma Frame_trans (s1 s2 s3 : store) : Frame s1 s2 → Frame s2 s3 → Frame s1 s3.
Proof. intros [] []. split; congruence. Qed.

Lemma distinct_keys_inj (u0 n i j : nat) :
  distinct_keys key u0 n → (i < n)%nat → (j < n)%nat →
  key_of (u0 + i) = key_of (u0 + j) → i = j.
Proof.
  intros Hd Hi Hj E. unfold distinct_keys in Hd.
  eapply NoDup_lookup; [exact Hd| |].
  - rewrite list_lookup_fmap, lookup_seq_lt by done. done.
  - rewrite list_lookup_fmap, lookup_seq_lt by done. simpl. by rewrite E.
Qed.

Lemma distinct_keys_le (u0 n n' : nat) :
  distinct_keys key u0 n → (n' ≤ n)%nat → distinct_keys key u0 n'.
Proof.
  unfold distinct_keys. intros Hd Hle.
  replace n with (n' + (n - n'))%nat in Hd by lia.
  rewrite seq_app, fmap_app in Hd. by apply NoDup_app in Hd as [? _].
Qed.

Lemma rep_last_chunk (s : store) (u0 : nat) (groups : list (list serialized))
    (l : list serialized) :
  Rep key s u0 groups → last groups = Some l →
  chunks s !! key_of (u0 + pred (length groups)) = Some (chunk_of l).
Proof. intros HR Hl. apply (rep_chunks _ _ _ _ HR). by rewrite <- last_lookup. Qed.

Lemma rep_index_Some (s : store) (u0 : nat) (groups : list (list serialized)) :
  Rep key s u0 groups → is_Some (chunks_index s) →
  chunks_index s = Some (ChunkIdEncoder.mk (table_from u0 groups 0) None).
Proof.
  intros HR [enc E]. pose proof (rep_index _ _ _ _ HR) as Hi.
  rewrite E in Hi. by subst.
Qed.

Lemma run_last_chunk_none (s : store) (u0 : nat) :
  Rep key s u0 [] → last_chunk key s = (Ok None, s).
Proof.
  intros HR. unfold last_chunk.
  destruct (chunks_index s) as [enc|] eqn:E.
  - rewrite (bind_ok _ _ _ _ _ (run_num_chunks _ _ E)).
    pose proof (rep_index _ _ _ _ HR) as Hi. rewrite E in Hi. by subst.
  - rewrite (bind_ok _ _ _ s 0%nat); [done|].
    unfold num_chunks.
    rewrite (bind_ok _ _ _ _ _ (run_chunk_id_encoder_exists s)).
    by rewrite E.
Qed.

Lemma run_last_chunk_some (s : store) (u0 : nat)
    (groups : list (list serialized)) (l : list serialized) :
  Rep key s u0 groups → last groups = Some l →
  last_chunk key s = (Ok (Some (key_of (u0 + pred (length groups)))), s).
Proof.
  intros HR Hl.
  assert (is_Some (chunks_index s)) as Hsome.
  { pose proof (rep_index _ _ _ _ HR) as Hi.
    destruct (chunks_index s); [eauto|]. by subst. }
  pose proof (rep_index_Some _ _ _ HR Hsome) as E.
  unfold last_chunk.
  rewrite (bind_ok _ _ _ _ _ (run_num_chunks _ _ E)).
  rewrite num_chunks_table.
  case_bool_decide as Hz.
  { destruct groups; [done|simpl in Hz; lia]. }
  rewrite (bind_ok _ _ _ _ _
             (run_last_chunk_key key _ _ _ E (get_name_for_last_chunk _ _ _ _ Hl))).
  by rewrite (bind_ok _ _ _ _ _ (run_get_chunk _ _ _ (rep_last_chunk _ _ _ _ HR Hl))).
Qed.

(** Changing the chunk of one group, keeping its number of samples. *)
Lemma Rep_with_chunk (s : store) (u0 n i : nat)
    (groups : list (list serialized)) (l l' : list serialized) :
  Rep key s u0 groups → distinct_keys key u0 n → (length groups ≤ n)%nat →
  groups !! i = Some l → l' ≠ [] →
  is_Some (chunks_index s) → length l' = length l →
  Rep key (with_chunk s (key_of (u0 + i)) (chunk_of l')) u0 (<[i := l']> groups).
Proof.
  intros HR Hd Hn Hi Hne Hsome Hlen. split; simpl.
  - rewrite (rep_index_Some _ _ _ HR Hsome). f_equal.
    apply table_from_lengths. rewrite list_fmap_insert, Hlen.
    symmetry. apply list_insert_id. by rewrite list_lookup_fmap, Hi.
  - intros i' g Hg. destruct (decide (i' = i)) as [->|Hneq].
    + rewrite list_lookup_insert_eq in Hg by (by eapply lookup_lt_Some).
      injection Hg as <-. by rewrite lookup_insert_eq.
    + rewrite list_lookup_insert_ne in Hg by done.
      rewrite lookup_insert_ne; [by apply (rep_chunks _ _ _ _ HR)|].
      intros E. apply (distinct_keys_inj _ n) in E; [done|done|..].
      * apply lookup_lt_Some in Hi. lia.
      * apply lookup_lt_Some in Hg. lia.
  - rewrite length_insert. apply (rep_uuid _ _ _ _ HR).
  - apply Forall_insert; [apply (rep_nonempty _ _ _ _ HR)|done].
Qed.

Lemma merged_part_fits (max_size : Z) (g : list serialized)
    (buffer : memoryview) :
  len (data_of g) < max_size `div` 2 →
  len (data_of g) + len (merged_part max_size g buffer) ≤ max_size.
Proof.
  intros Hs. pose proof (len_nonneg (data_of g)).
  assert (len (data_of g) < max_size).
  { pose proof (Z.div_mod max_size 2 ltac:(lia)).
    pose proof (Z.mod_pos_bound max_size 2 ltac:(lia)). lia. }
  unfold merged_part, slice. unfold len in *.
  rewrite drop_0, Nat.sub_0_r, length_take. lia.
Qed.

Lemma merged_part_all (max_size : Z) (g : list serialized)
    (buffer : memoryview) :
  len buffer ≤ max_size - len (data_of g) →
  merged_part max_size g buffer = buffer.
Proof.
  intros Hfit. unfold merged_part. apply slice_all. unfold len in *. lia.
Qed.


Lemma run_try_appending_no_merge (s : store) (u0 : nat)
    (groups : list (list serialized)) (m : TensorMeta.t)
    (buffer : memoryview) (shape : shape_t) :
  Rep key s u0 groups → meta_blob s = Some m →
  merges (max_size_of m) groups buffer = false →
  _try_appending_to_last_chunk key buffer shape s = (Ok false, s).
Proof.
  intros HR Hm Hmerge. unfold _try_appending_to_last_chunk, merges in *.
  destruct (last groups) as [l|] eqn:Hl.
  - rewrite (bind_ok _ _ _ _ _ (run_last_chunk_some _ _ _ _ HR Hl)).
    rewrite (bind_ok _ _ _ _ _ (run_min_chunk_size _ _ Hm)).
    rewrite (bind_ok _ _ _ _ _ (run_deref _ _ _ (rep_last_chunk _ _ _ _ HR Hl))).
    unfold Chunk.is_under_min_space, Chunk.num_data_bytes. simpl.
    destruct (len (data_of l) <? max_size_of m `div` 2); [|done].
    simpl in Hmerge.
    rewrite !(bind_ok _ _ _ _ _ (run_max_chunk_size _ _ Hm)).
    by rewrite Hmerge.
  - apply last_None in Hl. subst.
    by rewrite (bind_ok _ _ _ _ _ (run_last_chunk_none _ _ HR)).
Qed.

Lemma run_try_appending_merge (s : store) (u0 : nat)
    (groups : list (list serialized)) (l : list serialized)
    (m : TensorMeta.t) (buffer : memoryview) (shape : shape_t) :
  Rep key s u0 groups → meta_blob s = Some m →
  last groups = Some l →
  merges (max_size_of m) groups buffer = true →
  _try_appending_to_last_chunk key buffer shape s
  = (Ok true,
     with_chunk s (key_of (u0 + pred (length groups)))
       (chunk_of (l ++ [(merged_part (max_size_of m) l buffer, shape)]))).
Proof.
  intros HR Hm Hl Hmerge. unfold _try_appending_to_last_chunk, merges in *.
  rewrite Hl in Hmerge. apply andb_prop in Hmerge as [Hunder Hct].
  rewrite (bind_ok _ _ _ _ _ (run_last_chunk_some _ _ _ _ HR Hl)).
  rewrite (bind_ok _ _ _ _ _ (run_min_chunk_size _ _ Hm)).
  rewrite (bind_ok _ _ _ _ _ (run_deref _ _ _ (rep_last_chunk _ _ _ _ HR Hl))).
  unfold Chunk.is_under_min_space, Chunk.num_data_bytes. simpl.
  rewrite Hunder.
  rewrite !(bind_ok _ _ _ _ _ (run_max_chunk_size _ _ Hm)).
  rewrite Hct.
  rewrite (bind_ok _ _ _ _ _ (run_max_chunk_size _ _ Hm)).
  unfold chunk_append_sample.
  rewrite (bind_ok _ _ s
             (with_chunk s (key_of (u0 + pred (length groups)))
                (chunk_of (l ++ [(merged_part (max_size_of m) l buffer, shape)])))
             tt); [done|].
  rewrite (bind_ok _ _ _ _ _ (run_deref _ _ _ (rep_last_chunk _ _ _ _ HR Hl))).
  unfold lift. unfold mbind at 1, M_bind at 1.
  fold (merged_part (max_size_of m) l buffer).
  rewrite append_sample_chunk_of; [done|].
  apply merged_part_fits. by apply Z.ltb_lt.
Qed.

Lemma Rep_nil_index (s : store) (u0 : nat) (groups : list (list serialized)) :
  Rep key s u0 groups → chunks_index s = None → groups = [].
Proof. intros HR E. pose proof (rep_index _ _ _ _ HR) as Hi. by rewrite E in Hi. Qed.

(** A sample that does not merge opens a new chunk under the next random
    id and is stored there whole. *)
Lemma run_append_to_new_chunk (s : store) (u0 : nat)
    (groups : list (list serialized)) (m : TensorMeta.t)
    (buffer : memoryview) (shape : shape_t) :
  Rep key s u0 groups → meta_blob s = Some m → is_Some (chunks_index s) →
  len buffer ≤ max_size_of m →
  _append_to_new_chunk key buffer shape s
  = (Ok tt,
     with_chunk
       (with_index (with_uuid_call s)
          (ChunkIdEncoder.mk (table_from u0 groups 0)
                             (Some (uuid4 (u0 + length groups)))))
       (key_of (u0 + length groups)) (chunk_of [(buffer, shape)])).
Proof.
  intros HR Hm Hsome Hfit.
  pose proof (rep_index_Some _ _ _ HR Hsome) as E.
  unfold _append_to_new_chunk, _create_new_chunk.
  set (s1 := with_chunk
       (with_index (with_uuid_call s)
          (ChunkIdEncoder.mk (table_from u0 groups 0)
                             (Some (uuid4 (u0 + length groups)))))
       (key_of (u0 + length groups)) Chunk.new).
  rewrite (bind_ok _ _ s s1 (key_of (u0 + length groups))).
  2:{ rewrite (bind_ok _ _ _ _ _ (run_chunk_id_encoder _ _ E)).
      unfold get_store. unfold mbind at 1, M_bind at 1.
      rewrite (rep_uuid _ _ _ _ HR). done. }
  assert (meta_blob s1 = Some m) as Hm1 by done.
  rewrite (bind_ok _ _ _ _ _ (run_max_chunk_size _ _ Hm1)).
  unfold chunk_append_sample.
  assert (chunks s1 !! key_of (u0 + length groups) = Some (chunk_of [])) as Hc.
  { subst s1. simpl. by rewrite lookup_insert_eq. }
  rewrite (bind_ok _ _ _ _ _ (run_deref _ _ _ Hc)).
  unfold lift. unfold mbind at 1, M_bind at 1.
  rewrite (append_sample_chunk_of []) by (unfold data_of; simpl; unfold len in *; simpl; lia).
  simpl. unfold set_chunk, modify, with_chunk. subst s1. simpl.
  by rewrite insert_insert_eq.
Qed.

Lemma run_synchronize_cache_rep (s : store) (u0 : nat)
    (groups : list (list serialized)) (l : list serialized)
    (m : TensorMeta.t) :
  Rep key s u0 groups → last groups = Some l → meta_blob s = Some m →
  _synchronize_cache key None s = (Ok tt, s).
Proof.
  intros HR Hl Hm.
  assert (is_Some (chunks_index s)) as Hsome.
  { destruct (chunks_index s) eqn:E; [eauto|].
    rewrite (Rep_nil_index _ _ _ HR E) in Hl. done. }
  eapply run_synchronize_cache.
  - exact Hm.
  - exact (rep_index_Some _ _ _ HR Hsome).
  - exact (get_name_for_last_chunk _ _ _ _ Hl).
  - exact (rep_last_chunk _ _ _ _ HR Hl).
Qed.

Lemma run_register_samples (s : store) (enc enc' : ChunkIdEncoder.t) :
  chunks_index s = Some enc →
  ChunkIdEncoder.register_samples enc 1 = Ok enc' →
  chunk_id_encoder_register_samples 1 s = (Ok tt, with_index s enc').
Proof.
  intros E Hreg. unfold chunk_id_encoder_register_samples.
  rewrite (bind_ok _ _ _ _ _ (run_chunk_id_encoder _ _ E)).
  unfold lift. unfold mbind at 1, M_bind at 1. by rewrite Hreg.
Qed.

Lemma place_no_merge (max_size : Z) (groups : list (list serialized))
    (x : serialized) :
  merges max_size groups x.1 = false → place max_size groups x = groups ++ [[x]].
Proof. intros E. unfold place. rewrite E. by destruct (last groups). Qed.

Lemma place_merge (max_size : Z) (groups : list (list serialized))
    (l : list serialized) (x : serialized) :
  merges max_size groups x.1 = true → last groups = Some l →
  place max_size groups x
  = <[pred (length groups) := l ++ [(merged_part max_size l x.1, x.2)]]> groups.
Proof. intros E Hl. unfold place. by rewrite E, Hl. Qed.

(** [_append_bytes] places one sample as [place] says. *)
Lemma run_append_bytes (s : store) (u0 : nat)
    (groups : list (list serialized)) (m : TensorMeta.t)
    (buffer : memoryview) (shape : shape_t) :
  Rep key s u0 groups → meta_blob s = Some m → is_Some (chunks_index s) →
  distinct_keys key u0 (S (length groups)) →
  (merges (max_size_of m) groups buffer = false → len buffer ≤ max_size_of m) →
  ∃ s', _append_bytes key buffer shape s = (Ok tt, s')
        ∧ Rep key s' u0 (place (max_size_of m) groups (buffer, shape))
        ∧ Frame s s' ∧ is_Some (chunks_index s').
Proof.
  intros HR Hm Hsome Hd Hfit.
  pose proof (rep_index_Some _ _ _ HR Hsome) as E.
  pose proof (rep_nonempty _ _ _ _ HR) as Hne.
  unfold _append_bytes.
  destruct (merges (max_size_of m) groups buffer) eqn:Hmerge.
  - (* merged into the last chunk *)
    destruct (last groups) as [l|] eqn:Hl;
      [|by unfold merges in Hmerge; rewrite Hl in Hmerge].
    rewrite (place_merge _ _ l) by done. simpl.
    set (x := (merged_part (max_size_of m) l buffer, shape)).
    set (groups' := <[pred (length groups) := l ++ [x]]> groups).
    set (s1 := with_chunk s (key_of (u0 + pred (length groups)))
                 (chunk_of (l ++ [x]))).
    set (s2 := with_index s1
                 (ChunkIdEncoder.mk (table_from u0 groups' 0) None)).
    assert (groups !! pred (length groups) = Some l) as Hlast
      by (by rewrite <- last_lookup).
    assert (Rep key s2 u0 groups') as HR2.
    { split; simpl.
      - done.
      - intros i g Hg. destruct (decide (i = pred (length groups))) as [->|Hneq].
        + unfold groups' in Hg.
          rewrite list_lookup_insert_eq in Hg by (by eapply lookup_lt_Some).
          injection Hg as <-. by rewrite lookup_insert_eq.
        + unfold groups' in Hg. rewrite list_lookup_insert_ne in Hg by done.
          rewrite lookup_insert_ne; [by apply (rep_chunks _ _ _ _ HR)|].
          intros Ek. apply (distinct_keys_inj _ (S (length groups))) in Ek;
            [done|done|..].
          * lia.
          * apply lookup_lt_Some in Hg. lia.
      - unfold groups'. rewrite length_insert. apply (rep_uuid _ _ _ _ HR).
      - apply Forall_insert; [done|]. by destruct l. }
    exists s2. split_and!; [|done|done|by eexists].
    rewrite (bind_ok _ _ _ _ _
               (run_try_appending_merge _ _ _ _ _ _ shape HR Hm Hl Hmerge)).
    simpl. fold x s1.
    rewrite (bind_ok _ _ s1 s1 tt) by done.
    rewrite (bind_ok _ _ s1 s2 tt).
    2:{ apply (run_register_samples s1 _ _ E).
        by apply register_last_chunk. }
    eapply (run_synchronize_cache_rep _ _ _ (l ++ [x])); [exact HR2| |done].
    unfold groups'. rewrite last_lookup, length_insert.
    apply list_lookup_insert_eq. by eapply lookup_lt_Some.
  - (* a new chunk *)
    rewrite place_no_merge by done.
    set (x := (buffer, shape)).
    set (s1 := with_chunk
       (with_index (with_uuid_call s)
          (ChunkIdEncoder.mk (table_from u0 groups 0)
                             (Some (uuid4 (u0 + length groups)))))
       (key_of (u0 + length groups)) (chunk_of [x])).
    set (s2 := with_index s1
                 (ChunkIdEncoder.mk (table_from u0 (groups ++ [[x]]) 0) None)).
    assert (Rep key s2 u0 (groups ++ [[x]])) as HR2.
    { split; simpl.
      - done.
      - intros i g Hg. destruct (decide (i = length groups)) as [->|Hneq].
        + rewrite lookup_app_r, Nat.sub_diag in Hg by done.
          injection Hg as <-. by rewrite lookup_insert_eq.
        + assert (i < length groups)%nat.
          { apply lookup_lt_Some in Hg. rewrite length_app in Hg.
            simpl in Hg. lia. }
          rewrite lookup_app_l in Hg by done.
          rewrite lookup_insert_ne; [by apply (rep_chunks _ _ _ _ HR)|].
          intros Ek. apply (distinct_keys_inj _ (S (length groups))) in Ek;
            [done|done|lia|lia].
      - rewrite length_app, (rep_uuid _ _ _ _ HR). simpl. lia.
      - apply Forall_app. split; [done|]. by apply Forall_singleton. }
    exists s2. split_and!; [|done|done|by eexists].
    rewrite (bind_ok _ _ _ _ _
               (run_try_appending_no_merge _ _ _ _ _ shape HR Hm Hmerge)).
    simpl.
    rewrite (bind_ok _ _ s s1 tt)
      by (apply (run_append_to_new_chunk _ _ _ m); auto).
    rewrite (bind_ok _ _ s1 s2 tt).
    2:{ eapply run_register_samples; [done|].
        by apply register_new_chunk. }
    eapply (run_synchronize_cache_rep _ _ _ [x]); [exact HR2| |done].
    by rewrite last_snoc.
Qed.

End Append.

(** ** [extend] on a store that represents a list of chunks *)

Section Extend.

Context `{Externals}.
Variable key : string.

Lemma max_size_of_update_shape_interval (m m' : TensorMeta.t) (shape : shape_t) :
  TensorMeta.update_shape_interval m shape = Ok m' →
  max_size_of m' = max_size_of m.
Proof.
  unfold TensorMeta.update_shape_interval. intros E.
  repeat case_bool_decide; by simplify_eq.
Qed.

Lemma max_size_of_meta_after (m m' : TensorMeta.t) (samples : list serialized) :
  meta_after m samples = Ok m' → max_size_of m' = max_size_of m.
Proof.
  revert m. induction samples as [|x samples IH]; intros m E; simpl in E.
  - by simplify_eq.
  - destruct (TensorMeta.update_shape_interval m x.2) as [m1|] eqn:E1; [|done].
    rewrite (IH _ E). simpl.
    apply (max_size_of_update_shape_interval _ _ _ E1).
Qed.

Lemma place_length (max_size : Z) (groups : list (list serialized))
    (x : serialized) :
  (length (place max_size groups x) ≤ S (length groups))%nat.
Proof.
  unfold place. destruct (last groups); [destruct (merges _ _ _)|];
    rewrite ?length_insert, ?length_app; simpl; lia.
Qed.

Lemma foldl_place_length (max_size : Z) (groups : list (list serialized))
    (samples : list serialized) :
  (length (foldl (place max_size) groups samples)
   ≤ length groups + length samples)%nat.
Proof.
  revert groups. induction samples as [|x samples IH]; intros groups; simpl; [lia|].
  pose proof (IH (place max_size groups x)).
  pose proof (place_length max_size groups x). lia.
Qed.

Lemma run_extend_body (s : store) (u0 : nat)
    (groups : list (list serialized)) (m : TensorMeta.t) (x : serialized) :
  Rep key s u0 groups → meta_blob s = Some m → is_Some (chunks_index s) →
  distinct_keys key u0 (S (length groups)) →
  len x.1 ≤ max_size_of m →
  match TensorMeta.update_shape_interval m x.2 with
  | Ok m1 =>
      ∃ s', extend_body key x s = (Ok tt, s')
            ∧ Rep key s' u0 (place (max_size_of m) groups x)
            ∧ meta_blob s' = Some (TensorMeta.incr_length m1)
            ∧ read_only s' = read_only s ∧ warnings s' = warnings s
            ∧ is_Some (chunks_index s')
  | Raise e => extend_body key x s = (Raise e, s)
  end.
Proof.
  intros HR Hm Hsome Hd Hfit. destruct x as [buffer shape]. simpl in *.
  unfold extend_body.
  rewrite (bind_ok _ _ _ _ _ (run_tensor_meta _ _ Hm)).
  unfold lift. unfold mbind at 1, M_bind at 1.
  destruct (TensorMeta.update_shape_interval m shape) as [m1|e] eqn:E1; [|done].
  unfold set_tensor_meta, modify. unfold mbind at 1, M_bind at 1.
  rewrite (bind_ok _ _ _ (with_meta s m1) m1) by done.
  unfold mbind at 1, M_bind at 1.
  set (s1 := with_meta (with_meta s m1) (TensorMeta.incr_length m1)).
  assert (Rep key s1 u0 groups) as HR1.
  { destruct HR. by split. }
  assert (max_size_of (TensorMeta.incr_length m1) = max_size_of m) as Hmax.
  { by rewrite <- (max_size_of_update_shape_interval _ _ _ E1). }
  destruct (run_append_bytes key s1 u0 groups (TensorMeta.incr_length m1)
              buffer shape HR1) as (s' & Hrun & HR' & [Hro Hmeta Hw] & Hsome');
    [done|done|done|by rewrite Hmax|].
  exists s'. rewrite Hmax in HR'. split_and!; try done.
Qed.

Lemma run_extend_loop (samples : list serialized) :
  ∀ (s : store) (u0 n : nat) (groups : list (list serialized))
    (m : TensorMeta.t),
  Rep key s u0 groups → meta_blob s = Some m → is_Some (chunks_index s) →
  distinct_keys key u0 n → (length groups + length samples ≤ n)%nat →
  Forall (λ x : serialized, len x.1 ≤ max_size_of m) samples →
  match meta_after m samples with
  | Ok m' =>
      ∃ s', for_each samples (extend_body key) s = (Ok tt, s')
            ∧ Rep key s' u0 (foldl (place (max_size_of m)) groups samples)
            ∧ meta_blob s' = Some m'
            ∧ read_only s' = read_only s ∧ warnings s' = warnings s
            ∧ is_Some (chunks_index s')
  | Raise e => ∃ s', for_each samples (extend_body key) s = (Raise e, s')
  end.
Proof.
  induction samples as [|x samples IH];
    intros s u0 n groups m HR Hm Hsome Hd Hn Hfit; simpl.
  { exists s. by split_and!. }
  apply Forall_cons in Hfit as [Hx Hfit]. simpl in Hn.
  assert (distinct_keys key u0 (S (length groups))) as Hd1
    by (apply (distinct_keys_le key u0 n); [done|lia]).
  pose proof (run_extend_body s u0 groups m x HR Hm Hsome Hd1 Hx) as Hbody.
  destruct (TensorMeta.update_shape_interval m x.2) as [m1|e] eqn:E1.
  - destruct Hbody as (s1 & Hrun & HR1 & Hm1 & Hro & Hw & Hsome1).
    assert (max_size_of (TensorMeta.incr_length m1) = max_size_of m) as Hmax.
    { apply (max_size_of_update_shape_interval _ _ _ E1). }
    pose proof (place_length (max_size_of m) groups x).
    specialize (IH s1 u0 n _ _ HR1 Hm1 Hsome1 Hd ltac:(lia)).
    rewrite Hmax in IH. specialize (IH Hfit).
    destruct (meta_after (TensorMeta.incr_length m1) samples) as [m'|e].
    + destruct IH as (s' & Hrun' & HR' & Hm' & Hro' & Hw' & Hsome').
      exists s'. rewrite (bind_ok _ _ _ _ _ Hrun).
      split_and!; try done; congruence.
    + destruct IH as (s' & Hrun'). exists s'.
      by rewrite (bind_ok _ _ _ _ _ Hrun).
  - exists s. by rewrite (bind_raise _ _ _ _ _ Hbody).
Qed.

(** The first access of [extend] or [update] to the encoder. *)
Lemma Rep_with_blank_index (s : store) (u0 : nat) :
  Rep key s u0 [] → chunks_index s = None →
  Rep key (with_index s ChunkIdEncoder.blank) u0 [].
Proof. intros [] E. by split. Qed.

Lemma run_extend (s : store) (u0 n : nat) (groups : list (list serialized))
    (m : TensorMeta.t) (samples_dtype : np.dtype) (samples : list serialized) :
  Rep key s u0 groups → meta_blob s = Some m → read_only s = false →
  (chunks_index s = None → TensorMeta.length m ≤ 1)%nat →
  distinct_keys key u0 n → (length groups + length samples ≤ n)%nat →
  Forall (λ x : serialized, len x.1 ≤ max_size_of m) samples →
  match meta_after (meta_with_dtype m samples_dtype) samples with
  | Ok m' =>
      ∃ s', extend key samples_dtype samples s = (Ok tt, s')
            ∧ Rep key s' u0 (foldl (place (max_size_of m)) groups samples)
            ∧ meta_blob s' = Some m'
            ∧ read_only s' = false ∧ warnings s' = warnings s
            ∧ is_Some (chunks_index s')
  | Raise e => ∃ s', extend key samples_dtype samples s = (Raise e, s')
  end.
Proof.
  intros HR Hm Hro Hlen Hd Hn Hfit. unfold extend.
  rewrite (bind_ok _ _ s s tt) by (unfold check_readonly; by rewrite Hro).
  (* the encoder, created blank on first access *)
  assert (∃ s0 enc, chunk_id_encoder s = (Ok enc, s0)
            ∧ Rep key s0 u0 groups ∧ meta_blob s0 = Some m
            ∧ read_only s0 = false ∧ warnings s0 = warnings s
            ∧ is_Some (chunks_index s0)) as (s0 & enc & Hrun0 & HR0 & Hm0 & Hro0 & Hw0 & Hsome0).
  { destruct (chunks_index s) as [enc|] eqn:E.
    - exists s, enc. rewrite (run_chunk_id_encoder _ _ E).
      by split_and!.
    - exists (with_index s ChunkIdEncoder.blank), ChunkIdEncoder.blank.
      rewrite (run_chunk_id_encoder_blank _ _ E Hm).
      case_bool_decide as Hl; [specialize (Hlen eq_refl); lia|].
      pose proof (Rep_nil_index _ _ _ _ HR E) as ->.
      split_and!; try done. by apply Rep_with_blank_index. }
  rewrite (bind_ok _ _ _ _ _ Hrun0).
  rewrite (bind_ok _ _ s0 s0 tt) by done.
  rewrite (bind_ok _ _ _ _ _ (run_tensor_meta _ _ Hm0)).
  set (m0 := meta_with_dtype m samples_dtype).
  set (s1 := with_meta s0 m0).
  assert (max_size_of m0 = max_size_of m) as Hmax.
  { unfold m0, meta_with_dtype. by destruct (TensorMeta.dtype m). }
  rewrite (bind_ok _ _ s0 s1 tt).
  2:{ unfold s1, m0, meta_with_dtype.
      destruct (TensorMeta.dtype m); [|done].
      by rewrite (with_meta_id _ _ Hm0). }
  assert (meta_blob s1 = Some m0) as Hm1 by done.
  assert (Rep key s1 u0 groups) as HR1 by (destruct HR0; by split).
  rewrite (bind_ok _ _ _ _ _ (run_min_chunk_size _ _ Hm1)).
  pose proof (run_extend_loop samples s1 u0 n groups m0 HR1 Hm1 Hsome0 Hd Hn) as Hloop.
  rewrite Hmax in Hloop. specialize (Hloop Hfit).
  destruct (meta_after m0 samples) as [m'|e].
  - destruct Hloop as (s' & Hrun' & HR' & Hm' & Hro' & Hw' & Hsome').
    exists s'. rewrite (bind_ok _ _ _ _ _ Hrun').
    split_and!; try done; simpl in *; congruence.
  - destruct Hloop as (s' & Hrun'). exists s'.
    by rewrite (bind_raise _ _ _ _ _ Hrun').
Qed.

End Extend.

(** ** Reading from a store that represents a list of chunks *)

Section Read.

Context `{Externals}.
Variable key : string.

Local Abbreviation key_of i := (chunk_key_of key (uuid4 i)).

Lemma run_get_chunk_for_sample (s : store) (u0 : nat)
    (groups : list (list serialized)) (g i j : nat) latest :
  Rep key s u0 groups → locate groups g = Some (i, j) →
  get_chunk_for_sample key g
    (ChunkIdEncoder.mk (table_from u0 groups 0) latest) s
  = (Ok (key_of (u0 + i)), s).
Proof.
  intros HR Hloc. unfold get_chunk_for_sample.
  destruct (locate_Some _ _ _ _ Hloc) as (l & Hl & _).
  unfold lift. unfold mbind at 1, M_bind at 1.
  rewrite (getitem_table _ _ _ _ _ _ (rep_nonempty _ _ _ _ HR) Hloc).
  unfold get_cachable_chunk.
  rewrite (bind_ok _ _ s s (key_of (u0 + i))); [done|].
  rewrite (bind_ok _ _ s s s) by done.
  fold (chunk_key_of key (uuid4 (u0 + i))).
  by rewrite (rep_chunks _ _ _ _ HR _ _ Hl).
Qed.

Lemma run_get_chunk_for_sample_out_of_range (s : store) (u0 : nat)
    (groups : list (list serialized)) (g : nat) latest :
  Rep key s u0 groups → locate groups g = None →
  get_chunk_for_sample key g
    (ChunkIdEncoder.mk (table_from u0 groups 0) latest) s
  = (Raise IndexError, s).
Proof.
  intros HR Hloc. unfold get_chunk_for_sample.
  unfold lift. unfold mbind at 1, M_bind at 1.
  by rewrite (getitem_table_out_of_range _ _ _ _ (rep_nonempty _ _ _ _ HR) Hloc).
Qed.

Lemma run_read_sample_from_chunk (s : store) (u0 : nat)
    (groups : list (list serialized)) (m : TensorMeta.t) (g i j : nat)
    (l : list serialized) (x : serialized) (cast : bool) :
  Rep key s u0 groups → meta_blob s = Some m →
  locate groups g = Some (i, j) → groups !! i = Some l → l !! j = Some x →
  read_sample_from_chunk g (key_of (u0 + i)) cast s
  = (array_of_sample m cast x, s).
Proof.
  intros HR Hm Hloc Hl Hx.
  assert (is_Some (chunks_index s)) as Hsome.
  { destruct (chunks_index s) eqn:E; [eauto|].
    by rewrite (Rep_nil_index _ _ _ _ HR E) in Hl. }
  pose proof (rep_index_Some _ _ _ _ HR Hsome) as E.
  unfold read_sample_from_chunk, array_of_sample.
  rewrite !(bind_ok _ _ _ _ _ (run_tensor_meta _ _ Hm)).
  rewrite (bind_ok _ _ _ _ _ (run_chunk_id_encoder _ _ E)).
  rewrite (bind_ok _ _ _ _ _ (run_deref _ _ _ (rep_chunks _ _ _ _ HR _ _ Hl))).
  unfold lift. unfold mbind at 1, M_bind at 1.
  rewrite (translate_table _ _ _ _ _ _ (rep_nonempty _ _ _ _ HR) Hloc).
  simpl.
  assert (l.*2 !! j = Some x.2) as Hshape
    by (by rewrite list_lookup_fmap, Hx).
  rewrite (bind_ok _ _ s s x.2) by (by rewrite Hshape).
  rewrite (bind_ok _ _ s s _)
    by (by rewrite (byte_positions_from_lookup _ _ _ _ Hx)).
  simpl. rewrite (slice_data_of _ _ _ Hx).
  destruct (len x.1 =? 0); [done|].
  destruct (TensorMeta.sample_compression m); [|done].
  rewrite (bind_ok _ _ _ _ _ (run_tensor_meta _ _ Hm)).
  destruct (cast && _); [|done].
  by rewrite (bind_ok _ _ _ _ _ (run_tensor_meta _ _ Hm)).
Qed.

(** Reading a sample the store holds. *)
Lemma run_read (s : store) (u0 : nat) (groups : list (list serialized))
    (m : TensorMeta.t) (g : nat) (x : serialized) :
  Rep key s u0 groups → meta_blob s = Some m →
  concat groups !! g = Some x →
  read key g s = (array_of_sample m true x, s).
Proof.
  intros HR Hm Hx.
  destruct (locate_is_Some groups g) as [[i j] Hloc];
    [by eapply lookup_lt_Some|].
  destruct (locate_Some _ _ _ _ Hloc) as (l & Hl & _ & _ & Hlook).
  rewrite Hx in Hlook.
  assert (is_Some (chunks_index s)) as Hsome.
  { destruct (chunks_index s) eqn:E; [eauto|].
    by rewrite (Rep_nil_index _ _ _ _ HR E) in Hl. }
  pose proof (rep_index_Some _ _ _ _ HR Hsome) as E.
  unfold read.
  rewrite (bind_ok _ _ _ _ _ (run_chunk_id_encoder _ _ E)).
  rewrite (bind_ok _ _ _ _ _ (run_get_chunk_for_sample _ _ _ _ _ _ _ HR Hloc)).
  by apply (run_read_sample_from_chunk _ _ groups _ _ _ j l).
Qed.

End Read.

(** ** [update] on a store that represents a list of chunks *)

Section Update.

Context `{Externals}.
Variable key : string.

Local Abbreviation key_of i := (chunk_key_of key (uuid4 i)).

Local Arguments nbytes_trace : simpl never.

Lemma replace_sample_lengths (groups : list (list serialized)) (g : nat)
    (x : serialized) :
  length <$> replace_sample groups g x = length <$> groups.
Proof.
  unfold replace_sample. destruct (locate groups g) as [[i j]|]; [|done].
  destruct (groups !! i) as [l|] eqn:Hl; [|done].
  rewrite list_fmap_insert, length_insert.
  apply list_insert_id. by rewrite list_lookup_fmap, Hl.
Qed.

Lemma replace_sample_length (groups : list (list serialized)) (g : nat)
    (x : serialized) :
  length (replace_sample groups g x) = length groups.
Proof.
  rewrite <- (length_fmap length), replace_sample_lengths.
  apply length_fmap.
Qed.

Lemma concat_replace_sample (groups : list (list serialized)) (g : nat)
    (x : serialized) :
  concat (replace_sample groups g x) = <[g := x]> (concat groups).
Proof.
  unfold replace_sample. destruct (locate groups g) as [[i j]|] eqn:Hloc.
  - destruct (locate_Some _ _ _ _ Hloc) as (l & Hl & _).
    rewrite Hl. by apply concat_insert_located.
  - apply locate_None in Hloc. by rewrite list_insert_ge.
Qed.

Lemma run_update_sample_body (s : store) (u0 n : nat)
    (groups : list (list serialized)) (m : TensorMeta.t)
    (indices : list nat) (locals : update_locals) (i : nat) (x : serialized) :
  Rep key s u0 groups → meta_blob s = Some m →
  chunks_index s = Some (ChunkIdEncoder.mk (table_from u0 groups 0) None) →
  distinct_keys key u0 n → (length groups ≤ n)%nat →
  let body := _update_sample_body key indices
                (ChunkIdEncoder.mk (table_from u0 groups 0) None) locals (i, x) in
  match indices !! i with
  | None => body s = (Raise IndexError, s)
  | Some g =>
      match locate groups g with
      | None => body s = (Raise IndexError, s)
      | Some (gi, _) =>
          match TensorMeta.update_shape_interval m x.2 with
          | Raise e => body s = (Raise e, s)
          | Ok m1 =>
              ∃ s', body s
                    = (Ok (mk_update_locals
                             ({[key_of (u0 + gi)]} ∪ updated_chunks locals)
                             (chunks_nbytes_after_updates locals
                              ++ nbytes_trace groups [(g, x)])), s')
                    ∧ Rep key s' u0 (replace_sample groups g x)
                    ∧ meta_blob s' = Some m1
                    ∧ chunks_index s' = chunks_index s
                    ∧ read_only s' = read_only s ∧ warnings s' = warnings s
                    ∧ is_Some (chunks s' !! key_of (u0 + gi))
                    ∧ (∀ k, is_Some (chunks s !! k) → is_Some (chunks s' !! k))
          end
      end
  end.
Proof.
  intros HR Hm E Hd Hn body. subst body. destruct x as [buffer shape].
  unfold _update_sample_body. simpl.
  destruct (indices !! i) as [g|]; [|done].
  destruct (locate groups g) as [[gi j]|] eqn:Hloc.
  2:{ by rewrite (bind_raise _ _ _ _ _
                    (run_get_chunk_for_sample_out_of_range _ _ _ _ _ _ HR Hloc)). }
  destruct (locate_Some _ _ _ _ Hloc) as (l & Hl & Hj & _).
  rewrite (bind_ok _ _ _ _ _ (run_get_chunk_for_sample key _ _ _ _ _ _ None HR Hloc)).
  rewrite (bind_lift_ok _ _ _ j)
    by (apply (translate_table _ _ _ _ gi); [apply (rep_nonempty _ _ _ _ HR)|done]).
  rewrite (bind_ok _ _ _ _ _ (run_tensor_meta _ _ Hm)).
  destruct (TensorMeta.update_shape_interval m shape) as [m1|e] eqn:E1;
    [|by rewrite (bind_lift_raise _ _ _ e)].
  rewrite (bind_lift_ok _ _ _ m1) by done.
  rewrite (bind_ok _ _ s (with_meta s m1) tt) by done.
  set (l' := <[j := (buffer, shape)]> l).
  set (s1 := with_chunk (with_meta s m1) (key_of (u0 + gi)) (chunk_of l')).
  assert (replace_sample groups g (buffer, shape) = <[gi := l']> groups) as Hrep.
  { unfold replace_sample. by rewrite Hloc, Hl. }
  assert (Rep key s1 u0 (<[gi := l']> groups)) as HR1.
  { assert (Rep key (with_meta s m1) u0 groups) as HR0
      by (destruct HR; by split).
    apply (Rep_with_chunk key _ u0 n gi groups l l' HR0 Hd Hn Hl).
    - intros E'. apply (f_equal length) in E'. unfold l' in E'.
      rewrite length_insert in E'. simpl in E'. lia.
    - simpl. by rewrite E.
    - unfold l'. by rewrite length_insert. }
  rewrite (bind_ok _ _ (with_meta s m1) s1 tt).
  2:{ unfold chunk_update_sample.
      assert (chunks (with_meta s m1) !! key_of (u0 + gi) = Some (chunk_of l)) as Hc
        by exact (rep_chunks _ _ _ _ HR _ _ Hl).
      rewrite (bind_ok _ _ _ _ _ (run_deref _ _ _ Hc)).
      by rewrite (bind_lift_ok _ _ _ (chunk_of l'))
        by (by apply update_sample_chunk_of). }
  assert (gi < length groups)%nat as Hgi by (by eapply lookup_lt_Some).
  destruct (last groups) as [ll|] eqn:Hlast;
    [|apply last_None in Hlast; subst; simpl in Hgi; lia].
  assert (chunks_index s1
          = Some (ChunkIdEncoder.mk (table_from u0 groups 0) None)) as Ei by done.
  rewrite (bind_ok _ _ _ _ _
             (run_last_chunk_key key _ _ _ Ei
                (get_name_for_last_chunk _ _ _ _ Hlast))).
  fold (chunk_key_of key (uuid4 (u0 + pred (length groups)))).
  assert (chunks s1 !! key_of (u0 + gi) = Some (chunk_of l')) as Hc1.
  { unfold s1. simpl. by rewrite lookup_insert_eq. }
  assert (∀ k, is_Some (chunks s !! k) → is_Some (chunks s1 !! k)) as Hkeep.
  { intros k Hk. unfold s1. simpl.
    destruct (decide (key_of (u0 + gi) = k)) as [->|Hne].
    - rewrite lookup_insert_eq. eauto.
    - by rewrite lookup_insert_ne. }
  assert (<[gi := l']> groups !! gi = Some l') as Hl'
    by (by apply list_lookup_insert_eq).
  assert (nbytes_trace groups [(g, (buffer, shape))]
          = if bool_decide (gi ≠ pred (length groups))
            then [Chunk.nbytes (chunk_of l')] else []) as ->.
  { unfold nbytes_trace. rewrite Hloc, Hrep, Hl', app_nil_r. done. }
  rewrite Hrep.
  destruct (decide (gi = pred (length groups))) as [Heq|Hneq].
  - rewrite (bool_decide_eq_false_2 (key_of (u0 + gi) ≠ _))
      by (subst gi; naive_solver).
    rewrite (bool_decide_eq_false_2 (gi ≠ _)) by naive_solver.
    exists s1. rewrite app_nil_r. by split_and!.
  - rewrite (bool_decide_eq_true_2 (key_of (u0 + gi) ≠ _)).
    2:{ intros Ek. apply (distinct_keys_inj key u0 n) in Ek; [lia|done|lia|lia]. }
    rewrite (bool_decide_eq_true_2 (gi ≠ _)) by done.
    rewrite (bind_ok _ _ _ _ _ (run_deref _ _ _ Hc1)).
    exists s1. by split_and!.
Qed.

Lemma same_tensor_refl (m : TensorMeta.t) : same_tensor m m.
Proof. done. Qed.

Lemma same_tensor_trans (m1 m2 m3 : TensorMeta.t) :
  same_tensor m1 m2 → same_tensor m2 m3 → same_tensor m1 m3.
Proof. unfold same_tensor. intros (?&?&?&?) (?&?&?&?). split_and!; congruence. Qed.

Lemma same_tensor_update_shape_interval (m m' : TensorMeta.t) (shape : shape_t) :
  TensorMeta.update_shape_interval m shape = Ok m' → same_tensor m m'.
Proof.
  unfold TensorMeta.update_shape_interval. intros E.
  repeat case_bool_decide; by simplify_eq.
Qed.

Lemma same_tensor_max_size (m m' : TensorMeta.t) :
  same_tensor m m' → max_size_of m' = max_size_of m.
Proof. intros (_&_&E&_). unfold max_size_of. by rewrite E. Qed.

Lemma run_update_loop (indices : list nat) (u0 n : nat)
    (enc : ChunkIdEncoder.t) (samples : list serialized) :
  ∀ (k : nat) (s s' : store) (locals locals' : update_locals)
    (groups : list (list serialized)) (m : TensorMeta.t),
  Rep key s u0 groups → meta_blob s = Some m →
  chunks_index s = Some enc →
  enc = ChunkIdEncoder.mk (table_from u0 groups 0) None →
  distinct_keys key u0 n → (length groups ≤ n)%nat →
  (∀ c, c ∈ updated_chunks locals → is_Some (chunks s !! c)) →
  for_fold (imap (λ i x, ((k + i)%nat, x)) samples) locals
           (_update_sample_body key indices enc) s = (Ok locals', s') →
  let updates := zip (drop k indices) samples in
  Rep key s' u0 (replace_samples groups updates)
  ∧ (∃ m', meta_blob s' = Some m' ∧ same_tensor m m')
  ∧ chunks_index s' = Some enc
  ∧ read_only s' = read_only s ∧ warnings s' = warnings s
  ∧ chunks_nbytes_after_updates locals'
    = chunks_nbytes_after_updates locals ++ nbytes_trace groups updates
  ∧ (∀ c, c ∈ updated_chunks locals' → is_Some (chunks s' !! c)).
Proof.
  induction samples as [|x samples IH];
    intros k s s' locals locals' groups m HR Hm E Henc Hd Hn Hup Hrun updates.
  { simpl in Hrun. injection Hrun as <- <-. subst updates.
    rewrite zip_with_nil_r. simpl. rewrite app_nil_r.
    split_and!; try done. by exists m. }
  rewrite imap_cons in Hrun. simpl in Hrun.
  apply bind_inv_ok in Hrun as (locals1 & s1 & Hbody & Hrest).
  rewrite Nat.add_0_r in Hbody. subst enc.
  pose proof (run_update_sample_body s u0 n groups m indices locals k x
                HR Hm E Hd Hn) as Hstep. simpl in Hstep.
  destruct (indices !! k) as [g|] eqn:Hg; [|congruence].
  destruct (locate groups g) as [[gi j]|] eqn:Hloc; [|congruence].
  destruct (TensorMeta.update_shape_interval m x.2) as [m1|e] eqn:E1; [|congruence].
  destruct Hstep as (s1' & Hbody' & HR1 & Hm1 & Hi1 & Hro1 & Hw1 & Hc1 & Hkeep).
  rewrite Hbody in Hbody'. injection Hbody' as Hlocals Hs. subst s1'.
  assert (table_from u0 (replace_sample groups g x) 0 = table_from u0 groups 0)
    as Htable by (apply table_from_lengths, replace_sample_lengths).
  rewrite (imap_ext _ (λ i y, ((S k + i)%nat, y))) in Hrest
    by (intros; simpl; f_equal; lia).
  specialize (IH (S k) s1 s' locals1 locals' (replace_sample groups g x) m1 HR1 Hm1).
  rewrite Hi1, E, Htable in IH.
  specialize (IH eq_refl eq_refl Hd).
  rewrite replace_sample_length in IH. specialize (IH Hn).
  destruct IH as (HR' & (m' & Hm' & Hsame) & Hi' & Hro' & Hw' & Htr' & Hup').
  { rewrite Hlocals. simpl. intros c Hc. apply elem_of_union in Hc as [Hc|Hc].
    - apply elem_of_singleton in Hc. by subst c.
    - by apply Hkeep, Hup. }
  { exact Hrest. }
  subst updates. rewrite (drop_S _ _ _ Hg). simpl.
  split_and!; try done; try congruence.
  - exists m'. split; [done|].
    eapply same_tensor_trans; [|exact Hsame].
    by eapply same_tensor_update_shape_interval.
  - rewrite Htr', Hlocals. simpl. rewrite <- app_assoc. f_equal.
    unfold nbytes_trace at 1. fold nbytes_trace. rewrite Hloc.
    unfold nbytes_trace at 2. rewrite Hloc. by rewrite app_nil_r.
Qed.

Lemma run_reinsert_chunks (cs : list string) (s : store) :
  (∀ c, c ∈ cs → is_Some (chunks s !! c)) →
  for_each cs (λ chunk, c ← deref chunk; set_chunk chunk c) s = (Ok tt, s).
Proof.
  induction cs as [|c cs IH]; intros Hcs; simpl; [done|].
  destruct (Hcs c) as [v Hv]; [by left|].
  rewrite (bind_ok _ _ s s tt).
  - apply IH. intros c' Hc'. apply Hcs. by right.
  - rewrite (bind_ok _ _ _ _ _ (run_deref _ _ _ Hv)).
    unfold set_chunk, modify. by rewrite (with_chunk_id _ _ _ Hv).
Qed.

Lemma run_warn_loop (l : list Z) (lower upper : Q) (s : store) :
  _warn_loop l lower upper s
  = (Ok tt,
     if existsb (λ nbytes, Qlt_bool upper (inject_Z nbytes)
                           || Qlt_bool (inject_Z nbytes) lower) l
     then with_warning s SUBOPTIMAL_CHUNKS_WARNING else s).
Proof.
  induction l as [|nbytes l IH]; simpl; [done|].
  destruct (Qlt_bool upper (inject_Z nbytes)
            || Qlt_bool (inject_Z nbytes) lower); [done|apply IH].
Qed.

Lemma run_warn_if_suboptimal_chunks (l : list Z) (min_size max_size : Z)
    (s : store) :
  _warn_if_suboptimal_chunks l min_size max_size s
  = (Ok tt,
     if existsb (suboptimal min_size max_size) l
     then with_warning s SUBOPTIMAL_CHUNKS_WARNING else s).
Proof. unfold _warn_if_suboptimal_chunks. apply run_warn_loop. Qed.

End Update.

(** ** The ceiling count *)

Section Ceiling.

Lemma min_chunk_ct_div (max_size size : Z) :
  0 < max_size →
  _min_chunk_ct_for_data_size max_size size = - ((- size) `div` max_size).
Proof.
  intros Hpos. unfold _min_chunk_ct_for_data_size.
  destruct max_size as [|p|p]; try lia.
  unfold Qceiling, Qfloor, Qdiv, Qmult, Qinv, Qopp, inject_Z. simpl.
  rewrite Z.mul_1_r. done.
Qed.

(** [ct = ceil(size / max)]: the least [ct] with [size ≤ max * ct]. *)
Lemma min_chunk_ct_spec (max_size size : Z) :
  0 < max_size →
  max_size * (_min_chunk_ct_for_data_size max_size size - 1) < size
  ∧ size ≤ max_size * _min_chunk_ct_for_data_size max_size size.
Proof.
  intros Hpos. rewrite min_chunk_ct_div by done.
  pose proof (Z.div_mod (- size) max_size ltac:(lia)).
  pose proof (Z.mod_pos_bound (- size) max_size Hpos).
  nia.
Qed.

Lemma min_chunk_ct_unique (max_size size ct : Z) :
  0 < max_size →
  max_size * (ct - 1) < size → size ≤ max_size * ct →
  _min_chunk_ct_for_data_size max_size size = ct.
Proof.
  intros Hpos Hlo Hhi.
  destruct (min_chunk_ct_spec max_size size Hpos) as [Hlo' Hhi']. nia.
Qed.

(** A buffer that merges and is no longer than a chunk fits in what is
    left of the last chunk. *)
Lemma merge_leaves_room (max_size b s : Z) :
  0 ≤ b → 0 ≤ s → b ≤ max_size →
  s < max_size `div` 2 →
  _min_chunk_ct_for_data_size max_size (b + s)
  = _min_chunk_ct_for_data_size max_size b →
  b ≤ max_size - s.
Proof.
  intros Hb Hs Hmax Hunder Hct.
  assert (0 < max_size) as Hpos.
  { pose proof (Z.div_mod max_size 2 ltac:(lia)).
    pose proof (Z.mod_pos_bound max_size 2 ltac:(lia)). lia. }
  destruct (decide (b = 0)) as [->|Hnz].
  - rewrite (min_chunk_ct_unique max_size 0 0) in Hct by lia.
    destruct (min_chunk_ct_spec max_size (0 + s) Hpos) as [_ Hhi].
    rewrite Hct in Hhi. lia.
  - rewrite (min_chunk_ct_unique max_size b 1) in Hct by lia.
    destruct (min_chunk_ct_spec max_size (b + s) Hpos) as [_ Hhi].
    rewrite Hct in Hhi. lia.
Qed.

End Ceiling.

(** ** Contents of a store across calls *)

Section Contents.

Context `{Externals}.
Variable key : string.

Lemma place_keeps_sample (max_size : Z) (groups : list (list serialized))
    (x : serialized) :
  len x.1 ≤ max_size →
  concat (place max_size groups x) = concat groups ++ [x].
Proof.
  intros Hfit. destruct (merges max_size groups x.1) eqn:Hmerge.
  - unfold merges in Hmerge.
    destruct (last groups) as [l|] eqn:Hl; [|done].
    rewrite (place_merge _ _ l) by (by unfold merges; rewrite ?Hl).
    apply andb_prop in Hmerge as [Hunder Hct].
    apply Z.ltb_lt in Hunder. apply Z.eqb_eq in Hct.
    rewrite merged_part_all.
    2:{ apply merge_leaves_room; try done; apply len_nonneg. }
    destruct (last_Some groups l) as [[front ->] _]; [done|].
    rewrite length_app. simpl.
    replace (pred (length front + 1)) with (length front + 0)%nat by lia.
    rewrite insert_app_r. simpl. rewrite !concat_app. simpl.
    rewrite !app_nil_r, <- app_assoc. by destruct x.
  - rewrite place_no_merge by done. rewrite concat_app. simpl. done.
Qed.

Lemma foldl_place_keeps_samples (max_size : Z)
    (samples : list serialized) (groups : list (list serialized)) :
  Forall (λ x : serialized, len x.1 ≤ max_size) samples →
  concat (foldl (place max_size) groups samples) = concat groups ++ samples.
Proof.
  revert groups. induction samples as [|x samples IH]; intros groups Hfit; simpl.
  - by rewrite app_nil_r.
  - apply Forall_cons in Hfit as [Hx Hfit].
    rewrite IH by done. rewrite place_keeps_sample by done.
    by rewrite <- app_assoc.
Qed.

Lemma concat_replace_samples (updates : list (nat * serialized))
    (groups : list (list serialized)) :
  concat (replace_samples groups updates)
  = foldl (λ c gx, <[gx.1 := gx.2]> c) (concat groups) updates.
Proof.
  revert groups. induction updates as [|[g x] updates IH]; intros groups; [done|].
  unfold replace_samples in *. simpl. rewrite IH.
  by rewrite concat_replace_sample.
Qed.

Lemma replace_samples_length (updates : list (nat * serialized))
    (groups : list (list serialized)) :
  length (replace_samples groups updates) = length groups.
Proof.
  revert groups. induction updates as [|[g x] updates IH]; intros groups; [done|].
  unfold replace_samples in *. simpl. rewrite IH.
  apply replace_sample_length.
Qed.

Lemma meta_after_same (samples : list serialized) (m m' : TensorMeta.t) :
  meta_after m samples = Ok m' →
  TensorMeta.dtype m' = TensorMeta.dtype m
  ∧ TensorMeta.sample_compression m' = TensorMeta.sample_compression m
  ∧ TensorMeta.max_chunk_size m' = TensorMeta.max_chunk_size m.
Proof.
  revert m. induction samples as [|x samples IH]; intros m E; simpl in E.
  - by simplify_eq.
  - destruct (TensorMeta.update_shape_interval m x.2) as [m1|] eqn:E1; [|done].
    destruct (IH _ E) as (Hd & Hc & Hs). simpl in *.
    destruct (same_tensor_update_shape_interval _ _ _ E1) as (?&?&?&?).
    split_and!; congruence.
Qed.

End Contents.

(** ** Whole calls on a store that represents a list of chunks *)

Section Calls.

Context `{Externals}.
Variable key : string.

Lemma num_samples_rep (s : store) (u0 : nat) (groups : list (list serialized)) :
  Rep key s u0 groups → is_Some (chunks_index s) →
  num_samples s = (Ok (length (concat groups)), s).
Proof.
  intros HR Hsome. pose proof (rep_index_Some _ _ _ _ HR Hsome) as E.
  rewrite (run_num_samples _ _ E).
  by rewrite (num_samples_table _ _ _ (rep_nonempty _ _ _ _ HR)).
Qed.

(** What a successful [_update_sample] has done. *)
Lemma run_update_sample (s s' : store) (u0 n : nat)
    (groups : list (list serialized)) (m : TensorMeta.t)
    (index : Index.t) (samples : samples_arg) :
  Rep key s u0 groups → meta_blob s = Some m → is_Some (chunks_index s) →
  distinct_keys key u0 n → (length groups ≤ n)%nat →
  _update_sample key index samples s = (Ok tt, s') →
  ∃ new m',
    _make_sequence samples (Index.length index (length (concat groups))) = Ok new
    ∧ let updates := zip (Index.indices index (length (concat groups))) new in
      Rep key s' u0 (replace_samples groups updates)
      ∧ meta_blob s' = Some m' ∧ same_tensor m m'
      ∧ is_Some (chunks_index s')
      ∧ read_only s' = read_only s
      ∧ warnings s'
        = warnings s
          ++ (if existsb (suboptimal (max_size_of m `div` 2) (max_size_of m))
                         (nbytes_trace groups updates)
              then [SUBOPTIMAL_CHUNKS_WARNING] else []).
Proof.
  intros HR Hm Hsome Hd Hn Hrun.
  pose proof (rep_index_Some _ _ _ _ HR Hsome) as E.
  unfold _update_sample in Hrun.
  rewrite (bind_ok _ _ _ _ _ (run_tensor_meta _ _ Hm)) in Hrun.
  rewrite (bind_ok _ _ _ _ _ (run_chunk_id_encoder _ _ E)) in Hrun.
  rewrite (bind_ok _ _ _ _ _ (num_samples_rep _ _ _ HR Hsome)) in Hrun.
  destruct (_make_sequence samples
              (Index.length index (length (concat groups)))) as [new|e] eqn:Hseq;
    [|by rewrite (bind_lift_raise _ _ _ e) in Hrun].
  rewrite (bind_lift_ok _ _ _ new) in Hrun by done.
  rewrite (bind_ok _ _ _ _ _ (run_min_chunk_size _ _ Hm)) in Hrun.
  rewrite (bind_ok _ _ _ _ _ (num_samples_rep _ _ _ HR Hsome)) in Hrun.
  apply bind_inv_ok in Hrun as (locals & s1 & Hloop & Hrest).
  apply (run_update_loop key _ u0 n _ new 0 s s1 _ locals groups m
           HR Hm E eq_refl Hd Hn) in Hloop; [|simpl; set_solver].
  rewrite drop_0 in Hloop. simpl in Hloop.
  destruct Hloop as (HR1 & (m' & Hm1 & Hsame) & Hi1 & Hro1 & Hw1 & Htr & Hup).
  rewrite (bind_ok _ _ s1 s1 tt) in Hrest.
  2:{ apply run_reinsert_chunks. intros c Hc. apply Hup.
      by apply elem_of_elements. }
  rewrite (bind_ok _ _ s1 s1 tt) in Hrest
    by (by eapply run_synchronize_cache_no_chunks).
  rewrite (bind_ok _ _ s1 s1 tt) in Hrest by done.
  rewrite (bind_ok _ _ _ _ _ (run_min_chunk_size _ _ Hm1)) in Hrest.
  rewrite (bind_ok _ _ _ _ _ (run_max_chunk_size _ _ Hm1)) in Hrest.
  rewrite run_warn_if_suboptimal_chunks in Hrest.
  rewrite (same_tensor_max_size _ _ Hsame) in Hrest.
  rewrite Htr in Hrest. simpl in Hrest.
  exists new, m'. split; [done|]. simpl.
  destruct (existsb _ _); injection Hrest as <-; simpl;
    (split_and!;
     [ destruct HR1; by split | done | done | rewrite Hi1; eauto | done
     | rewrite Hw1, ?app_nil_r; done ]).
Qed.

(** The encoder after the first access of a mutating call. *)
Lemma run_chunk_id_encoder_rep (s s0 : store) (u0 : nat)
    (groups : list (list serialized)) (m : TensorMeta.t)
    (enc : ChunkIdEncoder.t) :
  Rep key s u0 groups → meta_blob s = Some m →
  chunk_id_encoder s = (Ok enc, s0) →
  Rep key s0 u0 groups ∧ meta_blob s0 = Some m
  ∧ read_only s0 = read_only s ∧ warnings s0 = warnings s
  ∧ is_Some (chunks_index s0).
Proof.
  intros HR Hm Hrun. destruct (chunks_index s) as [enc'|] eqn:E.
  - rewrite (run_chunk_id_encoder _ _ E) in Hrun. injection Hrun as <- <-.
    by split_and!.
  - rewrite (run_chunk_id_encoder_blank _ _ E Hm) in Hrun.
    case_bool_decide; [done|]. injection Hrun as <- <-.
    pose proof (Rep_nil_index _ _ _ _ HR E) as ->.
    split_and!; try done. by apply Rep_with_blank_index.
Qed.

(** What a successful [update] has done. *)
Lemma run_update (s s' : store) (u0 n : nat)
    (groups : list (list serialized)) (m : TensorMeta.t)
    (index : Index.t) (samples : samples_arg) :
  Rep key s u0 groups → meta_blob s = Some m →
  distinct_keys key u0 n → (length groups ≤ n)%nat →
  update key index samples s = (Ok tt, s') →
  ∃ new m',
    _make_sequence samples (Index.length index (length (concat groups))) = Ok new
    ∧ let updates := zip (Index.indices index (length (concat groups))) new in
      Rep key s' u0 (replace_samples groups updates)
      ∧ meta_blob s' = Some m' ∧ same_tensor m m'
      ∧ is_Some (chunks_index s')
      ∧ read_only s' = read_only s
      ∧ warnings s'
        = warnings s
          ++ (if existsb (suboptimal (max_size_of m `div` 2) (max_size_of m))
                         (nbytes_trace groups updates)
              then [SUBOPTIMAL_CHUNKS_WARNING] else []).
Proof.
  intros HR Hm Hd Hn Hrun. unfold update in Hrun.
  apply bind_inv_ok in Hrun as ([] & s0 & Hro & Hrun).
  unfold check_readonly in Hro. destruct (read_only s) eqn:Hro'; [done|].
  injection Hro as <-.
  apply bind_inv_ok in Hrun as (enc & s1 & Henc & Hrun).
  destruct (run_chunk_id_encoder_rep _ _ _ _ _ _ HR Hm Henc)
    as (HR1 & Hm1 & Hro1 & Hw1 & Hsome1).
  rewrite (bind_ok _ _ s1 s1 tt) in Hrun by done.
  destruct (Index.is_single_dim_effective index).
  - destruct (run_update_sample _ _ _ _ _ _ _ _ HR1 Hm1 Hsome1 Hd Hn Hrun)
      as (new & m' & Hseq & HR' & Hm' & Hsame & Hsome' & Hro2 & Hw2).
    exists new, m'. split; [done|]. simpl.
    split_and!; try done; congruence.
  - unfold _update_sample_subslice in Hrun.
    by destruct (negb _).
Qed.

(** What a successful [extend] has done. *)
Lemma run_extend_inv (s s' : store) (u0 n : nat)
    (groups : list (list serialized)) (m : TensorMeta.t)
    (samples_dtype : np.dtype) (samples : list serialized) :
  Rep key s u0 groups → meta_blob s = Some m →
  distinct_keys key u0 n → (length groups + length samples ≤ n)%nat →
  Forall (λ x : serialized, len x.1 ≤ max_size_of m) samples →
  extend key samples_dtype samples s = (Ok tt, s') →
  ∃ m',
    Rep key s' u0 (foldl (place (max_size_of m)) groups samples)
    ∧ meta_blob s' = Some m'
    ∧ meta_after (meta_with_dtype m samples_dtype) samples = Ok m'
    ∧ read_only s = false ∧ read_only s' = false
    ∧ warnings s' = warnings s
    ∧ is_Some (chunks_index s').
Proof.
  intros HR Hm Hd Hn Hfit Hrun.
  assert (read_only s = false) as Hro.
  { destruct (read_only s) eqn:Hro; [|done].
    unfold extend in Hrun.
    rewrite (bind_raise _ _ s s ReadOnly) in Hrun; [done|].
    unfold check_readonly. by rewrite Hro. }
  assert (chunks_index s = None → TensorMeta.length m ≤ 1)%nat as Hlen.
  { intros E. destruct (decide (TensorMeta.length m ≤ 1)%nat); [done|].
    unfold extend in Hrun.
    rewrite (bind_ok _ _ s s tt) in Hrun
      by (unfold check_readonly; by rewrite Hro).
    rewrite (bind_raise _ _ s s CorruptedMetaError) in Hrun; [done|].
    rewrite (run_chunk_id_encoder_blank _ _ E Hm).
    rewrite bool_decide_eq_true_2; [done|lia]. }
  pose proof (run_extend key s u0 n groups m samples_dtype samples
                HR Hm Hro Hlen Hd Hn Hfit) as Hext.
  destruct (meta_after (meta_with_dtype m samples_dtype) samples) as [m'|e].
  - destruct Hext as (s1 & Hrun1 & HR1 & Hm1 & Hro1 & Hw1 & Hsome1).
    rewrite Hrun in Hrun1. injection Hrun1 as <-.
    exists m'. by split_and!.
  - destruct Hext as (s1 & Hrun1). rewrite Hrun in Hrun1. done.
Qed.

End Calls.

(** ** Any sequence of calls *)

Section History.

Context `{Externals}.
Variable key : string.

Lemma Rep_fresh (s : store) :
  chunks_index s = None → Rep key s (uuid_calls s) [].
Proof.
  intros E. split; simpl; [by rewrite E|done|lia|done].
Qed.

Lemma meta_after_length (samples : list serialized) (m m' : TensorMeta.t) :
  meta_after m samples = Ok m' →
  TensorMeta.length m' = (TensorMeta.length m + length samples)%nat.
Proof.
  revert m. induction samples as [|x samples IH]; intros m E; simpl in E.
  - simplify_eq. simpl. lia.
  - destruct (TensorMeta.update_shape_interval m x.2) as [m1|] eqn:E1; [|done].
    rewrite (IH _ E). simpl.
    destruct (same_tensor_update_shape_interval _ _ _ E1) as (_&_&_&->). lia.
Qed.

Lemma max_size_of_meta_with_dtype (m : TensorMeta.t) (d : np.dtype) :
  max_size_of (meta_with_dtype m d) = max_size_of m.
Proof. unfold meta_with_dtype. by destruct (TensorMeta.dtype m). Qed.

Lemma dtype_meta_with_dtype (m : TensorMeta.t) (d : np.dtype)
    (samples : list serialized) :
  TensorMeta.dtype (meta_with_dtype m d)
  = dtype_step (TensorMeta.dtype m) (Extend d samples).
Proof.
  unfold meta_with_dtype, dtype_step.
  by destruct (TensorMeta.dtype m) eqn:E.
Qed.

Lemma contents_step_update (contents new : list serialized)
    (index : Index.t) (samples : samples_arg) :
  _make_sequence samples (Index.length index (length contents)) = Ok new →
  contents_step contents (Update index samples)
  = foldl (λ c gx, <[gx.1 := gx.2]> c) contents
          (zip (Index.indices index (length contents)) new).
Proof. intros E. unfold contents_step. by rewrite E. Qed.

Lemma appended_cons (o : op) (ops : list op) :
  appended (o :: ops)
  = (match o with
     | Extend _ samples => length samples
     | Update _ _ => 0
     end + appended ops)%nat.
Proof. done. Qed.

(** The invariant of the engine: after any sequence of successful calls
    the store represents chunks whose samples, read in order, are the
    expected contents. *)
Lemma run_ops_inv (ops : list op) :
  ∀ (s s' : store) (u0 n : nat) (groups : list (list serialized))
    (m : TensorMeta.t),
  Rep key s u0 groups → meta_blob s = Some m →
  distinct_keys key u0 n → (length groups + appended ops ≤ n)%nat →
  forallb (buffers_fit (max_size_of m)) ops = true →
  run_ops key ops s = (Ok tt, s') →
  ∃ groups' m',
    Rep key s' u0 groups' ∧ meta_blob s' = Some m'
    ∧ concat groups' = foldl contents_step (concat groups) ops
    ∧ TensorMeta.sample_compression m' = TensorMeta.sample_compression m
    ∧ max_size_of m' = max_size_of m
    ∧ TensorMeta.dtype m' = dtype_after (TensorMeta.dtype m) ops
    ∧ TensorMeta.length m' = (TensorMeta.length m + appended ops)%nat
    ∧ (length groups' ≤ length groups + appended ops)%nat.
Proof.
  induction ops as [|o ops IH]; intros s s' u0 n groups m HR Hm Hd Hn Hfit Hrun.
  { simpl in Hrun. injection Hrun as <-. exists groups, m.
    unfold appended. simpl. split_and!; try done; lia. }
  unfold run_ops in Hrun. simpl in Hrun.
  apply bind_inv_ok in Hrun as ([] & s1 & Hop & Hrun).
  simpl in Hfit. apply andb_prop in Hfit as [Hfit1 Hfit].
  rewrite appended_cons in Hn.
  destruct o as [samples_dtype samples|index samples]; simpl in Hop, Hfit1.
  - (* extend *)
    assert (Forall (λ x : serialized, len x.1 ≤ max_size_of m) samples) as Hfits.
    { apply Forall_forall. intros x Hx.
      rewrite forallb_forall in Hfit1.
      apply Z.leb_le, Hfit1. by apply list_elem_of_In. }
    assert (length groups + length samples ≤ n)%nat as Hn0 by lia.
    destruct (run_extend_inv key s s1 u0 n groups m samples_dtype samples
                HR Hm Hd Hn0 Hfits Hop)
      as (m1 & HR1 & Hm1 & Hafter & _ & _ & _ & _).
    destruct (meta_after_same _ _ _ Hafter) as (Hdt & Hcomp & Hmax).
    assert (max_size_of m1 = max_size_of m) as Hmax1.
    { rewrite (max_size_of_meta_after _ _ _ Hafter).
      apply max_size_of_meta_with_dtype. }
    pose proof (foldl_place_length (max_size_of m) groups samples) as Hlen.
    assert (length (foldl (place (max_size_of m)) groups samples)
            + appended ops ≤ n)%nat as Hn1 by lia.
    assert (forallb (buffers_fit (max_size_of m1)) ops = true) as Hfit'
      by (by rewrite Hmax1).
    destruct (IH s1 s' u0 n _ m1 HR1 Hm1 Hd Hn1 Hfit' Hrun)
      as (groups' & m' & HR' & Hm' & Hc & Hcomp' & Hmax' & Hdt' & Hl' & Hlen').
    exists groups', m'. rewrite appended_cons.
    split_and!; try done.
    + rewrite Hc. by rewrite foldl_place_keeps_samples.
    + rewrite Hcomp', Hcomp. unfold meta_with_dtype.
      by destruct (TensorMeta.dtype m).
    + congruence.
    + rewrite Hdt', Hdt. unfold dtype_after. simpl.
      by rewrite (dtype_meta_with_dtype _ _ samples).
    + rewrite Hl', (meta_after_length _ _ _ Hafter).
      unfold meta_with_dtype. destruct (TensorMeta.dtype m); simpl; lia.
    + lia.
  - (* update *)
    assert (length groups ≤ n)%nat as Hn0 by lia.
    destruct (run_update key s s1 u0 n groups m index samples
                HR Hm Hd Hn0 Hop)
      as (new & m1 & Hseq & HR1 & Hm1 & Hsame & _).
    pose proof (same_tensor_max_size _ _ Hsame) as Hmax1.
    destruct Hsame as (Hdt & Hcomp & _ & Hl).
    simpl in HR1.
    assert (length (replace_samples groups
              (zip (Index.indices index (length (concat groups))) new))
            + appended ops ≤ n)%nat as Hn1
      by (rewrite replace_samples_length; lia).
    assert (forallb (buffers_fit (max_size_of m1)) ops = true) as Hfit'
      by (by rewrite Hmax1).
    destruct (IH s1 s' u0 n _ m1 HR1 Hm1 Hd Hn1 Hfit' Hrun)
      as (groups' & m' & HR' & Hm' & Hc & Hcomp' & Hmax' & Hdt' & Hl' & Hlen').
    rewrite replace_samples_length in Hlen'.
    exists groups', m'. rewrite appended_cons.
    split_and!; try done; try congruence.
    + rewrite Hc, concat_replace_samples.
      change (foldl contents_step (concat groups) (Update index samples :: ops))
        with (foldl contents_step
                (contents_step (concat groups) (Update index samples)) ops).
      by rewrite (contents_step_update _ _ _ _ Hseq).
    + rewrite Hdt', Hdt. unfold dtype_after. simpl.
      by destruct (TensorMeta.dtype m).
    + lia.
Qed.

End History.

(** ** [numpy] over samples that can be read *)

Section Numpy.

Context `{Externals}.
Variable key : string.

Lemma read_unfold (s : store) (enc : ChunkIdEncoder.t) (g : nat) :
  chunks_index s = Some enc →
  read key g s
  = (chunk ← get_chunk_for_sample key g enc;
     read_sample_from_chunk g chunk true) s.
Proof.
  intros E. unfold read. by rewrite (bind_ok _ _ _ _ _ (run_chunk_id_encoder _ _ E)).
Qed.

Lemma run_numpy_loop (s : store) (enc : ChunkIdEncoder.t) (aslist : bool)
    (gs : list nat) (arrays : list np.ndarray) :
  chunks_index s = Some enc →
  Forall2 (λ g a, read key g s = (Ok a, s)) gs arrays →
  ∀ locals,
  for_fold gs locals (numpy_body key enc aslist) s
  = if aslist || uniform_from (last_shape locals) (np.shape <$> arrays)
    then (Ok (mk_numpy_locals
                (from_option Some (last_shape locals)
                             (last (np.shape <$> arrays)))
                (samples_read locals ++ arrays)), s)
    else (Raise DynamicTensorNumpyError, s).
Proof.
  intros E Hreads. induction Hreads as [|g a gs arrays Hread _ IH];
    intros locals.
  { simpl. rewrite orb_true_r, app_nil_r. destruct locals as [[l|] r]; done. }
  rewrite (read_unfold _ _ _ E) in Hread.
  apply bind_inv_ok in Hread as (chunk & s1 & Hchunk & Hread).
  assert (s1 = s) as ->.
  { unfold get_chunk_for_sample in Hchunk.
    destruct (ChunkIdEncoder.getitem enc g) as [id|e] eqn:Hid;
      [|by rewrite (bind_lift_raise _ _ _ e) in Hchunk].
    rewrite (bind_lift_ok _ _ _ id) in Hchunk by done.
    apply bind_inv_ok in Hchunk as (c & s2 & Hc & Hret).
    unfold get_cachable_chunk in Hc.
    rewrite (bind_ok _ _ s s s) in Hc by done.
    destruct (chunks s !! _); [|done].
    injection Hc as <- <-. by injection Hret as <- <-. }
  assert (numpy_body key enc aslist locals g s
          = if negb aslist
               && match last_shape locals with
                  | Some l => bool_decide (np.shape a ≠ l)
                  | None => false
                  end
            then (Raise DynamicTensorNumpyError, s)
            else (Ok (mk_numpy_locals (Some (np.shape a))
                        (samples_read locals ++ [a])), s)) as Hbody.
  { unfold numpy_body.
    rewrite (bind_ok _ _ _ _ _ Hchunk), (bind_ok _ _ _ _ _ Hread).
    by destruct (negb aslist && _). }
  assert (from_option Some (last_shape locals)
            (last (np.shape <$> a :: arrays))
          = from_option Some (Some (np.shape a)) (last (np.shape <$> arrays)))
    as ->.
  { destruct arrays as [|a' arrays']; [done|].
    rewrite !fmap_cons.
    destruct (last (np.shape a' :: _)) eqn:El; [|by apply last_None in El].
    change (last (np.shape a :: np.shape a' :: (np.shape <$> arrays')))
      with (last (np.shape a' :: (np.shape <$> arrays'))).
    by rewrite El. }
  replace (samples_read locals ++ a :: arrays)
    with ((samples_read locals ++ [a]) ++ arrays) by (by rewrite <- app_assoc).
  change (for_fold (g :: gs) locals (numpy_body key enc aslist) s)
    with ((numpy_body key enc aslist locals g
           ≫= λ locals', for_fold gs locals' (numpy_body key enc aslist)) s).
  change (uniform_from (last_shape locals) (np.shape <$> a :: arrays))
    with (match last_shape locals with
          | Some l => bool_decide (np.shape a = l)
          | None => true
          end && uniform_from (Some (np.shape a)) (np.shape <$> arrays)).
  destruct aslist; simpl in Hbody.
  - by rewrite (bind_ok _ _ _ _ _ Hbody), IH.
  - destruct (last_shape locals) as [l|] eqn:Hl.
    + destruct (decide (np.shape a = l)) as [Heq|Hne].
      * rewrite (bool_decide_eq_false_2 (np.shape a ≠ l)) in Hbody by naive_solver.
        rewrite (bool_decide_eq_true_2 (np.shape a = l)) by done.
        by rewrite (bind_ok _ _ _ _ _ Hbody), IH.
      * rewrite (bool_decide_eq_true_2 (np.shape a ≠ l)) in Hbody by done.
        rewrite (bool_decide_eq_false_2 (np.shape a = l)) by done.
        by rewrite (bind_raise _ _ _ _ _ Hbody).
    + by rewrite (bind_ok _ _ _ _ _ Hbody), IH.
Qed.

Lemma run_numpy (s : store) (enc : ChunkIdEncoder.t) (index : Index.t)
    (aslist : bool) (arrays : list np.ndarray) :
  chunks_index s = Some enc →
  Forall2 (λ g a, read key g s = (Ok a, s))
          (Index.indices index (ChunkIdEncoder.num_samples enc)) arrays →
  numpy key index aslist s
  = if aslist || uniform_from None (np.shape <$> arrays)
    then (_format_read_samples arrays index aslist, s)
    else (Raise DynamicTensorNumpyError, s).
Proof.
  intros E Hreads. unfold numpy.
  rewrite (bind_ok _ _ _ _ _ (run_num_samples _ _ E)).
  rewrite (bind_ok _ _ _ _ _ (run_chunk_id_encoder _ _ E)).
  pose proof (run_numpy_loop s enc aslist _ _ E Hreads (mk_numpy_locals None []))
    as Hloop. simpl in Hloop.
  destruct (aslist || uniform_from None (np.shape <$> arrays)).
  - by rewrite (bind_ok _ _ _ _ _ Hloop).
  - by rewrite (bind_raise _ _ _ _ _ Hloop).
Qed.

Lemma format_read_samples_not_dynamic (samples : list np.ndarray)
    (index : Index.t) (aslist : bool) :
  _format_read_samples samples index aslist ≠ Raise DynamicTensorNumpyError.
Proof.
  unfold _format_read_samples. by repeat case_match.
Qed.

Lemma uniform_from_Some (l : shape_t) (shapes : list shape_t) :
  uniform_from (Some l) shapes = true ↔ Forall (λ x, x = l) shapes.
Proof.
  revert l. induction shapes as [|x shapes IH]; intros l; simpl.
  - split; [by constructor|done].
  - rewrite andb_true_iff, bool_decide_eq_true, IH, Forall_cons. split.
    + intros [-> Hall]. done.
    + intros [-> Hall]. done.
Qed.

Lemma uniform_from_None (shapes : list shape_t) :
  uniform_from None shapes = true ↔ ¬ dynamic shapes.
Proof.
  destruct shapes as [|x shapes]; simpl.
  - split; [|done]. intros _ (i & j & a & b & Hi & _). done.
  - rewrite uniform_from_Some. split.
    + intros Hall (i & j & a & b & Hi & Hj & Hne).
      assert (∀ k c, (x :: shapes) !! k = Some c → c = x) as Hx.
      { intros [|k] c Hk; simpl in Hk; [by simplify_eq|].
        rewrite Forall_forall in Hall. apply Hall.
        by eapply list_elem_of_lookup_2. }
      apply Hne. by rewrite (Hx _ _ Hi), (Hx _ _ Hj).
    + intros Hnd. apply Forall_forall. intros y Hy.
      apply list_elem_of_lookup in Hy as [k Hk].
      destruct (decide (y = x)) as [|Hne]; [done|].
      exfalso. apply Hnd. exists (S k), 0%nat, y, x. by split_and!.
Qed.

Lemma not_uniform_from_Some (l : shape_t) (shapes : list shape_t) :
  uniform_from (Some l) shapes = false → dynamic (l :: shapes).
Proof.
  revert l. induction shapes as [|x shapes IH]; intros l Hu; [done|].
  simpl in Hu. destruct (decide (x = l)) as [->|Hne].
  - rewrite bool_decide_eq_true_2 in Hu by done. simpl in Hu.
    destruct (IH _ Hu) as (i & j & a & b & Hi & Hj & Hab).
    exists (S i), (S j), a, b. by split_and!.
  - exists 1%nat, 0%nat, x, l. by split_and!.
Qed.

Lemma not_uniform_from_None (shapes : list shape_t) :
  uniform_from None shapes = false → dynamic shapes.
Proof.
  destruct shapes as [|x shapes]; [done|]. simpl.
  apply not_uniform_from_Some.
Qed.

End Numpy.

(** ** The loop of [get_chunk_names] *)

Section ChunkNames.

Lemma search_None (rs : list (N * nat)) (g k : nat) :
  ChunkIdEncoder.search rs g k = None → Forall (λ r, (r.2 < g)%nat) rs.
Proof.
  revert k. induction rs as [|[id last_index] rs IH]; intros k Hs; simpl in *.
  - constructor.
  - destruct (Nat.leb_spec g last_index); [done|].
    constructor; [simpl; lia|by eapply IH].
Qed.

Lemma getitem_in_range (enc : ChunkIdEncoder.t) (g : nat) :
  (g < ChunkIdEncoder.num_samples enc)%nat →
  ∃ id, ChunkIdEncoder.getitem enc g = Ok id.
Proof.
  intros Hg. unfold ChunkIdEncoder.getitem.
  destruct (ChunkIdEncoder.search (ChunkIdEncoder.rows enc) g 0)
    as [[i id]|] eqn:Hs; [by eexists|].
  apply search_None in Hs. unfold ChunkIdEncoder.num_samples in Hg.
  destruct (last (ChunkIdEncoder.rows enc)) as [[id last_index]|] eqn:Hl; [|lia].
  rewrite last_lookup in Hl.
  eapply Forall_lookup_1 in Hs; [|exact Hl]. simpl in Hs. lia.
Qed.

Lemma chunk_names_of_S (enc : ChunkIdEncoder.t) (start k : nat) :
  chunk_names_of enc start (S k)
  = {[chunk_name_at enc start]} ∪ chunk_names_of enc (S start) k.
Proof. done. Qed.

Lemma run_get_chunk_names_loop (s : store) (enc : ChunkIdEncoder.t)
    (last_index target : nat) :
  chunks_index s = Some enc →
  (last_index ≤ ChunkIdEncoder.num_samples enc)%nat →
  ∀ (fuel sample_index : nat) (chunk_names : gset string),
  (last_index - sample_index ≤ fuel)%nat →
  ∃ k, (k ≤ last_index - sample_index)%nat
       ∧ get_chunk_names_loop fuel chunk_names sample_index last_index target s
         = (Ok (chunk_names ∪ chunk_names_of enc sample_index k), s)
       ∧ (size (chunk_names ∪ chunk_names_of enc sample_index k)
          ≤ size chunk_names `max` target)%nat
       ∧ ((k < last_index - sample_index)%nat →
          (target ≤ size (chunk_names ∪ chunk_names_of enc sample_index k))%nat)
       ∧ (∀ j, (j < k)%nat →
            (size (chunk_names ∪ chunk_names_of enc sample_index j) < target)%nat).
Proof.
  intros E Hlast. induction fuel as [|fuel IH];
    intros sample_index chunk_names Hfuel.
  - exists 0%nat. unfold chunk_names_of. simpl.
    rewrite (right_id_L ∅ (∪)). split_and!; [lia|done|lia|lia|lia].
  - simpl.
    destruct (decide (size chunk_names < target ∧ sample_index < last_index)%nat)
      as [[Hsize Hidx]|Hstop].
    + rewrite (bool_decide_eq_true_2 _ Hsize), (bool_decide_eq_true_2 _ Hidx).
      simpl.
      destruct (getitem_in_range enc sample_index ltac:(lia)) as [id Hid].
      rewrite (bind_ok _ _ _ _ _ (run_chunk_id_encoder _ _ E)).
      rewrite (bind_lift_ok _ _ _ id) by done.
      rewrite (bind_ok _ _ _ _ _ (run_chunk_id_encoder _ _ E)).
      destruct (IH (S sample_index)
                  ({[ChunkIdEncoder.name_from_id id]} ∪ chunk_names)
                  ltac:(lia))
        as (k & Hk & Hrun & Hsz & Hfull & Hmin).
      assert (chunk_name_at enc sample_index = ChunkIdEncoder.name_from_id id)
        as Hname by (unfold chunk_name_at; by rewrite Hid).
      assert (∀ j, chunk_names ∪ chunk_names_of enc sample_index (S j)
                   = {[ChunkIdEncoder.name_from_id id]} ∪ chunk_names
                     ∪ chunk_names_of enc (S sample_index) j) as Heq.
      { intros j. rewrite chunk_names_of_S, Hname.
        by rewrite (assoc_L (∪)), (comm_L (∪) chunk_names). }
      exists (S k). rewrite Heq. split_and!.
      * lia.
      * done.
      * pose proof (size_union_alt {[ChunkIdEncoder.name_from_id id]} chunk_names) as Hu.
        assert (size ({[ChunkIdEncoder.name_from_id id]} ∪ chunk_names)
                ≤ S (size chunk_names))%nat.
        { rewrite Hu, size_singleton.
          assert (chunk_names ∖ {[ChunkIdEncoder.name_from_id id]} ⊆ chunk_names)
            as Hsub by (by apply subseteq_difference_l).
          apply subseteq_size in Hsub. lia. }
        lia.
      * intros Hlt. apply Hfull. lia.
      * intros [|j] Hj.
        -- unfold chunk_names_of. simpl. by rewrite (right_id_L ∅ (∪)).
        -- rewrite Heq. apply Hmin. lia.
    + assert (bool_decide (size chunk_names < target)%nat
              && bool_decide (sample_index < last_index)%nat = false) as ->.
      { apply andb_false_iff.
        destruct (decide (size chunk_names < target)%nat);
          [right|left]; apply bool_decide_eq_false_2; [|done].
        intros ?. by apply Hstop. }
      exists 0%nat. unfold chunk_names_of. simpl.
      rewrite (right_id_L ∅ (∪)). split_and!; [lia|done|lia| |lia].
      intros Hlt. destruct (decide (size chunk_names < target)%nat); [|lia].
      exfalso. apply Hstop. split; [done|lia].
Qed.

End ChunkNames.

(** ** The chunks of a store *)

Section GroupsOf.

Context `{Externals}.
Variable key : string.

Lemma zip_with_positions (l : list serialized) (prefix : memoryview) :
  zip_with (λ (range : nat * nat) (shape : shape_t),
              (slice (prefix ++ data_of l) range.1 range.2, shape))
           (byte_positions_from l (length prefix)) (snd <$> l)
  = l.
Proof.
  revert prefix. induction l as [|[buffer shape] l IH]; intros prefix; [done|].
  simpl. f_equal.
  - f_equal. unfold slice, data_of. simpl.
    rewrite drop_app_length.
    replace (length prefix + length buffer - length prefix)%nat
      with (length buffer) by lia.
    by rewrite take_app_length.
  - specialize (IH (prefix ++ buffer)). rewrite length_app in IH.
    replace (prefix ++ data_of ((buffer, shape) :: l))
      with ((prefix ++ buffer) ++ data_of l)
      by (unfold data_of; rewrite fmap_cons; simpl; by rewrite app_assoc).
    exact IH.
Qed.

Lemma samples_of_chunk_of (l : list serialized) :
  samples_of_chunk (chunk_of l) = l.
Proof. apply (zip_with_positions l []). Qed.

Lemma omap_table (s : store) (rows_of groups : list (list serialized))
    (u first : nat) :
  length rows_of = length groups →
  (∀ i g, groups !! i = Some g →
          chunks s !! chunk_key_of key (uuid4 (u + i)) = Some (chunk_of g)) →
  omap (λ row : N * nat,
          samples_of_chunk <$> chunks s !! chunk_key_of key row.1)
       (table_from u rows_of first)
  = groups.
Proof.
  revert u first groups.
  induction rows_of as [|r rows_of IH]; intros u first [|g groups] Hlen Hc;
    try done.
  simpl. pose proof (Hc 0%nat g eq_refl) as H0. rewrite Nat.add_0_r in H0.
  rewrite H0. simpl. rewrite samples_of_chunk_of. f_equal.
  apply IH; [by injection Hlen|].
  intros i g' Hg'. specialize (Hc (S i) g' Hg').
  by replace (S u + i)%nat with (u + S i)%nat by lia.
Qed.

(** The store of a list of chunks has these chunks. *)
Lemma groups_of_rep (s : store) (u0 : nat) (groups : list (list serialized)) :
  Rep key s u0 groups → groups_of key s = groups.
Proof.
  intros HR. unfold groups_of.
  destruct (chunks_index s) as [enc|] eqn:E.
  - pose proof (rep_index_Some _ _ _ _ HR ltac:(by rewrite E)) as E'.
    rewrite E in E'. injection E' as ->. simpl.
    apply omap_table; [done|]. apply (rep_chunks _ _ _ _ HR).
  - symmetry. by eapply Rep_nil_index.
Qed.

(** What a history leaves. *)
Lemma history_rep (s0 s : store) (m0 : TensorMeta.t) (ops : list op) :
  History key s0 m0 ops s →
  ∃ m, Rep key s (uuid_calls s0) (groups_of key s)
       ∧ meta_blob s = Some m
       ∧ concat (groups_of key s) = contents_after ops
       ∧ TensorMeta.sample_compression m = TensorMeta.sample_compression m0
       ∧ max_size_of m = max_size_of m0
       ∧ TensorMeta.dtype m = dtype_after (TensorMeta.dtype m0) ops
       ∧ TensorMeta.length m = (TensorMeta.length m0 + appended ops)%nat
       ∧ (length (groups_of key s) ≤ appended ops)%nat.
Proof.
  intros [Hnew Hmeta Hkeys Hfit Hrun].
  destruct (run_ops_inv key ops s0 s (uuid_calls s0) (appended ops) [] m0
              (Rep_fresh key s0 Hnew) Hmeta Hkeys ltac:(simpl; lia) Hfit Hrun)
    as (groups & m & HR & Hm & Hc & Hcomp & Hmax & Hdt & Hlen & Hn).
  rewrite (groups_of_rep _ _ _ HR). exists m. by split_and!.
Qed.

Lemma array_of_original (m : TensorMeta.t) (x : serialized) :
  well_formed (TensorMeta.sample_compression m) (TensorMeta.dtype m) x →
  array_of_sample m true x
  = Ok (original_array (TensorMeta.sample_compression m) (TensorMeta.dtype m) x).
Proof.
  intros Hwf. unfold array_of_sample, original_array, well_formed in *.
  destruct (Z.eqb_spec (len x.1) 0) as [Hz|Hnz].
  - assert (x.1 = []) as Hnil.
    { unfold len in Hz. destruct x.1; [done|simpl in Hz; lia]. }
    destruct (TensorMeta.sample_compression m).
    + by rewrite bool_decide_eq_true_2.
    + unfold np.zeros. rewrite <- (Hwf eq_refl), Hz. simpl. by rewrite Hnil.
  - destruct (TensorMeta.sample_compression m).
    + rewrite (bool_decide_eq_false_2 (x.1 = []))
        by (intros Hnil; by rewrite Hnil in Hnz).
      done.
    + unfold np.frombuffer_reshape. rewrite (Hwf eq_refl).
      by rewrite Z.eqb_refl.
Qed.

Lemma run_ops_app (ops ops' : list op) (s s' : store) :
  run_ops key ops s = (Ok tt, s') →
  run_ops key (ops ++ ops') s = run_ops key ops' s'.
Proof.
  revert s. induction ops as [|o ops IH]; intros s Hrun.
  - simpl in Hrun. by injection Hrun as <-.
  - unfold run_ops in *. simpl in *.
    apply bind_inv_ok in Hrun as ([] & s1 & Hop & Hrun).
    rewrite (bind_ok _ _ _ _ _ Hop). by apply IH.
Qed.

Lemma appended_app (ops ops' : list op) :
  appended (ops ++ ops') = (appended ops + appended ops')%nat.
Proof.
  induction ops as [|o ops IH]; [done|].
  rewrite <- app_comm_cons, !appended_cons, IH. lia.
Qed.

(** A history goes on with one more successful call. *)
Lemma History_snoc (s0 s s' : store) (m0 : TensorMeta.t) (ops : list op)
    (o : op) :
  History key s0 m0 ops s →
  run_op key o s = (Ok tt, s') →
  distinct_keys key (uuid_calls s0) (appended (ops ++ [o])) →
  buffers_fit (max_size_of m0) o = true →
  History key s0 m0 (ops ++ [o]) s'.
Proof.
  intros [Hnew Hmeta Hkeys Hfit Hrun] Hop Hkeys' Hfit'. split; try done.
  - rewrite forallb_app, Hfit. simpl. by rewrite Hfit'.
  - rewrite (run_ops_app _ _ _ _ Hrun). unfold run_ops. simpl.
    by rewrite (bind_ok _ _ _ _ _ Hop).
Qed.

End GroupsOf.

(** ** [get_chunk_names] beyond the end of the tensor *)

Section ChunkNamesBeyond.

Context `{Externals}.
Variable key : string.

Lemma chunk_names_of_mono (enc : ChunkIdEncoder.t) (start k k' : nat) :
  (k ≤ k')%nat → chunk_names_of enc start k ⊆ chunk_names_of enc start k'.
Proof.
  intros Hk. unfold chunk_names_of.
  replace k' with (k + (k' - k))%nat by lia.
  rewrite seq_app, fmap_app, list_to_set_app_L.
  apply union_subseteq_l.
Qed.

(** Past the end of the encoder's samples the loop raises as soon as it
    needs one more name. *)
Lemma run_get_chunk_names_loop_beyond (s : store) (enc : ChunkIdEncoder.t)
    (last_index target : nat) :
  chunks_index s = Some enc →
  (∀ g, (ChunkIdEncoder.num_samples enc ≤ g)%nat →
        ChunkIdEncoder.getitem enc g = Raise IndexError) →
  (ChunkIdEncoder.num_samples enc < last_index)%nat →
  ∀ (fuel sample_index : nat) (chunk_names : gset string),
  (last_index - sample_index ≤ fuel)%nat →
  ∃ k, (k ≤ ChunkIdEncoder.num_samples enc - sample_index)%nat
       ∧ (∀ j, (j < k)%nat →
            (size (chunk_names ∪ chunk_names_of enc sample_index j) < target)%nat)
       ∧ (size (chunk_names ∪ chunk_names_of enc sample_index k)
          ≤ size chunk_names `max` target)%nat
       ∧ if bool_decide
              ((size (chunk_names ∪ chunk_names_of enc sample_index k) < target)%nat
               ∧ (sample_index < last_index)%nat)
         then k = (ChunkIdEncoder.num_samples enc - sample_index)%nat
              ∧ get_chunk_names_loop fuel chunk_names sample_index last_index
                  target s = (Raise IndexError, s)
         else get_chunk_names_loop fuel chunk_names sample_index last_index
                target s
              = (Ok (chunk_names ∪ chunk_names_of enc sample_index k), s).
Proof.
  intros E Hbeyond Hlast. set (n := ChunkIdEncoder.num_samples enc) in *.
  induction fuel as [|fuel IH]; intros sample_index chunk_names Hfuel.
  - exists 0%nat. unfold chunk_names_of. simpl.
    rewrite (right_id_L ∅ (∪)). split_and!; [lia|lia|lia|].
    rewrite bool_decide_false by lia. done.
  - simpl.
    destruct (decide (size chunk_names < target ∧ sample_index < last_index)%nat)
      as [[Hsize Hidx]|Hstop].
    + rewrite (bool_decide_eq_true_2 _ Hsize), (bool_decide_eq_true_2 _ Hidx).
      simpl.
      rewrite (bind_ok _ _ _ _ _ (run_chunk_id_encoder _ _ E)).
      destruct (decide (sample_index < n)%nat) as [Hin|Hout].
      * destruct (getitem_in_range enc sample_index Hin) as [id Hid].
        rewrite (bind_lift_ok _ _ _ id) by done.
        rewrite (bind_ok _ _ _ _ _ (run_chunk_id_encoder _ _ E)).
        destruct (IH (S sample_index)
                    ({[ChunkIdEncoder.name_from_id id]} ∪ chunk_names)
                    ltac:(lia))
          as (k & Hk & Hmin & Hsz & Hrun).
        assert (chunk_name_at enc sample_index
                = ChunkIdEncoder.name_from_id id)
          as Hname by (unfold chunk_name_at; by rewrite Hid).
        assert (∀ j, chunk_names ∪ chunk_names_of enc sample_index (S j)
                     = {[ChunkIdEncoder.name_from_id id]} ∪ chunk_names
                       ∪ chunk_names_of enc (S sample_index) j) as Heq.
        { intros j. rewrite chunk_names_of_S, Hname.
          by rewrite (assoc_L (∪)), (comm_L (∪) chunk_names). }
        exists (S k). rewrite Heq. split_and!.
        -- lia.
        -- intros [|j] Hj.
           ++ unfold chunk_names_of. simpl. by rewrite (right_id_L ∅ (∪)).
           ++ rewrite Heq. apply Hmin. lia.
        -- pose proof (size_union_alt {[ChunkIdEncoder.name_from_id id]}
                         chunk_names) as Hu.
           assert (size ({[ChunkIdEncoder.name_from_id id]} ∪ chunk_names)
                   ≤ S (size chunk_names))%nat.
           { rewrite Hu, size_singleton.
             assert (chunk_names ∖ {[ChunkIdEncoder.name_from_id id]}
                     ⊆ chunk_names)
               as Hsub by (by apply subseteq_difference_l).
             apply subseteq_size in Hsub. lia. }
           lia.
        -- destruct (decide
                       (size ({[ChunkIdEncoder.name_from_id id]} ∪ chunk_names
                              ∪ chunk_names_of enc (S sample_index) k) < target)%nat)
             as [Hc|Hc].
           ++ rewrite bool_decide_true in Hrun by (split; [done|lia]).
              rewrite bool_decide_true by done.
              destruct Hrun as [-> Hrun]. split; [lia|done].
           ++ rewrite bool_decide_false in Hrun by (by intros [? ?]).
              by rewrite bool_decide_false by (by intros [? ?]).
      * rewrite (bind_lift_raise _ _ _ IndexError) by (apply Hbeyond; lia).
        exists 0%nat. unfold chunk_names_of. simpl.
        rewrite (right_id_L ∅ (∪)). split_and!; [lia|lia|lia|].
        rewrite bool_decide_true by done. split; [lia|done].
    + assert (bool_decide (size chunk_names < target)%nat
              && bool_decide (sample_index < last_index)%nat = false) as ->.
      { apply andb_false_iff.
        destruct (decide (size chunk_names < target)%nat);
          [right|left]; apply bool_decide_eq_false_2; [|done].
        intros ?. by apply Hstop. }
      exists 0%nat. unfold chunk_names_of. simpl.
      rewrite (right_id_L ∅ (∪)). split_and!; [lia|lia|lia|].
      by rewrite bool_decide_false.
Qed.

(** The encoder of a tensor built by [extend] and [update] calls has no
    sample beyond its [num_samples]. *)
Lemma history_getitem_beyond (s0 s : store) (m0 : TensorMeta.t)
    (ops : list op) (enc : ChunkIdEncoder.t) (g : nat) :
  History key s0 m0 ops s →
  chunks_index s = Some enc →
  (ChunkIdEncoder.num_samples enc ≤ g)%nat →
  ChunkIdEncoder.getitem enc g = Raise IndexError.
Proof.
  intros Hh Henc Hg.
  destruct (history_rep key _ _ _ _ Hh) as (m & HR & _).
  pose proof (rep_index_Some key _ _ _ HR ltac:(by rewrite Henc)) as E.
  rewrite Henc in E. injection E as ->.
  pose proof (rep_nonempty _ _ _ _ HR) as Hne.
  rewrite num_samples_table in Hg by done.
  apply getitem_table_out_of_range; [done|].
  destruct (locate (groups_of key s) g) as [[i j]|] eqn:Hloc; [|done].
  destruct (locate_Some _ _ _ _ Hloc) as (l & _ & Hj & _ & Hlookup).
  assert (is_Some (concat (groups_of key s) !! g)) as Hsome.
  { rewrite Hlookup. by apply lookup_lt_is_Some. }
  apply lookup_lt_is_Some in Hsome. lia.
Qed.

End ChunkNamesBeyond.

(** * The engine against its specification *)

Section Claims.

Context `{Externals}.
Variable key : string.

(** C9.  Every mutating method ([append], [extend], [update]) checks for
    read-only storage at its entry: on a read-only cache each of them
    raises [ReadOnly] and leaves the tensor meta, the chunk id encoder and
    the chunks as they were. *)
Theorem mutating_methods_fail_fast_when_read_only (s : store)
    (samples_dtype : np.dtype) (samples : list serialized)
    (sample : serialized) (index : Index.t) (new : samples_arg) :
  read_only s = true →
  extend key samples_dtype samples s = (Raise ReadOnly, s)
  ∧ append key samples_dtype sample s = (Raise ReadOnly, s)
  ∧ update key index new s = (Raise ReadOnly, s).
Proof.
  intros Hro.
  assert (check_readonly s = (Raise ReadOnly, s)) as Hcheck
    by (unfold check_readonly; by rewrite Hro).
  split_and!.
  - unfold extend. by rewrite (bind_raise _ _ _ _ _ Hcheck).
  - unfold append, extend. by rewrite (bind_raise _ _ _ _ _ Hcheck).
  - unfold update. by rewrite (bind_raise _ _ _ _ _ Hcheck).
Qed.

(** C7.  [validate_num_samples_is_synchronized] raises
    [CorruptedMetaError] if and only if the length in the tensor meta
    differs from the number of samples of the chunk id encoder, a missing
    encoder counting as 0 samples; so it raises once the encoder has been
    deleted from the cache of a tensor of length 5. *)
Theorem validate_raises_iff_out_of_sync (s : store) (m : TensorMeta.t) :
  meta_blob s = Some m →
  let chunk_id_num_samples :=
    match chunks_index s with
    | Some enc => ChunkIdEncoder.num_samples enc
    | None => 0%nat
    end in
  ((validate_num_samples_is_synchronized s).1 = Raise CorruptedMetaError
   ↔ TensorMeta.length m ≠ chunk_id_num_samples)
  ∧ (TensorMeta.length m = chunk_id_num_samples →
     validate_num_samples_is_synchronized s = (Ok tt, s))
  ∧ (TensorMeta.length m = 5%nat →
     validate_num_samples_is_synchronized (without_chunks_index s)
     = (Raise CorruptedMetaError, without_chunks_index s)).
Proof.
  intros Hm n.
  assert (∀ s' : store, meta_blob s' = Some m →
            validate_num_samples_is_synchronized s'
            = (if bool_decide
                    (TensorMeta.length m
                     ≠ match chunks_index s' with
                       | Some enc => ChunkIdEncoder.num_samples enc
                       | None => 0%nat
                       end)
               then Raise CorruptedMetaError else Ok tt, s')) as Hrun.
  { intros s' Hm'. unfold validate_num_samples_is_synchronized.
    rewrite (bind_ok _ _ _ _ _ (run_tensor_meta _ _ Hm')).
    rewrite (bind_ok _ _ _ _ _ (run_chunk_id_encoder_exists s')).
    destruct (chunks_index s') as [enc|] eqn:E.
    - rewrite (bind_ok _ _ s' s' (ChunkIdEncoder.num_samples enc))
        by (by rewrite (bind_ok _ _ _ _ _ (run_chunk_id_encoder _ _ E))).
      by case_bool_decide.
    - rewrite (bind_ok _ _ s' s' 0%nat) by done.
      by case_bool_decide. }
  split_and!.
  - rewrite (Hrun s Hm). fold n. simpl. case_bool_decide; naive_solver.
  - intros Heq. rewrite (Hrun s Hm). fold n.
    by rewrite bool_decide_eq_false_2 by naive_solver.
  - intros H5. rewrite (Hrun (without_chunks_index s)) by done. simpl.
    by rewrite bool_decide_eq_true_2 by lia.
Qed.


(** C10.  No byte is dropped on a merged append: if the last chunk holds
    [s] data bytes with [s < min_chunk_size], the ceiling counts of [b]
    and [b + s] agree and [b <= max_chunk_size], then
    [min(b, max_chunk_size - s) = b]; so when
    [_try_appending_to_last_chunk] merges such a buffer, the last chunk
    afterwards holds its samples of before followed by the whole
    buffer. *)
Theorem merged_append_writes_whole_buffer :
  (∀ max_chunk_size s b : Z,
     0 ≤ s → 0 ≤ b →
     s < max_chunk_size `div` 2 →
     _min_chunk_ct_for_data_size max_chunk_size b
     = _min_chunk_ct_for_data_size max_chunk_size (b + s) →
     b ≤ max_chunk_size →
     Z.min b (max_chunk_size - s) = b)
  ∧ (∀ (s0 s s' : store) (m0 : TensorMeta.t) (ops : list op)
       (buffer : memoryview) (shape : shape_t),
       History key s0 m0 ops s →
       len buffer ≤ max_size_of m0 →
       _try_appending_to_last_chunk key buffer shape s = (Ok true, s') →
       ∃ front last_chunk,
         groups_of key s = front ++ [last_chunk]
         ∧ groups_of key s' = front ++ [last_chunk ++ [(buffer, shape)]]).
Proof.
  split.
  - intros max_size s b Hs Hb Hunder Hct Hmax.
    pose proof (merge_leaves_room max_size b s Hb Hs Hmax Hunder (eq_sym Hct)).
    lia.
  - intros s0 s s' m0 ops buffer shape Hist Hfit Htry.
    destruct (history_rep key _ _ _ _ Hist)
      as (m & HR & Hm & _ & _ & Hmax & _ & _ & Hn).
    destruct (merges (max_size_of m) (groups_of key s) buffer) eqn:Hmerge.
    2:{ rewrite (run_try_appending_no_merge key _ _ _ _ _ shape HR Hm Hmerge)
          in Htry. done. }
    pose proof Hmerge as Hmerge'. unfold merges in Hmerge'.
    destruct (last (groups_of key s)) as [l|] eqn:Hl; [|done].
    apply andb_prop in Hmerge' as [Hunder Hct].
    apply Z.ltb_lt in Hunder. apply Z.eqb_eq in Hct.
    rewrite (run_try_appending_merge key _ _ _ l _ _ shape HR Hm Hl Hmerge)
      in Htry.
    injection Htry as <-.
    destruct (last_Some (groups_of key s) l) as [[front Hfront] _]; [done|].
    exists front, l. split; [done|].
    rewrite Hmax in Hunder, Hct |- *.
    rewrite merged_part_all
      by (apply merge_leaves_room; try done; apply len_nonneg).
    set (l' := l ++ [(buffer, shape)]).
    assert (pred (length (groups_of key s)) = length front) as Hpred
      by (rewrite Hfront, length_app; simpl; lia).
    assert (is_Some (chunks_index s)) as Hsome.
    { destruct (chunks_index s) eqn:E; [eauto|].
      rewrite (Rep_nil_index _ _ _ _ HR E) in Hl. done. }
    pose proof (rep_index_Some _ _ _ _ HR Hsome) as E.
    unfold groups_of at 1. simpl. rewrite E. simpl.
    apply (omap_table key
             (with_chunk s
                (chunk_key_of key
                   (uuid4 (uuid_calls s0 + pred (length (groups_of key s)))))
                (chunk_of l'))).
    { rewrite Hfront, !length_app. done. }
    intros i g Hg. simpl.
    destruct (decide (i = length front)) as [->|Hneq].
    + rewrite lookup_app_r, Nat.sub_diag in Hg by done. simpl in Hg.
      injection Hg as <-. by rewrite Hpred, lookup_insert_eq.
    + assert (i < length front)%nat as Hi.
      { apply lookup_lt_Some in Hg. rewrite length_app in Hg.
        simpl in Hg. lia. }
      rewrite lookup_app_l in Hg by done.
      rewrite lookup_insert_ne.
      * apply (rep_chunks _ _ _ _ HR). rewrite Hfront.
        by rewrite lookup_app_l.
      * rewrite Hpred. intros Ek.
        rewrite Hfront, length_app in Hn. simpl in Hn.
        apply (distinct_keys_inj key _ (appended ops)) in Ek;
          [lia|apply (history_keys _ _ _ _ _ Hist)|lia|lia].
Qed.


(** C1.  Reads round-trip: in a tensor built by [extend] and [update]
    calls, every sample index [g] below the length reads as the array last
    written at [g], with its shape and in the dtype of the tensor: the
    array appended there if no update has addressed [g]; and after one
    more [update] every index that it does not address still reads the
    same. *)
Theorem read_round_trip (s0 s : store) (m0 : TensorMeta.t) (ops : list op)
    (g : nat) (x : serialized) :
  History key s0 m0 ops s →
  contents_after ops !! g = Some x →
  let compression := TensorMeta.sample_compression m0 in
  let d := dtype_after (TensorMeta.dtype m0) ops in
  well_formed compression d x →
  num_samples s = (Ok (length (contents_after ops)), s)
  ∧ read key g s = (Ok (original_array compression d x), s)
  ∧ ∀ (index : Index.t) (new : samples_arg) (s' : store),
      g ∉ Index.indices index (length (contents_after ops)) →
      update key index new s = (Ok tt, s') →
      read key g s' = (Ok (original_array compression d x), s').
Proof.
  intros Hist Hx compression d Hwf.
  assert (∀ ops' s', History key s0 m0 ops' s' →
            contents_after ops' !! g = Some x →
            dtype_after (TensorMeta.dtype m0) ops' = d →
            read key g s' = (Ok (original_array compression d x), s')) as Hread.
  { intros ops' s' Hist' Hx' Hd.
    destruct (history_rep key _ _ _ _ Hist')
      as (m & HR & Hm & Hc & Hcomp & _ & Hdt & _).
    rewrite <- Hc in Hx'. rewrite (run_read key _ _ _ m g x HR Hm Hx').
    rewrite array_of_original; rewrite Hcomp, Hdt, Hd; done. }
  split_and!.
  - destruct (history_rep key _ _ _ _ Hist)
      as (m & HR & Hm & Hc & _).
    destruct (chunks_index s) as [enc|] eqn:E.
    + rewrite (num_samples_rep key _ _ _ HR) by (by rewrite E).
      by rewrite Hc.
    + rewrite (Rep_nil_index _ _ _ _ HR E) in Hc. simpl in Hc.
      rewrite <- Hc in Hx. done.
  - by apply (Hread ops).
  - intros index new s' Hg Hupd.
    apply (Hread (ops ++ [Update index new])).
    + apply (History_snoc key _ s); try done.
      rewrite appended_app. unfold appended at 2. simpl.
      rewrite Nat.add_0_r. apply (history_keys _ _ _ _ _ Hist).
    + unfold contents_after. rewrite foldl_app. simpl.
      fold (contents_after ops).
      destruct (_make_sequence new _) as [items|]; [|done].
      rewrite <- Hx. clear Hx.
      generalize (Index.indices index (length (contents_after ops))) Hg.
      intros indices. generalize (contents_after ops).
      revert items. induction indices as [|i indices IH];
        intros items contents Hni; [done|].
      destruct items as [|item items]; [done|]. simpl.
      rewrite IH by (intros ?; apply Hni; by right).
      apply list_lookup_insert_ne. intros ->. apply Hni. by left.
    + unfold dtype_after. rewrite foldl_app. simpl.
      fold (dtype_after (TensorMeta.dtype m0) ops). fold d.
      by destruct d.
Qed.

(** C6.  A sample whose recorded byte range in its chunk is empty reads
    as a zero-filled array of the recorded shape and the dtype of the
    tensor; so a sample appended with a buffer of length 0 and shape
    [(0, 5)] reads back as the zero-valued array of shape [(0, 5)]. *)
Theorem empty_byte_range_reads_as_zeros :
  (∀ (s : store) (m : TensorMeta.t) (enc : ChunkIdEncoder.t)
     (chunk : string) (c : Chunk.t) (g local : nat) (shape : shape_t)
     (start_byte : nat) (cast : bool),
     meta_blob s = Some m → chunks_index s = Some enc →
     chunks s !! chunk = Some c →
     ChunkIdEncoder.translate_index_relative_to_chunks enc g = Ok local →
     Chunk.shapes_encoder c !! local = Some shape →
     Chunk.byte_positions_encoder c !! local = Some (start_byte, start_byte) →
     read_sample_from_chunk g chunk cast s
     = (Ok (np.zeros shape (TensorMeta.dtype m)), s))
  ∧ (∀ (s0 s s' : store) (m0 : TensorMeta.t) (ops : list op)
       (sample_dtype : np.dtype),
       History key s0 m0 ops s →
       distinct_keys key (uuid_calls s0) (S (appended ops)) →
       0 ≤ max_size_of m0 →
       append key sample_dtype ([], [0; 5]) s = (Ok tt, s') →
       ∃ m', meta_blob s' = Some m'
             ∧ read key (length (contents_after ops)) s'
               = (Ok (np.zeros [0; 5] (TensorMeta.dtype m')), s')
             ∧ np.tobytes (np.zeros [0; 5] (TensorMeta.dtype m')) = []).
Proof.
  split.
  - intros s m enc chunk c g local shape sb cast Hm E Hc Hlocal Hshape Hrange.
    unfold read_sample_from_chunk.
    rewrite !(bind_ok _ _ _ _ _ (run_tensor_meta _ _ Hm)).
    rewrite (bind_ok _ _ _ _ _ (run_chunk_id_encoder _ _ E)).
    rewrite (bind_ok _ _ _ _ _ (run_deref _ _ _ Hc)).
    rewrite (bind_lift_ok _ _ _ local) by done.
    rewrite (bind_ok _ _ s s shape) by (by rewrite Hshape).
    rewrite (bind_ok _ _ s s (sb, sb)) by (by rewrite Hrange).
    simpl. unfold slice. by rewrite Nat.sub_diag, take_0.
  - intros s0 s s' m0 ops dt Hist Hkeys Hmax Happ.
    set (o := Extend dt [([], [0; 5])]).
    assert (History key s0 m0 (ops ++ [o]) s') as Hist'.
    { apply (History_snoc key _ s); try done.
      - rewrite appended_app. unfold appended at 2. simpl.
        by replace (appended ops + 1)%nat with (S (appended ops)) by lia.
      - simpl. rewrite andb_true_r. by apply Z.leb_le. }
    destruct (history_rep key _ _ _ _ Hist')
      as (m & HR & Hm & Hc & _).
    exists m. split; [done|]. split; [|done].
    rewrite (run_read key _ _ _ m _ ([], [0; 5]) HR Hm); [done|].
    rewrite Hc. unfold contents_after. rewrite foldl_app. simpl.
    fold (contents_after ops).
    by rewrite lookup_app_r, Nat.sub_diag.
Qed.

(** C5.  [numpy(index, aslist)] raises [DynamicTensorNumpyError] if and
    only if [aslist] is false and the addressed samples do not all share
    one shape; with [aslist] true it never raises it, and for an index
    over the primary axis it returns the list of the addressed arrays,
    each with its original shape. *)
Theorem numpy_raises_iff_dynamic (s0 s : store) (m0 : TensorMeta.t)
    (ops : list op) (index : Index.t) (aslist : bool) :
  History key s0 m0 ops s →
  is_Some (chunks_index s) →
  let contents := contents_after ops in
  let compression := TensorMeta.sample_compression m0 in
  let d := dtype_after (TensorMeta.dtype m0) ops in
  let addressed := Index.indices index (length contents) in
  Forall (λ g, g < length contents)%nat addressed →
  Forall (well_formed compression d) contents →
  let arrays :=
    omap (λ g, original_array compression d <$> contents !! g) addressed in
  ((numpy key index aslist s).1 = Raise DynamicTensorNumpyError
   ↔ aslist = false ∧ dynamic (np.shape <$> arrays))
  ∧ (aslist = true →
     Index.subscriptable index = true →
     (∀ a, Index.apply_entry index a = a) →
     numpy key index aslist s = (Ok (AsList arrays), s))
  ∧ (compression = None →
     np.shape <$> arrays = omap (λ g, snd <$> contents !! g) addressed).
Proof.
  intros Hist Hsome contents compression d addressed Hrange Hwf arrays.
  destruct (history_rep key _ _ _ _ Hist)
    as (m & HR & Hm & Hc & Hcomp & _ & Hdt & _).
  pose proof (rep_index_Some _ _ _ _ HR Hsome) as E.
  assert (Forall2 (λ g a, read key g s = (Ok a, s)) addressed arrays) as Hreads.
  { subst arrays. clearbody addressed.
    induction Hrange as [|g gs Hg _ IH]; [constructor|].
    destruct (lookup_lt_is_Some_2 contents g Hg) as [x Hx].
    simpl. rewrite Hx. simpl. constructor; [|exact IH].
    fold contents in Hc. rewrite <- Hc in Hx.
    rewrite (run_read key _ _ _ m g x HR Hm Hx).
    rewrite array_of_original; rewrite Hcomp, Hdt; [done|].
    rewrite Forall_forall in Hwf. apply Hwf.
    rewrite Hc in Hx. by eapply list_elem_of_lookup_2. }
  assert (Index.indices index
            (ChunkIdEncoder.num_samples
               (ChunkIdEncoder.mk
                  (table_from (uuid_calls s0) (groups_of key s) 0) None))
          = addressed) as Hidx.
  { rewrite (num_samples_table _ _ _ (rep_nonempty _ _ _ _ HR)).
    by rewrite Hc. }
  rewrite <- Hidx in Hreads.
  rewrite (run_numpy key s _ index aslist arrays E Hreads).
  split_and!.
  - destruct aslist; simpl.
    + split; [|by intros [? _]].
      intros Hf. by apply format_read_samples_not_dynamic in Hf.
    + destruct (uniform_from None (np.shape <$> arrays)) eqn:Hu; simpl.
      * split.
        -- intros Hf. by apply format_read_samples_not_dynamic in Hf.
        -- intros [_ Hdyn]. by apply uniform_from_None in Hu.
      * split; [|done]. intros _. split; [done|].
        by apply not_uniform_from_None.
  - intros -> Hsub Hid. simpl. unfold _format_read_samples.
    rewrite Hsub. unfold Index.apply.
    rewrite (list_fmap_ext _ id arrays) by (intros; apply Hid).
    rewrite list_fmap_id. by destruct (forallb _ _).
  - intros Hnone. subst arrays. clear Hrange Hreads Hidx. clearbody addressed.
    induction addressed as [|g gs IH]; [done|]. simpl.
    destruct (contents !! g) as [x|]; simpl; [|exact IH].
    f_equal; [|exact IH].
    unfold original_array. by rewrite Hnone.
Qed.

(** C4, as the code has it.  On a tensor whose chunk id encoder is in the
    cache, [get_chunk_names(start, last, target)] returns the names of the
    chunks that hold the samples from [start] up to the sample where it
    stops: it stops as soon as it has [target] names or at [last],
    whichever comes first.  So it returns at least [target] names, and
    never more, when the chunks of the samples in [[start, last)] bear at
    least [target] names, and fewer only when the requested range ends
    earlier.  When the tensor ends before [last], the chunks of its samples
    from [start] on are what counts: with at least [target] names among
    them it returns [target] names, and with fewer it raises [IndexError]
    at the first sample beyond the tensor. *)
Theorem get_chunk_names_covers_a_prefix (s : store)
    (enc : ChunkIdEncoder.t) (start last_index target : nat) :
  chunks_index s = Some enc →
  let num_samples := ChunkIdEncoder.num_samples enc in
  ((last_index ≤ num_samples)%nat →
   ∃ visited,
     (visited ≤ last_index - start)%nat
     ∧ get_chunk_names start last_index target s
       = (Ok (chunk_names_of enc start visited), s)
     ∧ (size (chunk_names_of enc start visited) ≤ target)%nat
     ∧ ((visited < last_index - start)%nat →
        size (chunk_names_of enc start visited) = target)
     ∧ ((target ≤ size (chunk_names_of enc start (last_index - start)))%nat →
        size (chunk_names_of enc start visited) = target)
     ∧ (∀ j, (j < visited)%nat →
          (size (chunk_names_of enc start j) < target)%nat))
  ∧ (∀ (s0 : store) (m0 : TensorMeta.t) (ops : list op),
       History key s0 m0 ops s →
       (num_samples < last_index)%nat →
       let within := chunk_names_of enc start (num_samples - start) in
       ((size within < target)%nat → (start < last_index)%nat →
        get_chunk_names start last_index target s = (Raise IndexError, s))
       ∧ ((target ≤ size within)%nat →
          ∃ visited,
            (visited ≤ num_samples - start)%nat
            ∧ get_chunk_names start last_index target s
              = (Ok (chunk_names_of enc start visited), s)
            ∧ size (chunk_names_of enc start visited) = target
            ∧ (∀ j, (j < visited)%nat →
                 (size (chunk_names_of enc start j) < target)%nat))
       ∧ ((last_index ≤ start)%nat →
          get_chunk_names start last_index target s = (Ok ∅, s))).
Proof.
  intros E n. split.
  - intros Hlast.
    destruct (run_get_chunk_names_loop s enc last_index target E Hlast
                (last_index - start) start ∅ ltac:(lia))
      as (k & Hk & Hrun & Hsz & Hfull & Hmin).
    rewrite (left_id_L ∅ (∪)) in Hrun, Hsz, Hfull.
    rewrite size_empty in Hsz. simpl in Hsz.
    exists k. split_and!; try done.
    + intros Hlt. specialize (Hfull Hlt). lia.
    + intros Hall. destruct (decide (k < last_index - start)%nat) as [Hlt|Hge].
      * specialize (Hfull Hlt). lia.
      * replace k with (last_index - start)%nat in * by lia. lia.
    + intros j Hj. specialize (Hmin j Hj).
      by rewrite (left_id_L ∅ (∪)) in Hmin.
  - intros s0 m0 ops Hh Hbeyond within.
    destruct (run_get_chunk_names_loop_beyond s enc last_index target E
                (λ g, history_getitem_beyond key s0 s m0 ops enc g Hh E)
                Hbeyond (last_index - start) start ∅ ltac:(lia))
      as (k & Hk & Hmin & Hsz & Hrun).
    rewrite (left_id_L ∅ (∪)) in Hsz, Hrun.
    rewrite size_empty in Hsz. simpl in Hsz.
    fold n in Hk.
    pose proof (subseteq_size _ _ (chunk_names_of_mono enc start k _ Hk))
      as Hmono.
    fold within in Hmono.
    assert (∀ j, (j < k)%nat →
              (size (chunk_names_of enc start j) < target)%nat) as Hmin'.
    { intros j Hj. specialize (Hmin j Hj).
      by rewrite (left_id_L ∅ (∪)) in Hmin. }
    unfold get_chunk_names. split_and!.
    + intros Hfew Hstart.
      rewrite bool_decide_true in Hrun by (split; [lia|done]).
      by destruct Hrun as [_ Hrun].
    + intros Hmany. exists k. split; [done|].
      destruct (decide ((size (chunk_names_of enc start k) < target)%nat
                        ∧ (start < last_index)%nat)) as [[Hc1 Hc2]|Hc].
      * rewrite bool_decide_true in Hrun by done.
        destruct Hrun as [-> _]. fold n within in Hc1. lia.
      * rewrite bool_decide_false in Hrun by done.
        split_and!; [done| |done].
        destruct (decide (start < last_index)%nat) as [Hlt|Hge]; [lia|].
        assert (within = ∅) as Hempty.
        { unfold within. by replace (n - start)%nat with 0%nat by lia. }
        rewrite Hempty, size_empty in Hmany, Hmono. lia.
    + intros Hnone.
      replace (last_index - start)%nat with 0%nat by lia. done.
Qed.

(** C8, as the code has it.  [update] emits the suboptimal-chunk warning
    at most once per batch.  It looks at a chunk right after each sample
    written to it, not at the end of the batch: the warning is emitted
    exactly when one of the sizes seen then, of a chunk other than the
    last one, lies outside
    [[min_chunk_size * (1 - 0.2), max_chunk_size * (1 + 0.2)]]; samples
    written to the last chunk never trigger it. *)
Theorem update_warns_once_per_batch (s0 s s' : store) (m0 : TensorMeta.t)
    (ops : list op) (index : Index.t) (new : samples_arg) :
  History key s0 m0 ops s →
  update key index new s = (Ok tt, s') →
  let n := length (contents_after ops) in
  let max_chunk_size := max_size_of m0 in
  let min_chunk_size := max_chunk_size `div` 2 in
  ∃ items,
    _make_sequence new (Index.length index n) = Ok items
    ∧ let updates := zip (Index.indices index n) items in
      let sizes := nbytes_trace (groups_of key s) updates in
      warnings s'
      = warnings s
        ++ (if existsb (suboptimal min_chunk_size max_chunk_size) sizes
            then [SUBOPTIMAL_CHUNKS_WARNING] else [])
      ∧ (Forall (λ u : nat * serialized,
                   ∃ j, locate (groups_of key s) u.1
                        = Some (pred (length (groups_of key s)), j)) updates →
         warnings s' = warnings s).
Proof.
  intros Hist Hupd n max_size min_size.
  destruct (history_rep key _ _ _ _ Hist)
    as (m & HR & Hm & Hc & _ & Hmax & _ & _ & Hn).
  destruct (run_update key s s' _ (appended ops) _ m index new HR Hm
              (history_keys _ _ _ _ _ Hist) Hn Hupd)
    as (items & m' & Hseq & _ & _ & _ & _ & _ & Hw).
  rewrite Hc in Hseq, Hw. rewrite Hmax in Hw. fold n in Hseq, Hw.
  exists items. split; [done|]. simpl. split; [done|].
  intros Htail. rewrite Hw.
  assert (nbytes_trace (groups_of key s) (zip (Index.indices index n) items)
          = []) as ->; [|by rewrite app_nil_r].
  revert Htail. generalize (zip (Index.indices index n) items).
  generalize (groups_of key s). intros groups updates.
  revert groups. induction updates as [|[g x] updates IH];
    intros groups Htail; [done|].
  apply Forall_cons in Htail as [[j Hj] Htail]. simpl in Hj. simpl.
  rewrite Hj. rewrite bool_decide_eq_false_2 by naive_solver. simpl.
  apply IH. rewrite replace_sample_length.
  eapply Forall_impl; [exact Htail|]. intros u [j' Hj']. exists j'.
  rewrite <- Hj'. apply locate_lengths, replace_sample_lengths.
Qed.
End Claims.

Section Sizes.

Context `{Externals}.

Lemma len_sample_of (value : byte) (n : Z) :
  0 ≤ n → len (sample_of value n).1 = n.
Proof. intros Hn. unfold len. simpl. rewrite repeat_length. lia. Qed.

Lemma len_MiB_sample (n : Z) : 0 ≤ n → len (MiB_sample n).1 = n * MB.
Proof. intros Hn. apply len_sample_of. unfold MB. lia. Qed.

Lemma len_data_of_nil : len (data_of []) = 0.
Proof. done. Qed.

Lemma len_data_of_cons (x : serialized) (l : list serialized) :
  len (data_of (x :: l)) = len x.1 + len (data_of l).
Proof. unfold data_of. simpl. by rewrite len_app. Qed.

(** The placement rule read off the byte counts alone. *)
Lemma place_by_size_merge (max_size : Z) (groups : list (list serialized))
    (l : list serialized) (x : serialized) :
  last groups = Some l →
  (len (data_of l) <? max_size `div` 2) = true →
  (_min_chunk_ct_for_data_size max_size (len x.1 + len (data_of l))
   =? _min_chunk_ct_for_data_size max_size (len x.1)) = true →
  len x.1 ≤ max_size - len (data_of l) →
  place max_size groups x = <[pred (length groups) := l ++ [x]]> groups.
Proof.
  intros Hl Hs Hct Hfit. rewrite (place_merge _ _ l) by
    (try done; unfold merges; by rewrite Hl, Hs, Hct).
  rewrite merged_part_all by done. by destruct x.
Qed.

Lemma place_by_size_new (max_size : Z) (groups : list (list serialized))
    (l : list serialized) (x : serialized) :
  last groups = Some l →
  (len (data_of l) <? max_size `div` 2)
  && (_min_chunk_ct_for_data_size max_size (len x.1 + len (data_of l))
      =? _min_chunk_ct_for_data_size max_size (len x.1)) = false →
  place max_size groups x = groups ++ [[x]].
Proof.
  intros Hl E. apply place_no_merge. unfold merges. by rewrite Hl.
Qed.

(** One step of [extend]'s loop over the groups. *)
Lemma foldl_place_step (max_size : Z) (groups groups' : list (list serialized))
    (x : serialized) (rest : list serialized) (result : list (list serialized)) :
  place max_size groups x = groups' →
  foldl (place max_size) groups' rest = result →
  foldl (place max_size) groups (x :: rest) = result.
Proof. by intros <- <-. Qed.

(** [extend] on a batch whose shapes the meta accepts and whose grouping
    is known. *)
Lemma run_extend_ok (key : string) (s : store) (u0 n : nat)
    (groups groups' : list (list serialized)) (m m' : TensorMeta.t)
    (max_size : Z) (samples_dtype : np.dtype) (samples : list serialized) :
  Rep key s u0 groups → meta_blob s = Some m → read_only s = false →
  (chunks_index s = None → TensorMeta.length m ≤ 1)%nat →
  distinct_keys key u0 n → (length groups + length samples ≤ n)%nat →
  max_size_of m = max_size →
  Forall (λ x : serialized, len x.1 ≤ max_size) samples →
  meta_after (meta_with_dtype m samples_dtype) samples = Ok m' →
  foldl (place max_size) groups samples = groups' →
  ∃ s', extend key samples_dtype samples s = (Ok tt, s')
        ∧ Rep key s' u0 groups'
        ∧ meta_blob s' = Some m'
        ∧ read_only s' = false ∧ warnings s' = warnings s
        ∧ is_Some (chunks_index s').
Proof.
  intros HR Hm Hro Hlen Hd Hn <- Hfit Hm' <-.
  pose proof (run_extend key s u0 n groups m samples_dtype samples
                HR Hm Hro Hlen Hd Hn Hfit) as Hrun.
  by rewrite Hm' in Hrun.
Qed.

End Sizes.

Section ScenarioS1.

#[local] Existing Instance reference.

Ltac sizes :=
  rewrite ?len_data_of_cons, ?len_data_of_nil, ?len_MiB_sample by lia.

Ltac by_size := sizes; vm_compute; first [reflexivity | discriminate].

(** The next sample joins the last chunk, which holds [l]. *)
Ltac merge_step l groups' :=
  apply (foldl_place_step _ _ groups');
  [etrans; [apply (place_by_size_merge _ _ l);
            [reflexivity | by_size | by_size | by_size]
           |reflexivity]
  |].

(** The next sample opens a chunk; the last one holds [l]. *)
Ltac new_step l groups' :=
  apply (foldl_place_step _ _ groups');
  [etrans; [apply (place_by_size_new _ _ l); [reflexivity | by_size]
           |reflexivity]
  |].

Lemma S1_first_groups :
  foldl (place (32 * MB)) [] S1_first
  = [[MiB_sample 1; MiB_sample 1; MiB_sample 14];
     [MiB_sample 15; MiB_sample 15]].
Proof.
  unfold S1_first.
  apply (foldl_place_step _ _ [[MiB_sample 1]]);
    [apply place_no_merge; reflexivity|].
  merge_step [MiB_sample 1] [[MiB_sample 1; MiB_sample 1]].
  merge_step [MiB_sample 1; MiB_sample 1]
             [[MiB_sample 1; MiB_sample 1; MiB_sample 14]].
  new_step [MiB_sample 1; MiB_sample 1; MiB_sample 14]
           [[MiB_sample 1; MiB_sample 1; MiB_sample 14]; [MiB_sample 15]].
  merge_step [MiB_sample 15]
             [[MiB_sample 1; MiB_sample 1; MiB_sample 14];
              [MiB_sample 15; MiB_sample 15]].
  reflexivity.
Qed.

Lemma S1_second_groups :
  foldl (place (32 * MB))
    [[MiB_sample 1; MiB_sample 1; MiB_sample 14];
     [MiB_sample 15; MiB_sample 15]] S1_second
  = [[MiB_sample 1; MiB_sample 1; MiB_sample 14];
     [MiB_sample 15; MiB_sample 15];
     [MiB_sample 15; MiB_sample 1]].
Proof.
  unfold S1_second.
  new_step [MiB_sample 15; MiB_sample 15]
           [[MiB_sample 1; MiB_sample 1; MiB_sample 14];
            [MiB_sample 15; MiB_sample 15]; [MiB_sample 15]].
  merge_step [MiB_sample 15]
             [[MiB_sample 1; MiB_sample 1; MiB_sample 14];
              [MiB_sample 15; MiB_sample 15];
              [MiB_sample 15; MiB_sample 1]].
  reflexivity.
Qed.

Lemma S1_fits (samples : list serialized) :
  Forall (λ x : serialized, ∃ n, 0 ≤ n ≤ 32 ∧ x = MiB_sample n) samples →
  Forall (λ x : serialized, len x.1 ≤ 32 * MB) samples.
Proof.
  intros Hall. eapply Forall_impl; [exact Hall|].
  intros x (n & Hn & ->). cbv beta.
  rewrite len_MiB_sample by lia. unfold MB. lia.
Qed.

(** C2.  Scenario S1 as the code runs it, with [max_chunk_size] 32 MiB and
    so [min_chunk_size] 16 MiB.  The samples of 1, 1, 14, 15 and 15 MiB
    end in two chunks, but the first holds samples 0 to 2 (16 MiB) and the
    second samples 3 and 4 (30 MiB): sample 3 finds the last chunk at
    [min_chunk_size] and opens a new one.  The samples of 15 and 1 MiB
    that follow go to a third chunk; the lengths are 5 and 7. *)
Theorem S1_packing_as_the_code_runs_it :
  ∃ (s1 s2 : store) (m1 m2 : TensorMeta.t),
    min_chunk_size (new_tensor (Some (32 * MB)))
    = (Ok (16 * MB), new_tensor (Some (32 * MB)))
    ∧ extend "T" np.uint8 S1_first (new_tensor (Some (32 * MB))) = (Ok tt, s1)
    ∧ groups_of "T" s1
      = [[MiB_sample 1; MiB_sample 1; MiB_sample 14];
         [MiB_sample 15; MiB_sample 15]]
    ∧ layout "T" s1 = [(3%nat, 16 * MB); (2%nat, 30 * MB)]
    ∧ num_chunks s1 = (Ok 2%nat, s1)
    ∧ meta_blob s1 = Some m1 ∧ TensorMeta.length m1 = 5%nat
    ∧ extend "T" np.uint8 S1_second s1 = (Ok tt, s2)
    ∧ layout "T" s2 = [(3%nat, 16 * MB); (2%nat, 30 * MB); (2%nat, 16 * MB)]
    ∧ num_chunks s2 = (Ok 3%nat, s2)
    ∧ meta_blob s2 = Some m2 ∧ TensorMeta.length m2 = 7%nat.
Proof.
  set (s0 := new_tensor (Some (32 * MB))).
  set (m0 := TensorMeta.mk None 0 [] [] (Some (32 * MB)) None).
  assert (distinct_keys "T" 0 7) as Hkeys
    by (refine (bool_decide_unpack _ _); vm_compute; exact I).
  (* the first batch *)
  assert (Forall (λ x : serialized, len x.1 ≤ 32 * MB) S1_first) as Hfit1.
  { apply S1_fits. unfold S1_first.
    repeat constructor; eexists; (split; [|reflexivity]); lia. }
  set (m1 := TensorMeta.mk (Some np.uint8) 5 [1 * MB] [15 * MB]
                           (Some (32 * MB)) None).
  assert (meta_after (meta_with_dtype m0 np.uint8) S1_first = Ok m1) as Hm1
    by (lazy; reflexivity).
  assert (length (@nil (list serialized)) + length S1_first ≤ 7)%nat as Hn1
    by (unfold S1_first; cbn [length]; lia).
  assert (Rep "T" s0 0 []) as HR0 by exact (Rep_fresh "T" s0 eq_refl).
  assert (chunks_index s0 = None → TensorMeta.length m0 ≤ 1)%nat as Hlen1
    by (intros _; cbn; lia).
  assert (meta_blob s0 = Some m0) as Hmeta0 by reflexivity.
  assert (read_only s0 = false) as Hro0 by reflexivity.
  assert (max_size_of m0 = 32 * MB) as Hmax0 by reflexivity.
  destruct (run_extend_ok "T" s0 0 7 []
              [[MiB_sample 1; MiB_sample 1; MiB_sample 14];
               [MiB_sample 15; MiB_sample 15]]
              m0 m1 (32 * MB) np.uint8 S1_first
              HR0 Hmeta0 Hro0 Hlen1 Hkeys Hn1 Hmax0 Hfit1 Hm1 S1_first_groups)
    as (s1 & Hextend1 & HR1 & Hmeta1 & Hro1 & _ & Hsome1).
  (* the second batch *)
  assert (Forall (λ x : serialized, len x.1 ≤ 32 * MB) S1_second) as Hfit2.
  { apply S1_fits. unfold S1_second.
    repeat constructor; eexists; (split; [|reflexivity]); lia. }
  set (m2 := TensorMeta.mk (Some np.uint8) 7 [1 * MB] [15 * MB]
                           (Some (32 * MB)) None).
  assert (meta_after (meta_with_dtype m1 np.uint8) S1_second = Ok m2) as Hm2
    by (lazy; reflexivity).
  assert (chunks_index s1 = None → TensorMeta.length m1 ≤ 1)%nat as Hlen2.
  { intros E. rewrite E in Hsome1. by destruct Hsome1. }
  assert (length [[MiB_sample 1; MiB_sample 1; MiB_sample 14];
                  [MiB_sample 15; MiB_sample 15]]
          + length S1_second ≤ 7)%nat as Hn2
    by (unfold S1_second; cbn [length]; lia).
  assert (max_size_of m1 = 32 * MB) as Hmax1 by reflexivity.
  destruct (run_extend_ok "T" s1 0 7
              [[MiB_sample 1; MiB_sample 1; MiB_sample 14];
               [MiB_sample 15; MiB_sample 15]]
              [[MiB_sample 1; MiB_sample 1; MiB_sample 14];
               [MiB_sample 15; MiB_sample 15];
               [MiB_sample 15; MiB_sample 1]]
              m1 m2 (32 * MB) np.uint8 S1_second
              HR1 Hmeta1 Hro1 Hlen2 Hkeys Hn2 Hmax1 Hfit2 Hm2
              S1_second_groups)
    as (s2 & Hextend2 & HR2 & Hmeta2 & _ & _ & Hsome2).
  assert (num_chunks s1 = (Ok 2%nat, s1)) as Hchunks1.
  { rewrite (run_num_chunks _ _ (rep_index_Some _ _ _ _ HR1 Hsome1)).
    by rewrite num_chunks_table. }
  assert (num_chunks s2 = (Ok 3%nat, s2)) as Hchunks2.
  { rewrite (run_num_chunks _ _ (rep_index_Some _ _ _ _ HR2 Hsome2)).
    by rewrite num_chunks_table. }
  assert (layout "T" s1 = [(3%nat, 16 * MB); (2%nat, 30 * MB)]) as Hlayout1.
  { unfold layout. rewrite (groups_of_rep _ _ _ _ HR1).
    cbn [fmap list_fmap length]. sizes. reflexivity. }
  assert (layout "T" s2
          = [(3%nat, 16 * MB); (2%nat, 30 * MB); (2%nat, 16 * MB)])
    as Hlayout2.
  { unfold layout. rewrite (groups_of_rep _ _ _ _ HR2).
    cbn [fmap list_fmap length]. sizes. reflexivity. }
  assert (min_chunk_size s0 = (Ok (16 * MB), s0)) as Hmin by reflexivity.
  assert (TensorMeta.length m1 = 5%nat) as Hfive by reflexivity.
  assert (TensorMeta.length m2 = 7%nat) as Hseven by reflexivity.
  exists s1, s2, m1, m2.
  exact (conj Hmin (conj Hextend1 (conj (groups_of_rep _ _ _ _ HR1)
          (conj Hlayout1 (conj Hchunks1 (conj Hmeta1 (conj Hfive
          (conj Hextend2 (conj Hlayout2 (conj Hchunks2
          (conj Hmeta2 Hseven))))))))))).
Qed.

End ScenarioS1.

(** * Further properties of the engine *)

Section Engine.

Context `{Externals}.
Variable key : string.

Lemma contents_step_length (contents : list serialized) (o : op) :
  length (contents_step contents o)
  = (length contents + appended [o])%nat.
Proof.
  destruct o as [d samples|index samples]; unfold appended; simpl.
  - rewrite length_app. lia.
  - destruct (_make_sequence _ _) as [new|]; [|lia].
    generalize (zip (Index.indices index (length contents)) new).
    intros updates. rewrite Nat.add_0_r.
    revert contents. induction updates as [|u updates IH]; intros contents;
      simpl; [done|].
    by rewrite IH, length_insert.
Qed.

Lemma contents_length (ops : list op) (contents : list serialized) :
  length (foldl contents_step contents ops)
  = (length contents + appended ops)%nat.
Proof.
  revert contents. induction ops as [|o ops IH]; intros contents.
  - unfold appended. simpl. lia.
  - simpl. rewrite IH, contents_step_length.
    change (o :: ops) with ([o] ++ ops). rewrite appended_app. lia.
Qed.

(** The number of samples the encoder counts, whether or not there is one. *)
Lemma history_num_samples (s0 s : store) (m0 : TensorMeta.t) (ops : list op) :
  History key s0 m0 ops s →
  match chunks_index s with
  | Some enc => ChunkIdEncoder.num_samples enc
  | None => 0%nat
  end = length (contents_after ops).
Proof.
  intros Hh. destruct (history_rep key _ _ _ _ Hh)
    as (m & HR & Hm & Hcontents & _).
  rewrite <- Hcontents.
  destruct (chunks_index s) as [enc|] eqn:E.
  - pose proof (rep_index_Some key _ _ _ HR ltac:(by rewrite E)) as E'.
    rewrite E in E'. injection E' as ->.
    apply num_samples_table. apply (rep_nonempty _ _ _ _ HR).
  - by rewrite (Rep_nil_index key _ _ _ HR E).
Qed.

(** X1.  The length in the tensor meta and the number of samples in the
    chunk id encoder stay equal: after any sequence of successful [extend]
    and [update] calls on a new tensor, both are the number of samples
    appended, and [validate_num_samples_is_synchronized] passes. *)
Theorem history_keeps_length_synchronized (s0 s : store) (m0 : TensorMeta.t)
    (ops : list op) :
  History key s0 m0 ops s →
  TensorMeta.length m0 = 0%nat →
  ∃ m, meta_blob s = Some m
       ∧ TensorMeta.length m = length (contents_after ops)
       ∧ num_samples s = (Ok (length (contents_after ops)), s)
       ∧ validate_num_samples_is_synchronized s = (Ok tt, s).
Proof.
  intros Hh Hnew.
  destruct (history_rep key _ _ _ _ Hh)
    as (m & HR & Hm & Hcontents & _ & _ & _ & Hlen & _).
  pose proof (history_num_samples _ _ _ _ Hh) as Hn.
  assert (TensorMeta.length m = length (contents_after ops)) as Hsync.
  { unfold contents_after. rewrite contents_length. simpl. lia. }
  exists m. split_and!; [done|done| |].
  - unfold num_samples.
    rewrite (bind_ok _ _ _ _ _ (run_chunk_id_encoder_exists s)).
    destruct (chunks_index s) as [enc|] eqn:E; simpl.
    + rewrite (bind_ok _ _ _ _ _ (run_chunk_id_encoder _ _ E)).
      by rewrite Hn.
    + by rewrite <- Hn.
  - unfold validate_num_samples_is_synchronized.
    rewrite (bind_ok _ _ _ _ _ (run_tensor_meta _ _ Hm)).
    rewrite (bind_ok _ _ _ _ _ (run_chunk_id_encoder_exists s)).
    destruct (chunks_index s) as [enc|] eqn:E; simpl.
    + rewrite (bind_ok _ _ s s (ChunkIdEncoder.num_samples enc)).
      2:{ by rewrite (bind_ok _ _ _ _ _ (run_chunk_id_encoder _ _ E)). }
      rewrite Hn, Hsync. by rewrite bool_decide_false by (intros ?; done).
    + rewrite (bind_ok _ _ s s 0%nat) by done.
      rewrite Hn, Hsync. by rewrite bool_decide_false by (intros ?; done).
Qed.

(** X2.  All samples live inside a chunk, whole, and one chunk per sample:
    the chunks, in the order of the chunk id encoder, hold the samples of
    the tensor in order; no chunk is without a sample, and [num_chunks]
    counts them. *)
Theorem chunks_hold_every_sample_once (s0 s : store) (m0 : TensorMeta.t)
    (ops : list op) :
  History key s0 m0 ops s →
  concat (groups_of key s) = contents_after ops
  ∧ Forall (λ chunk, chunk ≠ []) (groups_of key s)
  ∧ num_chunks s = (Ok (length (groups_of key s)), s)
  ∧ ∀ g x, contents_after ops !! g = Some x →
      ∃ i j chunk, locate (groups_of key s) g = Some (i, j)
                   ∧ groups_of key s !! i = Some chunk
                   ∧ chunk !! j = Some x
                   ∧ chunks s !! chunk_key_of key (uuid4 (uuid_calls s0 + i))
                     = Some (chunk_of chunk).
Proof.
  intros Hh. destruct (history_rep key _ _ _ _ Hh)
    as (m & HR & Hm & Hcontents & _).
  split_and!; [done | apply (rep_nonempty _ _ _ _ HR) | |].
  - unfold num_chunks.
    rewrite (bind_ok _ _ _ _ _ (run_chunk_id_encoder_exists s)).
    destruct (chunks_index s) as [enc|] eqn:E; simpl.
    + rewrite (bind_ok _ _ _ _ _ (run_chunk_id_encoder _ _ E)).
      pose proof (rep_index_Some key _ _ _ HR ltac:(by rewrite E)) as E'.
      rewrite E in E'. injection E' as ->.
      by rewrite num_chunks_table.
    + by rewrite (Rep_nil_index key _ _ _ HR E).
  - intros g x Hg. rewrite <- Hcontents in Hg.
    destruct (locate (groups_of key s) g) as [[i j]|] eqn:Hloc.
    + destruct (locate_Some _ _ _ _ Hloc) as (chunk & Hi & Hj & _ & Hx).
      exists i, j, chunk. split_and!; try done.
      * by rewrite <- Hx.
      * by apply (rep_chunks _ _ _ _ HR).
    + apply locate_None in Hloc. apply lookup_lt_Some in Hg. lia.
Qed.

(** ** What chunks built by [extend] look like *)

(** A property of the chunks that every placement keeps is kept by every
    sequence of successful [extend] calls. *)
Lemma run_extends_keep (P : list (list serialized) → Prop) (max_size : Z)
    (ops : list op) :
  (∀ groups x, Forall (λ g, g ≠ []) groups → P groups →
               len x.1 ≤ max_size → P (place max_size groups x)) →
  ∀ (s s' : store) (u0 n : nat) (groups : list (list serialized))
    (m : TensorMeta.t),
  Rep key s u0 groups → meta_blob s = Some m → max_size_of m = max_size →
  distinct_keys key u0 n → (length groups + appended ops ≤ n)%nat →
  forallb (buffers_fit max_size) ops = true →
  Forall (λ o, ∃ d samples, o = Extend d samples) ops →
  P groups →
  run_ops key ops s = (Ok tt, s') →
  ∃ groups', Rep key s' u0 groups' ∧ P groups'.
Proof.
  intros Hplace.
  assert (∀ samples groups,
            Forall (λ g, g ≠ []) groups → P groups →
            Forall (λ x : serialized, len x.1 ≤ max_size) samples →
            P (foldl (place max_size) groups samples)) as Hfold.
  { induction samples as [|x samples IH]; intros groups Hne HP Hfits; [done|].
    apply Forall_cons in Hfits as [Hx Hfits]. simpl.
    apply IH; [|by apply Hplace|done].
    unfold place. destruct (last groups) as [l|] eqn:Hl.
    - destruct (merges max_size groups x.1).
      + apply Forall_insert; [done|].
        intros E. by destruct l.
      + apply Forall_app. split; [done|]. by repeat constructor.
    - apply Forall_app. split; [done|]. by repeat constructor. }
  induction ops as [|o ops IH];
    intros s s' u0 n groups m HR Hm Hmax Hd Hn Hfit Hext HP Hrun.
  { simpl in Hrun. injection Hrun as <-. by exists groups. }
  unfold run_ops in Hrun. simpl in Hrun.
  apply bind_inv_ok in Hrun as ([] & s1 & Hop & Hrun).
  simpl in Hfit. apply andb_prop in Hfit as [Hfit1 Hfit].
  rewrite appended_cons in Hn.
  apply Forall_cons in Hext as [(d & samples & ->) Hext].
  simpl in Hop, Hfit1.
  assert (Forall (λ x : serialized, len x.1 ≤ max_size) samples) as Hfits.
  { apply Forall_forall. intros x Hx.
    rewrite forallb_forall in Hfit1.
    apply Z.leb_le, Hfit1. by apply list_elem_of_In. }
  assert (length groups + length samples ≤ n)%nat as Hn0 by lia.
  rewrite <- Hmax in Hfits.
  destruct (run_extend_inv key s s1 u0 n groups m d samples
              HR Hm Hd Hn0 Hfits Hop)
    as (m1 & HR1 & Hm1 & Hafter & _).
  assert (max_size_of m1 = max_size) as Hmax1.
  { rewrite (max_size_of_meta_after _ _ _ Hafter).
    by rewrite max_size_of_meta_with_dtype. }
  pose proof (foldl_place_length (max_size_of m) groups samples) as Hlen.
  rewrite Hmax in *.
  apply (IH s1 s' u0 n _ m1 HR1 Hm1 Hmax1 Hd); try done; [lia|].
  apply Hfold; [apply (rep_nonempty _ _ _ _ HR)|done|done].
Qed.

Lemma history_extends_keep (P : list (list serialized) → Prop)
    (s0 s : store) (m0 : TensorMeta.t) (ops : list op) :
  (∀ groups x, Forall (λ g, g ≠ []) groups → P groups →
               len x.1 ≤ max_size_of m0 →
               P (place (max_size_of m0) groups x)) →
  P [] →
  History key s0 m0 ops s →
  Forall (λ o, ∃ d samples, o = Extend d samples) ops →
  Rep key s (uuid_calls s0) (groups_of key s) ∧ P (groups_of key s).
Proof.
  intros Hplace Hnil Hh Hext.
  destruct (run_extends_keep P (max_size_of m0) ops Hplace
              s0 s (uuid_calls s0) (appended ops) [] m0
              (Rep_fresh key s0 (history_new _ _ _ _ _ Hh))
              (history_meta _ _ _ _ _ Hh) eq_refl
              (history_keys _ _ _ _ _ Hh) ltac:(simpl; lia)
              (history_fit _ _ _ _ _ Hh) Hext Hnil
              (history_run _ _ _ _ _ Hh))
    as (groups' & HR & HP).
  by rewrite (groups_of_rep key _ _ _ HR).
Qed.

Lemma place_within (max_size : Z) (groups : list (list serialized))
    (x : serialized) :
  Forall (λ g, len (data_of g) ≤ max_size) groups →
  len x.1 ≤ max_size →
  Forall (λ g, len (data_of g) ≤ max_size) (place max_size groups x).
Proof.
  intros Hall Hx. unfold place.
  destruct (last groups) as [l|] eqn:Hl.
  - destruct (merges max_size groups x.1) eqn:Hm.
    + apply Forall_insert; [done|].
      unfold merges in Hm. rewrite Hl in Hm.
      apply andb_prop in Hm as [Hunder _]. apply Z.ltb_lt in Hunder.
      rewrite data_of_app, len_app.
      pose proof (merged_part_fits max_size l x.1 Hunder) as Hfit.
      unfold data_of at 2. simpl. rewrite app_nil_r. lia.
    + apply Forall_app. split; [done|]. repeat constructor.
      unfold data_of. simpl. by rewrite app_nil_r.
  - apply Forall_app. split; [done|]. repeat constructor.
    unfold data_of. simpl. by rewrite app_nil_r.
Qed.

(** X3.  No chunk may exceed [max_chunk_size]: in a tensor built by
    [extend] calls alone, with buffers no longer than [max_chunk_size],
    every chunk holds at most [max_chunk_size] data bytes, and so does the
    chunk that [get_chunk_for_sample] returns for any sample. *)
Theorem extend_keeps_chunks_within_max_chunk_size (s0 s : store)
    (m0 : TensorMeta.t) (ops : list op) :
  History key s0 m0 ops s →
  Forall (λ o, ∃ d samples, o = Extend d samples) ops →
  Forall (λ chunk, len (data_of chunk) ≤ max_size_of m0) (groups_of key s)
  ∧ ∀ (g : nat) (enc : ChunkIdEncoder.t) (chunk : string) (c : Chunk.t),
      chunks_index s = Some enc →
      get_chunk_for_sample key g enc s = (Ok chunk, s) →
      chunks s !! chunk = Some c →
      Chunk.num_data_bytes c ≤ max_size_of m0.
Proof.
  intros Hh Hext.
  destruct (history_extends_keep
              (Forall (λ g, len (data_of g) ≤ max_size_of m0))
              s0 s m0 ops) as [HR Hall]; try done.
  { intros groups x _. apply place_within. }
  split; [done|].
  intros g enc chunk c Henc Hget Hc.
  pose proof (rep_index_Some key _ _ _ HR ltac:(by rewrite Henc)) as E.
  rewrite Henc in E. injection E as ->.
  destruct (locate (groups_of key s) g) as [[i j]|] eqn:Hloc.
  - rewrite (run_get_chunk_for_sample key _ _ _ _ _ _ _ HR Hloc) in Hget.
    injection Hget as <-.
    destruct (locate_Some _ _ _ _ Hloc) as (l & Hi & _).
    rewrite (rep_chunks _ _ _ _ HR _ _ Hi) in Hc. injection Hc as <-.
    rewrite Forall_lookup in Hall. apply (Hall _ _ Hi).
  - by rewrite (run_get_chunk_for_sample_out_of_range key _ _ _ _ _ HR Hloc)
      in Hget.
Qed.


Lemma place_declined (max_size : Z) (groups : list (list serialized))
    (x : serialized) :
  let declined (chunk : list serialized) (first : serialized) :=
    max_size `div` 2 ≤ len (data_of chunk)
    ∨ _min_chunk_ct_for_data_size max_size (len first.1 + len (data_of chunk))
      ≠ _min_chunk_ct_for_data_size max_size (len first.1) in
  Forall (λ g, g ≠ []) groups →
  (∀ i chunk first rest,
     groups !! i = Some chunk → groups !! S i = Some (first :: rest) →
     declined chunk first) →
  ∀ i chunk first rest,
    place max_size groups x !! i = Some chunk →
    place max_size groups x !! S i = Some (first :: rest) →
    declined chunk first.
Proof.
  intros declined Hne Hall i chunk first rest Hi Hnext.
  destruct (last groups) as [l|] eqn:Hl.
  - destruct (last_Some groups l) as [[front ->] _]; [done|].
    destruct (merges max_size (front ++ [l]) x.1) eqn:Hm.
    + rewrite (place_merge _ _ l) in Hi, Hnext by done.
      rewrite length_app in Hi, Hnext. simpl in Hi, Hnext.
      replace (pred (length front + 1)) with (length front + 0)%nat
        in Hi, Hnext by lia.
      rewrite insert_app_r in Hi, Hnext. simpl in Hi, Hnext.
      assert (S i < length front ∨ S i = length front)%nat as [Hlt|Heq].
      { apply lookup_lt_Some in Hnext. rewrite length_app in Hnext.
        simpl in Hnext. lia. }
      * rewrite lookup_app_l in Hi, Hnext by lia.
        apply (Hall i chunk first rest); by rewrite lookup_app_l by lia.
      * rewrite lookup_app_l in Hi by lia.
        rewrite lookup_app_r in Hnext by lia.
        replace (S i - length front)%nat with 0%nat in Hnext by lia.
        simpl in Hnext. injection Hnext as Hnext.
        apply Forall_app in Hne as [_ Hne].
        apply Forall_cons in Hne as [Hne _].
        destruct l as [|y l]; [done|]. simpl in Hnext.
        injection Hnext as -> _.
        apply (Hall i chunk first l); [by rewrite lookup_app_l by lia|].
        rewrite lookup_app_r by lia.
        by replace (S i - length front)%nat with 0%nat by lia.
    + rewrite place_no_merge in Hi, Hnext by done.
      assert (S i < length (front ++ [l]) ∨ S i = length (front ++ [l]))%nat
        as [Hlt|Heq].
      { apply lookup_lt_Some in Hnext. rewrite !length_app in Hnext.
        simpl in Hnext. rewrite length_app. simpl. lia. }
      * rewrite lookup_app_l in Hi, Hnext by lia.
        by apply (Hall i chunk first rest).
      * rewrite lookup_app_r in Hnext by lia.
        replace (S i - length (front ++ [l]))%nat with 0%nat in Hnext by lia.
        simpl in Hnext. injection Hnext as <- <-.
        rewrite length_app in Heq. simpl in Heq.
        rewrite lookup_app_l in Hi by (rewrite length_app; simpl; lia).
        rewrite lookup_app_r in Hi by lia.
        replace (i - length front)%nat with 0%nat in Hi by lia.
        simpl in Hi. injection Hi as <-.
        unfold merges in Hm. rewrite last_snoc in Hm.
        unfold declined.
        apply andb_false_iff in Hm as [Hm|Hm].
        -- left. apply Z.ltb_ge in Hm. done.
        -- right. by apply Z.eqb_neq in Hm.
  - apply last_None in Hl. subst groups.
    unfold place in Hnext. simpl in Hnext. done.
Qed.

Lemma place_samples_fit (max_size : Z) (groups : list (list serialized))
    (x : serialized) :
  Forall (λ g, Forall (λ y : serialized, len y.1 ≤ max_size) g) groups →
  len x.1 ≤ max_size →
  Forall (λ g, Forall (λ y : serialized, len y.1 ≤ max_size) g)
         (place max_size groups x).
Proof.
  intros Hfits Hx. unfold place. destruct (last groups) as [l|] eqn:Hl.
  - destruct (merges max_size groups x.1) eqn:Hm.
    + apply Forall_insert; [done|]. apply Forall_app. split.
      * apply last_Some_elem_of in Hl.
        rewrite Forall_forall in Hfits. by apply Hfits.
      * repeat constructor. simpl.
        unfold merges in Hm. rewrite Hl in Hm.
        apply andb_prop in Hm as [Hunder Hct].
        apply Z.ltb_lt in Hunder. apply Z.eqb_eq in Hct.
        rewrite merged_part_all; [done|].
        apply merge_leaves_room; try done; apply len_nonneg.
    + apply Forall_app. split; [done|]. by repeat constructor.
  - apply Forall_app. split; [done|]. by repeat constructor.
Qed.

(** X4.  Only the last chunk may hold less than [min_chunk_size], unless
    the sample after it did not fit: in a tensor built by [extend] calls
    alone, every chunk that is followed by another one either holds at
    least [min_chunk_size] data bytes, or taking the first sample of the
    next chunk would have raised the number of chunks its bytes need; for
    a first sample that is not empty, that is: the two together exceed
    [max_chunk_size]. *)
Theorem chunk_before_another_is_full_enough (s0 s : store)
    (m0 : TensorMeta.t) (ops : list op) (i : nat)
    (chunk rest : list serialized) (first : serialized) :
  History key s0 m0 ops s →
  Forall (λ o, ∃ d samples, o = Extend d samples) ops →
  groups_of key s !! i = Some chunk →
  groups_of key s !! S i = Some (first :: rest) →
  let max_chunk_size := max_size_of m0 in
  let min_chunk_size := max_chunk_size `div` 2 in
  (min_chunk_size ≤ len (data_of chunk)
   ∨ _min_chunk_ct_for_data_size max_chunk_size
       (len first.1 + len (data_of chunk))
     ≠ _min_chunk_ct_for_data_size max_chunk_size (len first.1))
  ∧ (0 < len first.1 →
     min_chunk_size ≤ len (data_of chunk)
     ∨ max_chunk_size < len first.1 + len (data_of chunk)).
Proof.
  intros Hh Hext Hi Hnext max_chunk_size min_chunk_size.
  set (declined (chunk : list serialized) (first : serialized) :=
         max_chunk_size `div` 2 ≤ len (data_of chunk)
         ∨ _min_chunk_ct_for_data_size max_chunk_size
             (len first.1 + len (data_of chunk))
           ≠ _min_chunk_ct_for_data_size max_chunk_size (len first.1)).
  destruct (history_extends_keep
              (λ groups,
                 (∀ i chunk first rest,
                    groups !! i = Some chunk →
                    groups !! S i = Some (first :: rest) →
                    declined chunk first)
                 ∧ Forall (λ g, Forall (λ x : serialized,
                                          len x.1 ≤ max_chunk_size) g) groups)
              s0 s m0 ops) as [HR [Hall Hfits]]; try done.
  { intros groups x Hne [Hall Hfits] Hx. split.
    - by apply place_declined.
    - by apply place_samples_fit. }
  pose proof (Hall i chunk first rest Hi Hnext) as Hd.
  split; [exact Hd|].
  intros Hpos. destruct Hd as [Hd|Hd]; [by left|].
  destruct (decide (min_chunk_size ≤ len (data_of chunk))) as [|Hunder];
    [by left|right].
  assert (len first.1 ≤ max_chunk_size) as Hfit.
  { rewrite Forall_lookup in Hfits. pose proof (Hfits _ _ Hnext) as Hnext'.
    by apply Forall_cons in Hnext' as [? _]. }
  pose proof (len_nonneg (data_of chunk)) as Hs.
  destruct (decide (max_chunk_size < len first.1 + len (data_of chunk)))
    as [|Hle]; [done|].
  exfalso. apply Hd.
  assert (0 < max_chunk_size) as Hmax by lia.
  rewrite (min_chunk_ct_unique max_chunk_size (len first.1) 1) by lia.
  apply min_chunk_ct_unique; lia.
Qed.

(** ** [update] *)


Lemma history_run_num_samples (s0 s : store) (m0 : TensorMeta.t)
    (ops : list op) :
  History key s0 m0 ops s →
  num_samples s = (Ok (length (contents_after ops)), s).
Proof.
  intros Hh. pose proof (history_num_samples _ _ _ _ Hh) as Hn.
  unfold num_samples.
  rewrite (bind_ok _ _ _ _ _ (run_chunk_id_encoder_exists s)).
  destruct (chunks_index s) as [enc|] eqn:E; simpl.
  - rewrite (bind_ok _ _ _ _ _ (run_chunk_id_encoder _ _ E)). by rewrite Hn.
  - by rewrite <- Hn.
Qed.

Lemma history_run_num_chunks (s0 s : store) (m0 : TensorMeta.t)
    (ops : list op) :
  History key s0 m0 ops s →
  num_chunks s = (Ok (length (groups_of key s)), s).
Proof.
  intros Hh. destruct (history_rep key _ _ _ _ Hh) as (m & HR & _).
  unfold num_chunks.
  rewrite (bind_ok _ _ _ _ _ (run_chunk_id_encoder_exists s)).
  destruct (chunks_index s) as [enc|] eqn:E; simpl.
  - rewrite (bind_ok _ _ _ _ _ (run_chunk_id_encoder _ _ E)).
    pose proof (rep_index_Some key _ _ _ HR ltac:(by rewrite E)) as E'.
    rewrite E in E'. injection E' as ->.
    by rewrite num_chunks_table.
  - by rewrite (Rep_nil_index key _ _ _ HR E).
Qed.


(** What [update] does first: it checks for read-only storage and gets the
    chunk id encoder, which it creates blank when the cache holds none and
    the meta counts at most one sample. *)
Lemma update_entry (s : store) (m : TensorMeta.t) (index : Index.t)
    (new : samples_arg) :
  read_only s = false →
  meta_blob s = Some m →
  update key index new s
  = match chunks_index s with
    | Some _ =>
        (if Index.is_single_dim_effective index
         then _update_sample key index new
         else _update_sample_subslice index new) s
    | None =>
        if bool_decide (1 < TensorMeta.length m)%nat
        then (Raise CorruptedMetaError, s)
        else (if Index.is_single_dim_effective index
              then _update_sample key index new
              else _update_sample_subslice index new)
               (with_index s ChunkIdEncoder.blank)
    end.
Proof.
  intros Hro Hm. unfold update.
  rewrite (bind_ok _ _ s s tt) by (unfold check_readonly; by rewrite Hro).
  destruct (chunks_index s) as [enc|] eqn:Henc.
  - rewrite (bind_ok _ _ _ _ _ (run_chunk_id_encoder _ _ Henc)).
    by rewrite (bind_ok _ _ s s tt).
  - pose proof (run_chunk_id_encoder_blank _ _ Henc Hm) as Hblank.
    case_bool_decide.
    + by rewrite (bind_raise _ _ _ _ _ Hblank).
    + rewrite (bind_ok _ _ _ _ _ Hblank).
      by rewrite (bind_ok _ _ (with_index s ChunkIdEncoder.blank)
                    (with_index s ChunkIdEncoder.blank) tt).
Qed.

(** X6.  Updating part of a sample is not supported: on a writable tensor
    [update] with an index that reaches below the primary axis writes no
    sample and raises [NotImplementedError], or [UpdateSampleError] when
    the incoming data has no [shape].  A cache that holds the chunk id
    encoder is left as it is; when the encoder is missing, [update] has
    created a blank one before it raises, or raises [CorruptedMetaError]
    when the meta counts more than one sample. *)
Theorem update_of_a_subslice_is_refused (s : store) (m : TensorMeta.t)
    (index : Index.t) (new : samples_arg) :
  read_only s = false →
  meta_blob s = Some m →
  Index.is_single_dim_effective index = false →
  let refused :=
    match new with
    | Sequence (Some _) _ _ | Single (Some _) _ | Unsized _ =>
        NotImplementedError
    | Sequence None _ _ | Single None _ => UpdateSampleError
    end in
  update key index new s
  = match chunks_index s with
    | Some _ => (Raise refused, s)
    | None =>
        if bool_decide (1 < TensorMeta.length m)%nat
        then (Raise CorruptedMetaError, s)
        else (Raise refused, with_index s ChunkIdEncoder.blank)
    end.
Proof.
  intros Hro Hm Hsub refused. rewrite (update_entry _ _ _ _ Hro Hm), Hsub.
  assert (∀ s', _update_sample_subslice index new s' = (Raise refused, s'))
    as Hrefused.
  { intros s'. unfold _update_sample_subslice, refused.
    by destruct new as [[?|] ? ?|[?|] ?|?]. }
  by rewrite !Hrefused.
Qed.

(** X7.  On a writable tensor [update] with a sequence whose length is not
    the number of samples the index addresses raises [ValueError] before
    any sample or meta is written, unless the index addresses exactly one
    sample (the sequence is then taken as that one sample).  A cache that
    holds the chunk id encoder is left as it is; when the encoder is
    missing, [update] has created a blank one, of no samples, before it
    raises, or raises [CorruptedMetaError] when the meta counts more than
    one sample. *)
Theorem update_with_a_wrong_number_of_samples (s : store)
    (m : TensorMeta.t) (index : Index.t)
    (shape_attr : option shape_t) (whole : serialized)
    (items : list serialized) :
  read_only s = false →
  meta_blob s = Some m →
  Index.is_single_dim_effective index = true →
  let num_samples :=
    match chunks_index s with
    | Some enc => ChunkIdEncoder.num_samples enc
    | None => 0%nat
    end in
  let index_length := Index.length index num_samples in
  index_length ≠ 1%nat →
  length items ≠ index_length →
  update key index (Sequence shape_attr whole items) s
  = match chunks_index s with
    | Some _ => (Raise ValueError, s)
    | None =>
        if bool_decide (1 < TensorMeta.length m)%nat
        then (Raise CorruptedMetaError, s)
        else (Raise ValueError, with_index s ChunkIdEncoder.blank)
    end.
Proof.
  intros Hro Hm Hsingle n index_length Hone Hlen.
  rewrite (update_entry _ _ _ _ Hro Hm), Hsingle.
  assert (∀ s' enc,
            chunks_index s' = Some enc → meta_blob s' = Some m →
            ChunkIdEncoder.num_samples enc = n →
            _update_sample key index (Sequence shape_attr whole items) s'
            = (Raise ValueError, s')) as Hraise.
  { intros s' enc Henc Hm' Hn. unfold _update_sample.
    rewrite (bind_ok _ _ _ _ _ (run_tensor_meta _ _ Hm')).
    rewrite (bind_ok _ _ _ _ _ (run_chunk_id_encoder _ _ Henc)).
    rewrite (bind_ok _ _ _ _ _ (run_num_samples _ _ Henc)).
    apply bind_lift_raise. rewrite Hn. fold index_length.
    unfold _make_sequence.
    rewrite (bool_decide_false (index_length = 1%nat)) by done.
    rewrite bool_decide_true; [done|]. by intros E. }
  unfold n in Hraise.
  destruct (chunks_index s) as [enc|] eqn:Henc.
  - by apply (Hraise s enc).
  - case_bool_decide; [done|].
    by apply (Hraise _ ChunkIdEncoder.blank).
Qed.


End Engine.

(** ** The helpers of the engine *)

Section Helpers.

(** X9.  [_make_sequence] on a value with a length returns a sequence of
    exactly [index_length] items or raises [ValueError]: the value itself
    when its length is [index_length], the value wrapped as one item when
    one item is expected and its length is not 1.  A value without a
    length is always wrapped as one item, whatever [index_length] is.  On
    a numpy array of no dimension, which has a [__len__] that raises, it
    raises [TypeError]. *)
Theorem make_sequence_length (shape_attr : option shape_t)
    (whole : serialized) (items : list serialized) (index_length : nat) :
  match _make_sequence (Sequence shape_attr whole items) index_length with
  | Ok result =>
      length result = index_length
      ∧ (if bool_decide (length items = index_length) then result = items
         else index_length = 1%nat ∧ result = [whole])
  | Raise e =>
      e = ValueError ∧ index_length ≠ 1%nat ∧ length items ≠ index_length
  end
  ∧ _make_sequence (Single shape_attr whole) index_length = Ok [whole]
  ∧ _make_sequence (Unsized whole) index_length = Raise TypeError.
Proof.
  unfold _make_sequence. split_and!.
  - destruct (decide (index_length = 1%nat)) as [Hone|Hone];
      destruct (decide (length items = index_length)) as [E|E];
      repeat (case_bool_decide; simpl); try done; try lia;
      split_and?; try done; try lia.
  - destruct shape_attr as [shape|]; simpl;
      repeat (case_bool_decide; simpl); try done;
      destruct (0 <? len shape); simpl;
      repeat (case_bool_decide; simpl); done.
  - first [done | by case_bool_decide].
Qed.


Lemma size_list_to_set_1 `{Countable A} (l : list A) :
  size (list_to_set l : gset A) = 1%nat
  ↔ ∃ x, head l = Some x ∧ Forall (λ y, y = x) l.
Proof.
  split.
  - intros Hsize. apply size_1_elem_of in Hsize as [x Hx].
    destruct l as [|y l].
    + exfalso. assert (x ∈ (list_to_set [] : gset A)) as Hin.
      { rewrite Hx. by apply elem_of_singleton. }
      by apply elem_of_empty in Hin.
    + exists y. split; [done|].
      assert (∀ z, z ∈ y :: l → z = x) as Hall.
      { intros z Hz. apply (elem_of_list_to_set (C := gset A)) in Hz.
        rewrite Hx in Hz. by apply elem_of_singleton in Hz. }
      assert (y = x) as -> by (apply Hall; apply list_elem_of_here).
      apply Forall_forall. intros z Hz. by apply Hall.
  - intros (x & Hhead & Hall). destruct l as [|y l]; [done|].
    simpl in Hhead. injection Hhead as ->.
    assert ((list_to_set (x :: l) : gset A) = {[x]}) as ->.
    { apply set_eq. intros z. rewrite elem_of_list_to_set, elem_of_singleton.
      split.
      - intros Hz. rewrite Forall_forall in Hall. by apply Hall.
      - intros ->. apply list_elem_of_here. }
    apply size_singleton.
Qed.

(** X11.  [is_uniform_sequence] accepts exactly the non-empty sequences
    whose samples all have the type of the first one and, if numpy arrays
    are among them, all have its shape, and among which there is no
    [Sample] object unless there is a numpy array too; the empty sequence
    is not uniform. *)
Theorem is_uniform_sequence_spec (samples : list sample_value) :
  is_uniform_sequence samples = true
  ↔ ∃ first,
      head samples = Some first
      ∧ Forall (λ s, type_of s = type_of first) samples
      ∧ if existsb is_ndarray samples
        then Forall (λ s, shape_of s = shape_of first) samples
        else existsb is_Sample samples = false.
Proof.
  unfold is_uniform_sequence.
  assert (∀ {B} `{Countable B} (f : sample_value → B) first,
            head samples = Some first →
            (size (list_to_set (f <$> samples) : gset B) = 1%nat
             ↔ Forall (λ s, f s = f first) samples)) as Hone.
  { intros B ? ? f first Hhead. rewrite size_list_to_set_1.
    destruct samples as [|s0 samples]; [done|].
    injection Hhead as ->. rewrite fmap_cons. split.
    - intros (x & Hx & Hall). injection Hx as <-.
      apply Forall_cons in Hall as [_ Hall].
      apply Forall_cons. split; [done|].
      by apply Forall_fmap in Hall.
    - intros Hall. exists (f first). split; [done|].
      apply Forall_cons in Hall as [_ Hall].
      apply Forall_cons. split; [done|]. by apply Forall_fmap. }
  destruct (decide (samples = [])) as [->|Hne].
  { split; [done|]. by intros (? & ? & _). }
  assert (∃ first, head samples = Some first) as [first Hhead]
    by (destruct samples; [done|by eexists]).
  pose proof (Hone _ _ _ type_of first Hhead) as Htypes.
  pose proof (Hone _ _ _ shape_of first Hhead) as Hshapes.
  case_bool_decide as Ht.
  - split; [done|]. intros (first' & Hhead' & Hall & _).
    rewrite Hhead in Hhead'. injection Hhead' as <-.
    exfalso. apply Ht. by apply Htypes.
  - assert (size (list_to_set (type_of <$> samples) : gset string) = 1%nat)
      as Ht' by (destruct (decide (size (list_to_set (type_of <$> samples)
                                           : gset string) = 1%nat)); done).
    apply Htypes in Ht'.
    destruct (existsb is_ndarray samples).
    + rewrite bool_decide_eq_true, Hshapes. split.
      * intros Hall. by exists first.
      * intros (first' & Hhead' & _ & Hall).
        rewrite Hhead in Hhead'. by injection Hhead' as <-.
    + destruct (existsb is_Sample samples).
      * split; [done|]. by intros (? & _ & _ & ?).
      * split; [|done]. intros _. by exists first.
Qed.

End Helpers.

(** ** The local storage of the PyTorch integration *)

Section LocalStorage.

Lemma chars_append (s t : string) :
  String.list_ascii_of_string (s +:+ t)
  = String.list_ascii_of_string s ++ String.list_ascii_of_string t.
Proof. induction s as [|c s IH]; simpl; [done|]. by rewrite IH. Qed.

Lemma replace_from_here (old new : string) (d : ascii) (s : string) :
  pytorch.replace_from old new 0 (String d s)
  = if String.prefix old (String d s)
    then new +:+ pytorch.replace_from old new (String.length old - 1) s
    else String d (pytorch.replace_from old new 0 s).
Proof. done. Qed.

(** [replace] brings in no character but those of [new]. *)
Lemma replace_from_chars (old new : string) (c : ascii) (s : string)
    (skip : nat) :
  c ∈ String.list_ascii_of_string (pytorch.replace_from old new skip s) →
  c ∈ String.list_ascii_of_string s ∨ c ∈ String.list_ascii_of_string new.
Proof.
  revert skip. induction s as [|d s IH]; intros skip Hc.
  { by left. }
  assert (∀ k, c ∈ String.list_ascii_of_string (pytorch.replace_from old new k s) →
               c ∈ String.list_ascii_of_string (String d s)
               ∨ c ∈ String.list_ascii_of_string new) as IH'.
  { intros k Hk. destruct (IH _ Hk) as [?|?]; [left|by right].
    simpl. by apply list_elem_of_further. }
  destruct skip as [|skip]; [|by apply (IH' skip)].
  rewrite replace_from_here in Hc.
  destruct (String.prefix old (String d s)).
  - rewrite chars_append in Hc. apply elem_of_app in Hc as [Hc|Hc].
    + by right.
    + by apply (IH' _ Hc).
  - simpl in Hc. apply elem_of_cons in Hc as [->|Hc].
    + left. apply list_elem_of_here.
    + by apply (IH' _ Hc).
Qed.

Lemma prefix_of_a_character (c d : ascii) (s : string) :
  String.prefix (String c EmptyString) (String d s) = bool_decide (c = d).
Proof.
  simpl. destruct (Ascii.ascii_dec c d) as [->|Hne].
  - rewrite bool_decide_true by done. by destruct s.
  - by rewrite bool_decide_false.
Qed.

(** Replacing a character by a string without it removes it. *)
Lemma replace_removes (c : ascii) (new s : string) :
  c ∉ String.list_ascii_of_string new →
  c ∉ String.list_ascii_of_string
        (pytorch.replace s (String c EmptyString) new).
Proof.
  intros Hnew. unfold pytorch.replace.
  induction s as [|d s IH].
  { apply not_elem_of_nil. }
  rewrite replace_from_here, prefix_of_a_character.
  case_bool_decide as Hcd.
  - rewrite chars_append. intros Hin.
    apply elem_of_app in Hin as [Hin|Hin]; done.
  - simpl. intros Hin. apply elem_of_cons in Hin as [->|Hin]; done.
Qed.

(** X12.  The local cache of the PyTorch integration is a direct child of
    [LOCAL_CACHE_PREFIX]: the name that [get_pytorch_local_storage] makes
    of the dataset path holds neither a slash nor a backslash. *)
Theorem local_storage_is_a_child_of_the_prefix
    (LOCAL_CACHE_PREFIX dataset_path : string) :
  ∃ local_cache_name,
    pytorch.get_pytorch_local_storage LOCAL_CACHE_PREFIX dataset_path
    = (LOCAL_CACHE_PREFIX +:+ "/" +:+ local_cache_name)
    ∧ ("/"%char ∉ String.list_ascii_of_string local_cache_name)
    ∧ ("\"%char ∉ String.list_ascii_of_string local_cache_name).
Proof.
  unfold pytorch.get_pytorch_local_storage.
  set (name1 := pytorch.replace (dataset_path +:+ "_pytorch") "://" "_").
  set (name2 := pytorch.replace name1 "/" "_").
  exists (pytorch.replace name2 "\" "_").
  assert ("/"%char ∉ String.list_ascii_of_string name2) as Hslash.
  { apply replace_removes. simpl. intros Hin.
    apply list_elem_of_singleton in Hin. done. }
  split_and!; [done| |].
  - intros Hin. unfold pytorch.replace in Hin.
    apply replace_from_chars in Hin as [Hin|Hin]; [done|].
    simpl in Hin. apply list_elem_of_singleton in Hin. done.
  - apply replace_removes. simpl. intros Hin.
    apply list_elem_of_singleton in Hin. done.
Qed.

End LocalStorage.

(** ** The warning thresholds *)

Section Thresholds.

Lemma suboptimal_in_integers (min_size max_size nbytes : Z) :
  suboptimal min_size max_size nbytes = true
  ↔ 6 * max_size < 5 * nbytes ∨ 5 * nbytes < 4 * min_size.
Proof.
  unfold suboptimal, Qlt_bool, CHUNK_UPDATE_WARN_PORTION.
  rewrite orb_true_iff, !negb_true_iff.
  assert (∀ x y : Q, Qle_bool x y = false ↔ ¬ (x <= y)%Q) as Hle.
  { intros x y. rewrite <- Qle_bool_iff. by destruct (Qle_bool x y). }
  rewrite !Hle. unfold Qle, Qmult, Qplus, Qminus, Qopp, inject_Z. simpl.
  split; (intros [?|?]; [left|right]); lia.
Qed.

(** X13.  For chunk sizes below [2^49], where the float products
    [max_chunk_size * 1.2] and [min_chunk_size * 0.8] compare with an
    integer as the exact ones do, [_warn_if_suboptimal_chunks] warns once,
    however many of the sizes are out of bounds, and changes nothing
    else; a size is out of bounds when it is above [1.2 * max_chunk_size]
    or below [0.8 * min_chunk_size], that is when
    [5 * nbytes > 6 * max_chunk_size] or [5 * nbytes < 4 * min_chunk_size]. *)
Theorem suboptimal_chunks_are_warned_about_once
    (chunks_nbytes_after_updates : list Z)
    (min_chunk_size max_chunk_size : Z) (s : store) :
  0 ≤ min_chunk_size < 2 ^ 49 →
  0 ≤ max_chunk_size < 2 ^ 49 →
  ∃ s',
    _warn_if_suboptimal_chunks chunks_nbytes_after_updates
      min_chunk_size max_chunk_size s = (Ok tt, s')
    ∧ read_only s' = read_only s ∧ meta_blob s' = meta_blob s
    ∧ chunks_index s' = chunks_index s ∧ chunks s' = chunks s
    ∧ warnings s'
      = warnings s
        ++ (if bool_decide
                 (Exists (λ nbytes, 6 * max_chunk_size < 5 * nbytes
                                    ∨ 5 * nbytes < 4 * min_chunk_size)
                         chunks_nbytes_after_updates)
            then [SUBOPTIMAL_CHUNKS_WARNING] else []).
Proof.
  intros _ _.
  rewrite run_warn_if_suboptimal_chunks. eexists. split; [done|].
  assert (existsb (suboptimal min_chunk_size max_chunk_size)
            chunks_nbytes_after_updates
          = bool_decide
              (Exists (λ nbytes, 6 * max_chunk_size < 5 * nbytes
                                 ∨ 5 * nbytes < 4 * min_chunk_size)
                      chunks_nbytes_after_updates)) as ->.
  { apply eq_true_iff_eq. rewrite existsb_exists, bool_decide_eq_true.
    rewrite Exists_exists. split.
    - intros (n & Hin & Hn). exists n. split; [by apply list_elem_of_In|].
      by apply suboptimal_in_integers.
    - intros (n & Hin & Hn). exists n. split; [by apply list_elem_of_In|].
      by apply suboptimal_in_integers. }
  case_bool_decide; simpl; by rewrite ?app_nil_r.
Qed.

End Thresholds.

(** ** Methods that only read *)

Section ReadsOnly.

Context `{Externals}.
Variable key : string.

Lemma reads_only_ret {A : Type} (a : A) : reads_only (mret a).
Proof. by intros s _. Qed.

Lemma reads_only_raise {A : Type} (e : exception) : reads_only (@raise A e).
Proof. by intros s _. Qed.

Lemma reads_only_lift {A : Type} (o : outcome A) : reads_only (lift o).
Proof. by intros s _. Qed.

Lemma reads_only_get_store : reads_only get_store.
Proof. by intros s _. Qed.

Lemma reads_only_bind {A B : Type} (m : M A) (f : A → M B) :
  reads_only m → (∀ a, reads_only (f a)) → reads_only (m ≫= f).
Proof.
  intros Hm Hf s Hs. pose proof (Hm s Hs) as E.
  unfold mbind, M_bind. destruct (m s) as [[a|e] s1]; simpl in E; subst s1.
  - by apply Hf.
  - done.
Qed.

(** Settles [reads_only] for a method built from reads. *)
Ltac reads_only :=
  repeat first
    [ assumption
    | apply reads_only_ret | apply reads_only_raise | apply reads_only_lift
    | apply reads_only_get_store
    | apply reads_only_bind; [|intros ?]
    | match goal with
      | |- reads_only (match ?x with _ => _ end) => destruct x
      | |- reads_only (if ?b then _ else _) => destruct b
      | |- reads_only (let '(_, _) := ?p in _) => destruct p
      end ].

Lemma reads_only_tensor_meta : reads_only tensor_meta.
Proof. unfold tensor_meta. reads_only. Qed.

Lemma reads_only_chunk_id_encoder_exists : reads_only chunk_id_encoder_exists.
Proof. unfold chunk_id_encoder_exists. reads_only. Qed.

Lemma reads_only_chunk_id_encoder : reads_only chunk_id_encoder.
Proof.
  intros s [enc E]. by rewrite (run_chunk_id_encoder _ _ E).
Qed.

Lemma reads_only_num_samples : reads_only num_samples.
Proof.
  intros s [enc E]. by rewrite (run_num_samples _ _ E).
Qed.

Lemma reads_only_num_chunks : reads_only num_chunks.
Proof.
  intros s [enc E]. by rewrite (run_num_chunks _ _ E).
Qed.

Lemma reads_only_deref (chunk : string) : reads_only (deref chunk).
Proof.
  intros s _. unfold deref.
  rewrite (bind_ok _ _ s s s) by done. by destruct (chunks s !! chunk).
Qed.

Lemma reads_only_get_cachable_chunk (chunk_key : string) :
  reads_only (get_cachable_chunk chunk_key).
Proof.
  intros s _. unfold get_cachable_chunk.
  rewrite (bind_ok _ _ s s s) by done. by destruct (chunks s !! chunk_key).
Qed.

Lemma reads_only_get_chunk_for_sample (g : nat) (enc : ChunkIdEncoder.t) :
  reads_only (get_chunk_for_sample key g enc).
Proof.
  unfold get_chunk_for_sample.
  pose proof reads_only_get_cachable_chunk. reads_only.
Qed.

Lemma reads_only_read_sample_from_chunk (g : nat) (chunk : string)
    (cast : bool) :
  reads_only (read_sample_from_chunk g chunk cast).
Proof.
  unfold read_sample_from_chunk.
  pose proof reads_only_tensor_meta. pose proof reads_only_chunk_id_encoder.
  pose proof (reads_only_deref chunk).
  reads_only.
Qed.

Lemma reads_only_for_fold {A S : Type} (xs : list A) (body : S → A → M S) :
  (∀ locals x, reads_only (body locals x)) →
  ∀ locals, reads_only (for_fold xs locals body).
Proof.
  intros Hbody. induction xs as [|x xs IH]; intros locals; simpl.
  - apply reads_only_ret.
  - apply reads_only_bind; [apply Hbody|apply IH].
Qed.

Lemma reads_only_numpy (index : Index.t) (aslist : bool) :
  reads_only (numpy key index aslist).
Proof.
  unfold numpy.
  apply reads_only_bind; [apply reads_only_num_samples|intros n].
  apply reads_only_bind; [apply reads_only_chunk_id_encoder|intros enc].
  apply reads_only_bind; [|intros ?; apply reads_only_lift].
  apply reads_only_for_fold. intros locals g. unfold numpy_body.
  apply reads_only_bind; [apply reads_only_get_chunk_for_sample|intros chunk].
  apply reads_only_bind; [apply reads_only_read_sample_from_chunk|intros a].
  reads_only.
Qed.

Lemma reads_only_get_chunk_names_loop (fuel : nat) :
  ∀ (names : gset string) (start last_index target : nat),
    reads_only (get_chunk_names_loop fuel names start last_index target).
Proof.
  induction fuel as [|fuel IH]; intros names start last_index target; simpl.
  - apply reads_only_ret.
  - pose proof reads_only_chunk_id_encoder.
    destruct (_ && _); [|apply reads_only_ret].
    apply reads_only_bind; [done|intros enc].
    apply reads_only_bind; [apply reads_only_lift|intros id].
    apply reads_only_bind; [done|intros _]. apply IH.
Qed.

Lemma reads_only_validate : reads_only validate_num_samples_is_synchronized.
Proof.
  unfold validate_num_samples_is_synchronized.
  pose proof reads_only_tensor_meta. pose proof reads_only_chunk_id_encoder.
  pose proof reads_only_chunk_id_encoder_exists.
  reads_only.
Qed.

(** X14.  Reading changes nothing: on a cache that holds the chunk id
    encoder, [numpy], reading one sample, [get_chunk_names],
    [validate_num_samples_is_synchronized], [num_samples], [num_chunks]
    and the length of a tensor leave the cache exactly as it is, whether
    they return or raise. *)
Theorem reading_leaves_the_cache_alone (s : store) (index : Index.t)
    (aslist : bool) (g start last_index target : nat) (tensor : Tensor.t) :
  is_Some (chunks_index s) →
  (numpy key index aslist s).2 = s
  ∧ (read key g s).2 = s
  ∧ (get_chunk_names start last_index target s).2 = s
  ∧ (validate_num_samples_is_synchronized s).2 = s
  ∧ (num_samples s).2 = s
  ∧ (num_chunks s).2 = s
  ∧ (Tensor.__len__ tensor s).2 = s.
Proof.
  intros Hs. split_and!.
  - by apply reads_only_numpy.
  - revert s Hs. change (reads_only (read key g)). unfold read.
    apply reads_only_bind; [apply reads_only_chunk_id_encoder|intros enc].
    apply reads_only_bind; [apply reads_only_get_chunk_for_sample|intros c].
    apply reads_only_read_sample_from_chunk.
  - by apply reads_only_get_chunk_names_loop.
  - by apply reads_only_validate.
  - by apply reads_only_num_samples.
  - by apply reads_only_num_chunks.
  - revert s Hs. change (reads_only (Tensor.__len__ tensor)).
    unfold Tensor.__len__.
    apply reads_only_bind; [apply reads_only_num_samples|intros n].
    apply reads_only_ret.
Qed.

End ReadsOnly.

(** ** The dtype and the length of a tensor *)

Section TensorView.

Context `{Externals}.
Variable key : string.

Lemma dtype_after_Some (d : np.dtype) (ops : list op) :
  dtype_after (Some d) ops = Some d.
Proof. unfold dtype_after. by induction ops as [|o ops IH]. Qed.

Lemma dtype_after_None (ops : list op) :
  dtype_after None ops
  = head (omap (λ o, match o with
                     | Extend d _ => Some d
                     | Update _ _ => None
                     end) ops).
Proof.
  induction ops as [|[d samples|index samples] ops IH]; [done| |done].
  apply dtype_after_Some.
Qed.

(** X15.  The dtype of a tensor is settled once: a tensor created with a
    dtype keeps it, and a tensor created without one takes the dtype of
    the samples of its first [extend]; no later [extend] or [update]
    changes it. *)
Theorem first_extend_settles_the_dtype (s0 s : store) (m0 : TensorMeta.t)
    (ops : list op) :
  History key s0 m0 ops s →
  ∃ m, meta_blob s = Some m
       ∧ TensorMeta.dtype m
         = match TensorMeta.dtype m0 with
           | Some d => Some d
           | None => head (omap (λ o, match o with
                                      | Extend d _ => Some d
                                      | Update _ _ => None
                                      end) ops)
           end.
Proof.
  intros Hh. destruct (history_rep key _ _ _ _ Hh)
    as (m & _ & Hm & _ & _ & _ & Hd & _).
  exists m. split; [done|]. rewrite Hd.
  destruct (TensorMeta.dtype m0) as [d|].
  - apply dtype_after_Some.
  - apply dtype_after_None.
Qed.


End TensorView.

(** ** The ends of a tensor *)

Section Ends.

Context `{Externals}.
Variable key : string.

(** X17.  [extend] with no samples appends nothing: on a tensor that can
    be written and has a dtype (so that [get_dtype] is not called) it
    succeeds, and the chunks, the samples in them and the number of
    samples are what they were. *)
Theorem extend_of_nothing_appends_nothing (s0 s : store) (m0 : TensorMeta.t)
    (ops : list op) (samples_dtype : np.dtype) :
  History key s0 m0 ops s →
  TensorMeta.length m0 = 0%nat →
  read_only s = false →
  is_Some (dtype_after (TensorMeta.dtype m0) ops) →
  ∃ s', extend key samples_dtype [] s = (Ok tt, s')
        ∧ groups_of key s' = groups_of key s
        ∧ num_samples s' = (Ok (length (contents_after ops)), s')
        ∧ num_chunks s' = (Ok (length (groups_of key s)), s')
        ∧ warnings s' = warnings s.
Proof.
  intros Hh Hnew Hro _.
  destruct (history_rep key _ _ _ _ Hh)
    as (m & HR & Hm & Hcontents & _ & _ & _ & Hlen & Hgroups).
  assert (chunks_index s = None → TensorMeta.length m ≤ 1)%nat as Hblank.
  { intros E. pose proof (Rep_nil_index key _ _ _ HR E) as Hnil.
    rewrite Hnil in Hcontents. simpl in Hcontents.
    pose proof (contents_length ops []) as Hc.
    unfold contents_after in Hcontents. rewrite <- Hcontents in Hc.
    simpl in Hc. lia. }
  pose proof (run_extend key s (uuid_calls s0) (appended ops)
                (groups_of key s) m samples_dtype []
                HR Hm Hro Hblank (history_keys _ _ _ _ _ Hh)
                ltac:(simpl; lia) ltac:(constructor)) as Hrun.
  simpl in Hrun.
  destruct Hrun as (s' & Hextend & HR' & _ & _ & Hw & _).
  assert (History key s0 m0 (ops ++ [Extend samples_dtype []]) s') as Hh'.
  { apply (History_snoc key s0 s s' m0 ops _ Hh); [done| |done].
    rewrite appended_app. unfold appended at 2. simpl.
    rewrite Nat.add_0_r. apply (history_keys _ _ _ _ _ Hh). }
  assert (contents_after (ops ++ [Extend samples_dtype []])
          = contents_after ops) as Hsame.
  { unfold contents_after. rewrite foldl_app. simpl. apply app_nil_r. }
  exists s'. split_and!; [done| | | |done].
  - apply (groups_of_rep key _ _ _ HR').
  - rewrite (history_run_num_samples key _ _ _ _ Hh'). by rewrite Hsame.
  - rewrite (history_run_num_chunks key _ _ _ _ Hh').
    by rewrite (groups_of_rep key _ _ _ HR').
Qed.

(** X18.  [last_chunk] is the chunk that holds the last sample: [None]
    for a tensor without samples, and otherwise the chunk in the cache
    whose last sample is the last sample of the tensor. *)
Theorem last_chunk_holds_the_last_sample (s0 s : store) (m0 : TensorMeta.t)
    (ops : list op) :
  History key s0 m0 ops s →
  match last (contents_after ops) with
  | None => last_chunk key s = (Ok None, s)
  | Some x =>
      ∃ chunk samples,
        last_chunk key s = (Ok (Some chunk), s)
        ∧ chunks s !! chunk = Some (chunk_of samples)
        ∧ last (groups_of key s) = Some samples
        ∧ last samples = Some x
  end.
Proof.
  intros Hh. destruct (history_rep key _ _ _ _ Hh)
    as (m & HR & _ & Hcontents & _).
  rewrite <- Hcontents.
  pose proof (rep_nonempty _ _ _ _ HR) as Hne.
  destruct (last (groups_of key s)) as [l|] eqn:Hl.
  - destruct (last_Some (groups_of key s) l) as [[front Hfront] _]; [done|].
    assert (l ≠ []) as Hl'.
    { rewrite Hfront in Hne. apply Forall_app in Hne as [_ Hne].
      by apply Forall_cons in Hne as [? _]. }
    assert (last (concat (groups_of key s)) = last l) as ->.
    { rewrite Hfront, concat_app. simpl. rewrite app_nil_r, last_app.
      destruct (last l) eqn:E; [done|]. by apply last_None in E. }
    destruct (last l) as [x|] eqn:Hx; [|by apply last_None in Hx].
    eexists _, l.
    split_and!; [|by apply (rep_last_chunk key _ _ _ _ HR)|done|done].
    by apply (run_last_chunk_some key _ _ _ l).
  - apply last_None in Hl. rewrite Hl in *. simpl.
    by apply (run_last_chunk_none key s (uuid_calls s0)).
Qed.

End Ends.

(** * The engine run on concrete tensors *)

Section Scenarios.

#[local] Existing Instance reference.

(** Closed goals over the concrete tensors are settled by evaluation. *)
Ltac evaluate :=
  vm_compute; first [reflexivity | exact I | discriminate | by eexists].

Ltac distinct := refine (bool_decide_unpack _ _); vm_compute; exact I.

Ltac history :=
  split; [reflexivity | reflexivity | distinct | evaluate | evaluate].

Lemma mutating_methods_fail_fast_when_read_only_witness :
  read_only read_only_tensor = true
  ∧ extend "T" np.uint8 small_batch read_only_tensor
    = (Raise ReadOnly, read_only_tensor)
  ∧ append "T" np.uint8 (sample_of x01 8) read_only_tensor
    = (Raise ReadOnly, read_only_tensor)
  ∧ update "T" (index_int 0) (Single (Some [8]) (sample_of x01 8))
      read_only_tensor
    = (Raise ReadOnly, read_only_tensor).
Proof.
  split; [reflexivity|].
  apply (mutating_methods_fail_fast_when_read_only "T"). reflexivity.
Defined.

Lemma validate_raises_iff_out_of_sync_witness :
  meta_blob five_store = Some five_meta
  ∧ TensorMeta.length five_meta = 5%nat
  ∧ validate_num_samples_is_synchronized five_store = (Ok tt, five_store)
  ∧ validate_num_samples_is_synchronized (without_chunks_index five_store)
    = (Raise CorruptedMetaError, without_chunks_index five_store).
Proof.
  assert (meta_blob five_store = Some five_meta) as Hm by evaluate.
  destruct (validate_raises_iff_out_of_sync five_store five_meta Hm)
    as (_ & Hsync & Hdeleted).
  split_and!; [done | reflexivity | apply Hsync; evaluate
              | apply Hdeleted; reflexivity].
Defined.

Lemma merged_append_writes_whole_buffer_witness :
  History "T" tensor32 meta32 small_history small_store
  ∧ ∃ front last_chunk,
      groups_of "T" small_store = front ++ [last_chunk]
      ∧ groups_of "T"
          (_try_appending_to_last_chunk "T" (repeat x06 4) [4] small_store).2
        = front ++ [last_chunk ++ [(repeat x06 4, [4])]].
Proof.
  assert (History "T" tensor32 meta32 small_history small_store) as Hh
    by history.
  split; [done|].
  apply (proj2 (merged_append_writes_whole_buffer "T")
           tensor32 small_store _ meta32 small_history); [done | | ]; evaluate.
Defined.


Lemma read_round_trip_witness :
  History "T" tensor32 meta32 small_history small_store
  ∧ read "T" 2 small_store
    = (Ok (np.mk_ndarray [4] np.uint8 (repeat x03 4)), small_store).
Proof.
  assert (History "T" tensor32 meta32 small_history small_store) as Hh
    by history.
  split; [done|].
  assert (contents_after small_history !! 2%nat = Some (sample_of x03 4))
    as Hg by reflexivity.
  assert (well_formed None (Some np.uint8) (sample_of x03 4)) as Hwf
    by (intros _; evaluate).
  apply (read_round_trip "T" tensor32 small_store meta32 small_history 2
           (sample_of x03 4) Hh Hg Hwf).
Defined.


Lemma empty_byte_range_reads_as_zeros_witness :
  History "T" tensor32 meta32 [] tensor32
  ∧ ∃ s', append "T" np.uint8 ([], [0; 5]) tensor32 = (Ok tt, s')
          ∧ read "T" 0 s' = (Ok (np.mk_ndarray [0; 5] np.uint8 []), s').
Proof.
  assert (History "T" tensor32 meta32 [] tensor32) as Hh by history.
  split; [done|].
  exists (append "T" np.uint8 ([], [0; 5]) tensor32).2.
  assert (append "T" np.uint8 ([], [0; 5]) tensor32
          = (Ok tt, (append "T" np.uint8 ([], [0; 5]) tensor32).2))
    as Happend by evaluate.
  split; [done|].
  assert (distinct_keys "T" (uuid_calls tensor32) (S (appended [])))
    as Hkeys by distinct.
  assert (0 ≤ max_size_of meta32) as Hmax by evaluate.
  destruct (proj2 (empty_byte_range_reads_as_zeros "T") tensor32 tensor32 _
              meta32 [] np.uint8 Hh Hkeys Hmax Happend)
    as (m' & Hm' & Hread & _).
  assert (m' = default meta32
                 (meta_blob (append "T" np.uint8 ([], [0; 5]) tensor32).2))
    as -> by (by rewrite Hm').
  exact Hread.
Defined.

Lemma numpy_raises_iff_dynamic_witness :
  History "T" default_tensor default_meta dynamic_history dynamic_store
  ∧ (numpy "T" index_all false dynamic_store).1 = Raise DynamicTensorNumpyError
  ∧ ∃ arrays, numpy "T" index_all true dynamic_store
              = (Ok (AsList arrays), dynamic_store)
              ∧ np.shape <$> arrays = [[10; 10]; [10; 15]].
Proof.
  assert (History "T" default_tensor default_meta dynamic_history dynamic_store)
    as Hh by history.
  split; [done|].
  assert (is_Some (chunks_index dynamic_store)) as Hsome by evaluate.
  assert (Forall (λ g, g < length (contents_after dynamic_history))%nat
            (Index.indices index_all (length (contents_after dynamic_history))))
    as Hbound by (repeat constructor).
  assert (Forall (well_formed None (Some np.float32))
            (contents_after dynamic_history)) as Hwf
    by (repeat constructor; intros _; evaluate).
  split.
  - destruct (numpy_raises_iff_dynamic "T" default_tensor dynamic_store
                default_meta dynamic_history index_all false Hh Hsome Hbound Hwf)
      as ((_ & Hraise) & _).
    apply Hraise. split; [done|].
    exists 0%nat, 1%nat, [10; 10], [10; 15]. by split_and!.
  - destruct (numpy_raises_iff_dynamic "T" default_tensor dynamic_store
                default_meta dynamic_history index_all true Hh Hsome Hbound Hwf)
      as (_ & Hlist & Hshapes).
    eexists. split; [by apply Hlist|]. by rewrite Hshapes.
Defined.

Lemma get_chunk_names_covers_a_prefix_witness :
  chunks_index one_per_chunk_store = Some one_per_chunk_encoder
  ∧ History "T" tensor2 meta2 one_per_chunk one_per_chunk_store
  ∧ (∃ visited,
       get_chunk_names 0 3 2 one_per_chunk_store
       = (Ok (chunk_names_of one_per_chunk_encoder 0 visited),
          one_per_chunk_store)
       ∧ (size (chunk_names_of one_per_chunk_encoder 0 visited) ≤ 2)%nat)
  ∧ get_chunk_names 0 5 4 one_per_chunk_store
    = (Raise IndexError, one_per_chunk_store).
Proof.
  assert (chunks_index one_per_chunk_store = Some one_per_chunk_encoder)
    as Henc by evaluate.
  assert (History "T" tensor2 meta2 one_per_chunk one_per_chunk_store) as Hh
    by history.
  split; [done|]. split; [done|]. split.
  - assert (3 ≤ ChunkIdEncoder.num_samples one_per_chunk_encoder)%nat
      as Hlast by (vm_compute; lia).
    destruct (proj1 (get_chunk_names_covers_a_prefix "T" one_per_chunk_store
                       one_per_chunk_encoder 0 3 2 Henc) Hlast)
      as (visited & _ & Hnames & Hsize & _).
    exists visited. split; [exact Hnames | exact Hsize].
  - assert (ChunkIdEncoder.num_samples one_per_chunk_encoder < 5)%nat
      as Hbeyond by (vm_compute; lia).
    destruct (proj2 (get_chunk_names_covers_a_prefix "T" one_per_chunk_store
                       one_per_chunk_encoder 0 5 4 Henc)
                tensor2 meta2 one_per_chunk Hh Hbeyond) as (Hraise & _).
    apply Hraise; vm_compute; lia.
Defined.

Lemma update_warns_once_per_batch_witness :
  History "T" tensor4000 meta4000 thousand_history thousand_store
  ∧ ∃ s', update "T" (index_int 2) (Single (Some [400]) (sample_of x07 400))
            thousand_store = (Ok tt, s')
          ∧ warnings s' = warnings thousand_store.
Proof.
  assert (History "T" tensor4000 meta4000 thousand_history thousand_store)
    as Hh by history.
  split; [done|].
  eexists. split; [evaluate|].
  match goal with
  | |- warnings ?s' = _ =>
      assert (update "T" (index_int 2)
                (Single (Some [400]) (sample_of x07 400))
                thousand_store = (Ok tt, s')) as Hupdate by evaluate
  end.
  destruct (update_warns_once_per_batch "T" tensor4000 thousand_store _
              meta4000 thousand_history _ _ Hh Hupdate)
    as (items & Hitems & _ & Htail).
  apply Htail.
  vm_compute in Hitems. injection Hitems as <-.
  repeat constructor. exists 0%nat. evaluate.
Defined.

(** In a tensor of three chunks of one sample each,
    [get_chunk_names(0, 3, 1)] stops after the first sample: the one name
    it returns is not the name of the chunk of sample 2, which lies in
    [[0, 3)].  And [get_chunk_names(0, 5, 4)], whose range ends after the
    tensor does, returns no names at all: it raises [IndexError] at
    sample 3. *)
Lemma get_chunk_names_stops_at_target :
  (∃ names,
     get_chunk_names 0 3 1 one_per_chunk_store
     = (Ok names, one_per_chunk_store)
     ∧ size names = 1%nat
     ∧ chunk_name_at one_per_chunk_encoder 2 ∉ names)
  ∧ num_samples one_per_chunk_store = (Ok 3%nat, one_per_chunk_store)
  ∧ num_chunks one_per_chunk_store = (Ok 3%nat, one_per_chunk_store)
  ∧ get_chunk_names 0 5 4 one_per_chunk_store
    = (Raise IndexError, one_per_chunk_store).
Proof.
  split_and!; [|evaluate|evaluate|evaluate].
  eexists. split; [evaluate|]. split; [evaluate|].
  refine (bool_decide_unpack _ _). vm_compute. exact I.
Qed.

(** In a tensor whose first chunk holds samples 0 and 1, of 1000 bytes
    each, with [min_chunk_size] 2000 and [max_chunk_size] 4000, an update
    that shrinks sample 0 to 100 bytes and then grows sample 1 to 1900
    bytes is warned about: after the first of the two the chunk is below
    the threshold of 1600 bytes.  Yet after the update the first chunk
    holds 2000 data bytes, 2058 bytes with its header, which lies within
    the thresholds 1600 and 4800, and the other chunk was not updated.
    This does not depend on the header: any header below 500 bytes leaves
    the size in between out of bounds and the final one within. *)
Lemma update_warns_about_a_size_in_between :
  ∃ s', update "T" (index_list [0; 1]%nat) shrink_then_grow thousand_store
        = (Ok tt, s')
        ∧ min_chunk_size thousand_store = (Ok 2000, thousand_store)
        ∧ max_chunk_size thousand_store = (Ok 4000, thousand_store)
        ∧ layout "T" thousand_store = [(2%nat, 2000); (1%nat, 500)]
        ∧ warnings thousand_store = []
        ∧ warnings s' = [SUBOPTIMAL_CHUNKS_WARNING]
        ∧ layout "T" s' = [(2%nat, 2000); (1%nat, 500)]
        ∧ Chunk.nbytes <$> chunks s' !! chunk_key_of "T" 0%N = Some 2058
        ∧ suboptimal 2000 4000 2058 = false
        ∧ ∀ header, 0 ≤ header < 500 →
            suboptimal 2000 4000 (header + 100 + 1000) = true
            ∧ suboptimal 2000 4000 (header + 100 + 1900) = false.
Proof.
  eexists. split; [evaluate|]. split_and!; try evaluate.
  intros header Hheader. split.
  - apply suboptimal_in_integers. lia.
  - apply not_true_is_false. rewrite suboptimal_in_integers. lia.
Qed.

Lemma history_keeps_length_synchronized_witness :
  History "T" tensor32 meta32 small_history small_store
  ∧ validate_num_samples_is_synchronized small_store = (Ok tt, small_store).
Proof.
  assert (History "T" tensor32 meta32 small_history small_store) as Hh
    by history.
  split; [done|].
  destruct (history_keeps_length_synchronized "T" tensor32 small_store meta32
              small_history Hh eq_refl) as (m & _ & _ & _ & Hvalidate).
  exact Hvalidate.
Defined.

Lemma chunks_hold_every_sample_once_witness :
  History "T" tensor32 meta32 small_history small_store
  ∧ concat (groups_of "T" small_store) = small_batch
  ∧ num_chunks small_store = (Ok 2%nat, small_store).
Proof.
  assert (History "T" tensor32 meta32 small_history small_store) as Hh
    by history.
  split; [done|].
  destruct (chunks_hold_every_sample_once "T" tensor32 small_store meta32
              small_history Hh) as (Hconcat & _ & Hchunks & _).
  split; [exact Hconcat | exact Hchunks].
Defined.

Lemma extend_keeps_chunks_within_max_chunk_size_witness :
  History "T" tensor32 meta32 small_history small_store
  ∧ Forall (λ chunk, len (data_of chunk) ≤ 32) (groups_of "T" small_store).
Proof.
  assert (History "T" tensor32 meta32 small_history small_store) as Hh
    by history.
  split; [done|].
  assert (Forall (λ o, ∃ d samples, o = Extend d samples) small_history)
    as Hext by (repeat constructor; by eexists _, _).
  exact (proj1 (extend_keeps_chunks_within_max_chunk_size "T" tensor32
                  small_store meta32 small_history Hh Hext)).
Defined.

Lemma chunk_before_another_is_full_enough_witness :
  History "T" tensor32 meta32 small_history small_store
  ∧ (16 ≤ len (data_of [sample_of x01 8; sample_of x02 8])
     ∨ 32 < len (sample_of x03 4).1
            + len (data_of [sample_of x01 8; sample_of x02 8])).
Proof.
  assert (History "T" tensor32 meta32 small_history small_store) as Hh
    by history.
  split; [done|].
  assert (Forall (λ o, ∃ d samples, o = Extend d samples) small_history)
    as Hext by (repeat constructor; by eexists _, _).
  assert (groups_of "T" small_store !! 0%nat
          = Some [sample_of x01 8; sample_of x02 8]) as Hchunk by evaluate.
  assert (groups_of "T" small_store !! 1%nat = Some [sample_of x03 4])
    as Hnext by evaluate.
  apply (proj2 (chunk_before_another_is_full_enough "T" tensor32 small_store
                  meta32 small_history 0 _ [] (sample_of x03 4)
                  Hh Hext Hchunk Hnext)).
  evaluate.
Defined.


Lemma update_of_a_subslice_is_refused_witness :
  read_only small_store = false
  ∧ update "T" (Index.mk (λ _, [0%nat]) false false (λ a, a))
      (Single (Some [2]) (sample_of x07 2)) small_store
    = (Raise NotImplementedError, small_store)
  ∧ update "T" (Index.mk (λ _, [0%nat]) false false (λ a, a))
      (Single (Some [2]) (sample_of x07 2)) tensor32
    = (Raise NotImplementedError, with_index tensor32 ChunkIdEncoder.blank).
Proof.
  split; [reflexivity|].
  assert (meta_blob small_store
          = Some (default meta32 (meta_blob small_store)))
    as Hmeta by evaluate.
  split.
  - rewrite (update_of_a_subslice_is_refused "T" small_store _
               (Index.mk (λ _, [0%nat]) false false (λ a, a))
               (Single (Some [2]) (sample_of x07 2)) eq_refl Hmeta eq_refl).
    evaluate.
  - exact (update_of_a_subslice_is_refused "T" tensor32 meta32
             (Index.mk (λ _, [0%nat]) false false (λ a, a))
             (Single (Some [2]) (sample_of x07 2)) eq_refl eq_refl eq_refl).
Defined.

Lemma update_with_a_wrong_number_of_samples_witness :
  read_only small_store = false
  ∧ update "T" (index_list [0; 1]%nat)
      (Sequence None (sample_of x07 3)
         [sample_of x07 1; sample_of x07 1; sample_of x07 1]) small_store
    = (Raise ValueError, small_store).
Proof.
  split; [reflexivity|].
  assert (meta_blob small_store
          = Some (default meta32 (meta_blob small_store)))
    as Hmeta by evaluate.
  rewrite (update_with_a_wrong_number_of_samples "T" small_store _
             (index_list [0; 1]%nat) None (sample_of x07 3)
             [sample_of x07 1; sample_of x07 1; sample_of x07 1]
             eq_refl Hmeta eq_refl); [evaluate | |]; vm_compute; lia.
Defined.



Lemma suboptimal_chunks_are_warned_about_once_witness :
  ∃ s', _warn_if_suboptimal_chunks [2058; 1158; 5000] 2000 4000 thousand_store
        = (Ok tt, s')
        ∧ warnings s' = warnings thousand_store ++ [SUBOPTIMAL_CHUNKS_WARNING].
Proof.
  assert (0 ≤ 2000 < 2 ^ 49) as Hmin by lia.
  assert (0 ≤ 4000 < 2 ^ 49) as Hmax by lia.
  destruct (suboptimal_chunks_are_warned_about_once [2058; 1158; 5000]
              2000 4000 thousand_store Hmin Hmax)
    as (s' & Hrun & _ & _ & _ & _ & Hwarnings).
  exists s'. split; [exact Hrun|].
  rewrite Hwarnings. reflexivity.
Defined.

Lemma reading_leaves_the_cache_alone_witness :
  is_Some (chunks_index small_store)
  ∧ (numpy "T" index_all true small_store).2 = small_store
  ∧ (read "T" 7 small_store).2 = small_store.
Proof.
  assert (is_Some (chunks_index small_store)) as Hsome by evaluate.
  split; [done|].
  destruct (reading_leaves_the_cache_alone "T" small_store index_all true
              7 0 3 2 (Tensor.mk "T" index_all None) Hsome)
    as (Hnumpy & Hread & _).
  split; [exact Hnumpy | exact Hread].
Defined.

Lemma first_extend_settles_the_dtype_witness :
  History "T" tensor32 meta32 small_history small_store
  ∧ ∃ m, meta_blob small_store = Some m
         ∧ TensorMeta.dtype m = Some np.uint8.
Proof.
  assert (History "T" tensor32 meta32 small_history small_store) as Hh
    by history.
  split; [done|].
  exact (first_extend_settles_the_dtype "T" tensor32 small_store meta32
           small_history Hh).
Defined.


Lemma extend_of_nothing_appends_nothing_witness :
  History "T" tensor32 meta32 small_history small_store
  ∧ ∃ s', extend "T" np.uint8 [] small_store = (Ok tt, s')
          ∧ groups_of "T" s' = groups_of "T" small_store.
Proof.
  assert (History "T" tensor32 meta32 small_history small_store) as Hh
    by history.
  split; [done|].
  assert (is_Some (dtype_after (TensorMeta.dtype meta32) small_history))
    as Hdtype by evaluate.
  destruct (extend_of_nothing_appends_nothing "T" tensor32 small_store meta32
              small_history np.uint8 Hh eq_refl eq_refl Hdtype)
    as (s' & Hextend & Hgroups & _).
  exists s'. split; [exact Hextend | exact Hgroups].
Defined.

Lemma last_chunk_holds_the_last_sample_witness :
  History "T" tensor32 meta32 small_history small_store
  ∧ ∃ chunk samples,
      last_chunk "T" small_store = (Ok (Some chunk), small_store)
      ∧ chunks small_store !! chunk = Some (chunk_of samples)
      ∧ last (groups_of "T" small_store) = Some samples
      ∧ last samples = Some (sample_of x03 4).
Proof.
  assert (History "T" tensor32 meta32 small_history small_store) as Hh
    by history.
  split; [done|].
  exact (last_chunk_holds_the_last_sample "T" tensor32 small_store meta32
           small_history Hh).
Defined.

End Scenarios.
